(** * Aleo GUI wallet: wallet core, transaction manager, chain integration,
      security manager

    A shallow embedding of the Python sources

      - [dist/wallet_core.py]            (class [AleoWalletCore])
      - [transaction_manager.py]         (class [TransactionManager])
      - [dist/blockchain_integration.py] (class [BlockchainIntegration])
      - [dist/aleo_api.py]               (class [AleoBlockchainAPI])
      - [security.py]                    (class [SecurityManager])

    Conventions.  A Python [float] is an IEEE 754 binary64 number
    ([PrimFloat.float], rounding to nearest even, with its infinities,
    signed zeros and NaN), and [+], [-], [*], [<], [<=] on floats are the
    primitive operations; an [int] met by a float (the [0] of
    [.get("fee", 0)], the [2] of [default_fee * 2], the balance [0] of a
    new account) is the float of the same value, from which the arithmetic
    and the comparisons of these methods do not tell it apart.  Every reading of the clock ([int(time.time())],
    [time.time()]) is an explicit argument of its own, a method that reads
    it at several places taking one argument for each place; random bytes
    ([secrets.token_bytes], [os.urandom]) are explicit arguments; a Python
    exception is the [Raise] branch of [result], and a method that mutates
    [self] is a computation in the state-and-exception monad [M] (the state
    reached before a [raise] is kept, as in Python). *)

From Stdlib Require Import ZArith NArith String Ascii List Lia Bool Floats.
From Stdlib Require Uint63.
From Stdlib.Strings Require Import Byte.
From stdpp Require Import base decidable option list strings numbers pretty.

#[local] Set Warnings "-inexact-float".

Local Open Scope Z_scope.
Local Open Scope string_scope.

(** ** Python values and exceptions *)

Inductive exn : Type :=
| ValueError (msg : string)
| IndexError
| KeyError (key : string)
| AttributeError
| TypeError
| InvalidToken.

Inductive result (A : Type) : Type :=
| Ok (a : A)
| Raise (e : exn).
Arguments Ok {A} a.
Arguments Raise {A} e.

Definition is_ok {A} (r : result A) : bool :=
  match r with Ok _ => true | Raise _ => false end.

#[global] Instance byte_eq_dec : EqDecision byte := Byte.byte_eq_dec.

(** Computations over a mutable object of type [S]. *)
Definition M (S A : Type) : Type := S -> result A * S.

Definition ret {S A} (a : A) : M S A := fun s => (Ok a, s).
Definition raise {S A} (e : exn) : M S A := fun s => (Raise e, s).
Definition bind {S A B} (m : M S A) (k : A -> M S B) : M S B :=
  fun s => match m s with
           | (Ok a, s') => k a s'
           | (Raise e, s') => (Raise e, s')
           end.
Definition get {S} : M S S := fun s => (Ok s, s).
Definition put {S} (s : S) : M S unit := fun _ => (Ok tt, s).
Definition lift {S A} (r : result A) : M S A := fun s => (r, s).

Declare Scope py_scope.
Delimit Scope py_scope with py.
Notation "'let*' x ':=' m 'in' k" := (bind m (fun x => k))
  (at level 10, x name, m at level 100, k at level 200) : py_scope.
Notation "m ';;;' k" := (bind m (fun _ => k))
  (at level 100, k at level 200, right associativity) : py_scope.
Local Open Scope py_scope.

(** [l[i]] with Python's negative indices. *)
Definition py_norm {A} (l : list A) (i : Z) : Z :=
  if decide (i < 0) then i + Z.of_nat (length l) else i.

Definition py_getitem {A} (l : list A) (i : Z) : result A :=
  let j := py_norm l i in
  if decide (0 <= j) then
    match l !! Z.to_nat j with
    | Some x => Ok x
    | None => Raise IndexError
    end
  else Raise IndexError.

(** [l[i] = x] *)
Definition py_setitem {A} (l : list A) (i : Z) (x : A) : result (list A) :=
  let j := py_norm l i in
  if decide (0 <= j < Z.of_nat (length l)) then Ok (<[Z.to_nat j := x]> l)
  else Raise IndexError.

(** [del l[i]] *)
Definition py_delitem {A} (l : list A) (i : Z) : result (list A) :=
  let j := py_norm l i in
  if decide (0 <= j < Z.of_nat (length l)) then Ok (delete (Z.to_nat j) l)
  else Raise IndexError.

(** [l[:n]] *)
Definition py_slice_to {A} (l : list A) (n : Z) : list A :=
  if decide (n < 0) then take (Z.to_nat (Z.of_nat (length l) + n)) l
  else take (Z.to_nat n) l.

(** [0 <= index < len(l)] *)
Definition index_ok {A} (index : Z) (l : list A) : bool :=
  bool_decide (0 <= index < Z.of_nat (length l)).

(** [s.startswith(p)] *)
Definition startswith (s p : string) : bool := String.prefix p s.

(** ** Data model (the dictionaries of [wallet_core.py] as records)

    A key that the code reads with [.get(key, default)] and that some
    producer in the repository omits is an [option] field.  The ["date"]
    string of a transaction (the local time through [strftime]) is read
    by the GUI only and is left out. *)

Record Transaction : Type := mkTransaction {
  tx_type : string;                    (* "type" *)
  tx_sender : string;                  (* "sender" *)
  tx_recipient : string;               (* "recipient" *)
  tx_amount : float;                   (* "amount" *)
  tx_fee : option float;               (* "fee" *)
  tx_memo : string;                    (* "memo" *)
  tx_timestamp : option Z;             (* "timestamp" *)
  tx_status : string;                  (* "status" *)
  tx_transaction_id : option string;   (* "transaction_id" *)
  tx_block_height : Z;                 (* "block_height" *)
  tx_signature : option string         (* "signature" *)
}.

Record Contact : Type := mkContact {
  contact_name : string;
  contact_address : option string;
  contact_description : string
}.

Record Account : Type := mkAccount {
  name : string;
  private_key : string;
  view_key : string;
  address : string;
  created_at : Z;
  balance : float;
  transactions : list Transaction;
  contacts : list Contact
}.

(** [self.accounts] *)
Abbreviation Accounts := (list Account).

Definition set_timestamp (t : Z) (tx : Transaction) : Transaction :=
  mkTransaction (tx_type tx) (tx_sender tx) (tx_recipient tx) (tx_amount tx)
    (tx_fee tx) (tx_memo tx) (Some t) (tx_status tx) (tx_transaction_id tx)
    (tx_block_height tx) (tx_signature tx).

Definition set_status (st : string) (tx : Transaction) : Transaction :=
  mkTransaction (tx_type tx) (tx_sender tx) (tx_recipient tx) (tx_amount tx)
    (tx_fee tx) (tx_memo tx) (tx_timestamp tx) st (tx_transaction_id tx)
    (tx_block_height tx) (tx_signature tx).

Definition set_transaction_id (i : string) (tx : Transaction) : Transaction :=
  mkTransaction (tx_type tx) (tx_sender tx) (tx_recipient tx) (tx_amount tx)
    (tx_fee tx) (tx_memo tx) (tx_timestamp tx) (tx_status tx) (Some i)
    (tx_block_height tx) (tx_signature tx).

Definition set_signature (sg : string) (tx : Transaction) : Transaction :=
  mkTransaction (tx_type tx) (tx_sender tx) (tx_recipient tx) (tx_amount tx)
    (tx_fee tx) (tx_memo tx) (tx_timestamp tx) (tx_status tx)
    (tx_transaction_id tx) (tx_block_height tx) (Some sg).

Definition set_balance (b : float) (a : Account) : Account :=
  mkAccount (name a) (private_key a) (view_key a) (address a) (created_at a)
    b (transactions a) (contacts a).

Definition set_transactions (l : list Transaction) (a : Account) : Account :=
  mkAccount (name a) (private_key a) (view_key a) (address a) (created_at a)
    (balance a) l (contacts a).

Definition set_contacts (l : list Contact) (a : Account) : Account :=
  mkAccount (name a) (private_key a) (view_key a) (address a) (created_at a)
    (balance a) (transactions a) l.

(** One [key: value] item of the [updates] dictionary of [update_account]. *)
Inductive AccountUpdate : Type :=
| UName (v : string)
| UPrivateKey (v : string)
| UViewKey (v : string)
| UAddress (v : string)
| UCreatedAt (v : Z)
| UBalance (v : float)
| UTransactions (v : list Transaction)
| UContacts (v : list Contact).

Definition is_safe_update (u : AccountUpdate) : bool :=
  match u with
  | UPrivateKey _ | UAddress _ => false
  | _ => true
  end.

Definition apply_update (a : Account) (u : AccountUpdate) : Account :=
  match u with
  | UName v => mkAccount v (private_key a) (view_key a) (address a)
                 (created_at a) (balance a) (transactions a) (contacts a)
  | UPrivateKey v => mkAccount (name a) v (view_key a) (address a)
                 (created_at a) (balance a) (transactions a) (contacts a)
  | UViewKey v => mkAccount (name a) (private_key a) v (address a)
                 (created_at a) (balance a) (transactions a) (contacts a)
  | UAddress v => mkAccount (name a) (private_key a) (view_key a) v
                 (created_at a) (balance a) (transactions a) (contacts a)
  | UCreatedAt v => mkAccount (name a) (private_key a) (view_key a)
                 (address a) v (balance a) (transactions a) (contacts a)
  | UBalance v => set_balance v a
  | UTransactions v => set_transactions v a
  | UContacts v => set_contacts v a
  end.

(** ** [AleoWalletCore] (dist/wallet_core.py)

    [save_wallet] writes the wallet file, catches its own exceptions and
    never assigns [self.accounts]; the ledger operations below therefore
    carry [self.accounts] only.  The file is modelled with the vault. *)

Module WalletCore.

(** [self.accounts[index]] and [self.accounts[index] = a] *)
Definition load (index : Z) : M Accounts Account :=
  fun accounts => (py_getitem accounts index, accounts).

Definition store (index : Z) (a : Account) : M Accounts unit :=
  fun accounts =>
    match py_setitem accounts index a with
    | Ok accounts' => (Ok tt, accounts')
    | Raise e => (Raise e, accounts)
    end.

Definition get_account (index : Z) : M Accounts (option Account) :=
  let* accounts := get in
  if index_ok index accounts then
    let* a := load index in ret (Some a)
  else ret None.

Definition get_account_by_address (addr : string) (accounts : Accounts)
  : option Account :=
  List.find (fun a => bool_decide (address a = addr)) accounts.

Definition update_account (index : Z) (updates : list AccountUpdate)
  : M Accounts bool :=
  let* accounts := get in
  if index_ok index accounts then
    let safe_updates := List.filter is_safe_update updates in
    let* a := load index in
    store index (List.fold_left apply_update safe_updates a) ;;;
    ret true
  else ret false.

Definition delete_account (index : Z) : M Accounts bool :=
  let* accounts := get in
  if index_ok index accounts then
    (fun s => match py_delitem s index with
              | Ok s' => (Ok tt, s')
              | Raise e => (Raise e, s)
              end) ;;;
    ret true
  else ret false.

(** [transaction.get("fee", 0)] *)
Definition fee_or_zero (tx : Transaction) : float :=
  match tx_fee tx with Some f => f | None => 0%float end.

Definition add_transaction (account_index : Z) (transaction : Transaction)
  (now : Z) : M Accounts bool :=
  let* accounts := get in
  if index_ok account_index accounts then
    let transaction :=
      match tx_timestamp transaction with
      | None => set_timestamp now transaction
      | Some _ => transaction
      end in
    let* a := load account_index in
    store account_index (set_transactions (transaction :: transactions a) a) ;;;
    (if bool_decide (tx_type transaction = "Sent") then
       let* a := load account_index in
       store account_index
         (set_balance
            (balance a - (tx_amount transaction + fee_or_zero transaction))%float a)
     else if bool_decide (tx_type transaction = "Received") then
       let* a := load account_index in
       store account_index (set_balance (balance a + tx_amount transaction)%float a)
     else ret tt) ;;;
    ret true
  else ret false.

Definition add_contact (account_index : Z) (contact : Contact)
  : M Accounts bool :=
  let* accounts := get in
  if index_ok account_index accounts then
    if negb (startswith (default "" (contact_address contact)) "aleo1")
    then ret false
    else
      let* a := load account_index in
      store account_index (set_contacts (contacts a ++ [contact]) a) ;;;
      ret true
  else ret false.

Definition remove_contact (account_index contact_index : Z)
  : M Accounts bool :=
  let* accounts := get in
  if index_ok account_index accounts then
    let* a := load account_index in
    if index_ok contact_index (contacts a) then
      let* cs := lift (py_delitem (contacts a) contact_index) in
      store account_index (set_contacts cs a) ;;;
      ret true
    else ret false
  else ret false.

Definition get_balance (account_index : Z) : M Accounts float :=
  let* accounts := get in
  if index_ok account_index accounts then
    let* a := load account_index in ret (balance a)
  else ret 0%float.

Definition get_transactions (account_index : Z) (limit : option Z)
  (filter_type : option string) : M Accounts (list Transaction) :=
  let* accounts := get in
  if index_ok account_index accounts then
    let* a := load account_index in
    let txs := transactions a in
    let txs :=
      match filter_type with
      | Some ft =>
          if bool_decide (ft = "") then txs
          else List.filter (fun tx => bool_decide (tx_type tx = ft)) txs
      | None => txs
      end in
    let txs :=
      match limit with
      | Some n => py_slice_to txs n
      | None => txs
      end in
    ret txs
  else ret [].

Definition get_contacts (account_index : Z) : M Accounts (list Contact) :=
  let* accounts := get in
  if index_ok account_index accounts then
    let* a := load account_index in ret (contacts a)
  else ret [].

Definition export_private_key (account_index : Z)
  : M Accounts (option string) :=
  let* accounts := get in
  if index_ok account_index accounts then
    let* a := load account_index in ret (Some (private_key a))
  else ret None.

Definition validate_address (addr : string) : bool :=
  startswith addr "aleo1" && bool_decide (60 <= Z.of_nat (String.length addr)).

End WalletCore.


(** ** [base64] (Python standard library)

    [b64encode] is RFC 4648 with padding.  [b64decode(s)] with the default
    [validate=False] is [binascii.a2b_base64] in non-strict mode (CPython
    3.11, Modules/binascii.c): characters outside the alphabet are skipped,
    a complete pad sequence ends the input, and leftover characters of an
    unfinished quad raise [binascii.Error].  A [str] argument is first
    encoded as ASCII, which raises [ValueError] on a non-ASCII character. *)

Module Base64.

Definition table_b2a : string :=
  "ABCDEFGHIJKLMNOPQRSTUVWXYZabcdefghijklmnopqrstuvwxyz0123456789+/".

Definition b2a (n : N) : ascii :=
  match String.get (N.to_nat n) table_b2a with
  | Some c => c
  | None => "="%char
  end.

Fixpoint index_of (c : ascii) (s : string) (i : N) : option N :=
  match s with
  | EmptyString => None
  | String d s' => if Ascii.eqb c d then Some i else index_of c s' (N.succ i)
  end.

(** [table_a2b_base64[c]]; the invalid marker is any value above 63. *)
Definition a2b (c : ascii) : N :=
  match index_of c table_b2a 0 with
  | Some i => i
  | None => 255
  end.

Definition byte_of_N (n : N) : byte :=
  match Byte.of_N (n mod 256) with
  | Some b => b
  | None => Byte.x00
  end.

Definition encode3 (x y z : byte) : string :=
  let a := Byte.to_N x in
  let b := Byte.to_N y in
  let c := Byte.to_N z in
  String (b2a (N.shiftr a 2))
  (String (b2a (N.lor (N.shiftl (N.land a 3) 4) (N.shiftr b 4)))
  (String (b2a (N.lor (N.shiftl (N.land b 15) 2) (N.shiftr c 6)))
  (String (b2a (N.land c 63)) EmptyString))).

Fixpoint b64encode (data : list byte) : string :=
  match data with
  | [] => ""
  | [x] =>
      let a := Byte.to_N x in
      String (b2a (N.shiftr a 2))
      (String (b2a (N.shiftl (N.land a 3) 4)) "==")
  | [x; y] =>
      let a := Byte.to_N x in
      let b := Byte.to_N y in
      String (b2a (N.shiftr a 2))
      (String (b2a (N.lor (N.shiftl (N.land a 3) 4) (N.shiftr b 4)))
      (String (b2a (N.shiftl (N.land b 15) 2)) "="))
  | x :: y :: z :: rest => encode3 x y z +:+ b64encode rest
  end.

(** The decoder loop: [quad_pos], [leftchar] and [pads] are the C locals,
    [out] the bytes written so far (newest first). *)
Fixpoint a2b_loop (s : string) (quad_pos : nat) (leftchar : N) (pads : nat)
  (out : list byte) : result (list byte) :=
  match s with
  | EmptyString =>
      match quad_pos with
      | O => Ok (rev out)
      | 1%nat => Raise (ValueError "Invalid base64-encoded string")
      | _ => Raise (ValueError "Incorrect padding")
      end
  | String ch rest =>
      if Ascii.eqb ch "="%char then
        if (2 <=? quad_pos)%nat then
          if (4 <=? quad_pos + (pads + 1))%nat then Ok (rev out)
          else a2b_loop rest quad_pos leftchar (pads + 1)%nat out
        else a2b_loop rest quad_pos leftchar pads out
      else
        let this_ch := a2b ch in
        if (64 <=? this_ch)%N then a2b_loop rest quad_pos leftchar pads out
        else
          match quad_pos with
          | O => a2b_loop rest 1 this_ch 0 out
          | 1%nat =>
              a2b_loop rest 2 (N.land this_ch 15) 0
                (byte_of_N (N.lor (N.shiftl leftchar 2) (N.shiftr this_ch 4)) :: out)
          | 2%nat =>
              a2b_loop rest 3 (N.land this_ch 3) 0
                (byte_of_N (N.lor (N.shiftl leftchar 4) (N.shiftr this_ch 2)) :: out)
          | _ =>
              a2b_loop rest 0 0 0
                (byte_of_N (N.lor (N.shiftl leftchar 6) this_ch) :: out)
          end
  end.

Definition a2b_base64 (s : string) : result (list byte) := a2b_loop s 0 0 0 [].

Fixpoint is_ascii (s : string) : bool :=
  match s with
  | EmptyString => true
  | String c s' => (N_of_ascii c <? 128)%N && is_ascii s'
  end.

Definition b64decode (s : string) : result (list byte) :=
  if is_ascii s then a2b_base64 s
  else Raise (ValueError "string argument should contain only ASCII characters").

End Base64.

(** [s[:n]] and [s[n:]] for a non-negative literal [n]. *)
Definition str_take (n : nat) (s : string) : string := String.substring 0 n s.
Definition str_drop (n : nat) (s : string) : string :=
  String.substring n (String.length s - n) s.

(** [s.encode()] (UTF-8) for code points below 256. *)
Fixpoint utf8_encode (s : string) : list byte :=
  match s with
  | EmptyString => []
  | String c s' =>
      let n := N_of_ascii c in
      if (n <? 128)%N then byte_of_ascii c :: utf8_encode s'
      else Base64.byte_of_N (N.lor 192 (N.shiftr n 6))
           :: Base64.byte_of_N (N.lor 128 (N.land n 63))
           :: utf8_encode s'
  end.

(** ** Key material ([generate_account], [import_account_from_private_key])

    [hashlib.sha256(b).digest()] is left uninterpreted. *)

Section KeyStore.

Variable sha256 : list byte -> list byte.

Definition derive_view_key (seed : list byte) : string :=
  "AViewKey1" +:+ str_take 46 (Base64.b64encode (sha256 seed)).

Definition derive_address (seed : list byte) : string :=
  "aleo1" +:+ str_take 58 (Base64.b64encode (sha256 (sha256 seed))).

(** [s or default] for an optional string *)
Definition str_or (name : option string) (dflt : string) : string :=
  match name with
  | Some n => if bool_decide (n = "") then dflt else n
  | None => dflt
  end.

(** [seed] is the value of [secrets.token_bytes(32)]. *)
Definition generate_account (name : option string) (seed : list byte) (now : Z)
  : M Accounts Account :=
  let* accounts := get in
  let private_key := "APrivateKey1" +:+ str_take 52 (Base64.b64encode seed) in
  let view_key := derive_view_key seed in
  let address := derive_address seed in
  let account :=
    mkAccount (str_or name ("Account " +:+ pretty (Z.of_nat (length accounts) + 1)))
      private_key view_key address now 0%float [] [] in
  put (accounts ++ [account])%list ;;;
  ret account.

Definition seed_of_private_key (private_key : string) : list byte :=
  let seed_b64 := str_drop 12 private_key in
  match Base64.b64decode (seed_b64 +:+ "==") with
  | Ok seed => seed
  | Raise _ => sha256 (utf8_encode private_key)
  end.

Definition import_account_from_private_key (private_key : string)
  (name : option string) (now : Z) : M Accounts Account :=
  if negb (startswith private_key "APrivateKey1") then
    raise (ValueError "Invalid private key format. Must start with 'APrivateKey1'.")
  else
    let* accounts := get in
    let seed := seed_of_private_key private_key in
    let view_key := derive_view_key seed in
    let address := derive_address seed in
    let account :=
      mkAccount
        (str_or name ("Imported Account " +:+ pretty (Z.of_nat (length accounts) + 1)))
        private_key view_key address now 0%float [] [] in
    put (accounts ++ [account])%list ;;;
    ret account.

End KeyStore.

(** The private key [generate_account] makes from a seed. *)
Definition generated_private_key (seed : list byte) : string :=
  "APrivateKey1" +:+ str_take 52 (Base64.b64encode seed).

(** A 32-byte seed for examples. *)
Definition seed32 : list byte :=
  [x00; x01; x02; x03; x04; x05; x06; x07; x08; x09; x0a; x0b; x0c; x0d; x0e; x0f;
   xf0; xf1; xf2; xf3; xf4; xf5; xf6; xf7; xf8; xf9; xfa; xfb; xfc; xfd; xfe; xff].

(** ** [TransactionManager] (transaction_manager.py)

    The manager holds a reference to the wallet core; its methods are
    computations over [self.wallet_core.accounts]. *)

Module TransactionManager.

Import WalletCore.

(** The fee attributes set by [__init__]. *)
Record FeeSettings : Type := mkFeeSettings {
  default_fee : float;
  min_fee : float;
  fee_per_byte : float
}.

Definition init_settings : FeeSettings :=
  mkFeeSettings 0.001 0.0001 0.00001.

Definition STATUS_PENDING : string := "Pending".
Definition STATUS_CONFIRMED : string := "Confirmed".
Definition STATUS_FAILED : string := "Failed".

(** Python's [max(a, b)]: [b] only when [b > a]. *)
Definition py_max (a b : float) : float := if (a <? b)%float then b else a.

(** [len(memo)] as the float it becomes in [len(memo) * self.fee_per_byte];
    a length is below 2^63. *)
Definition len (s : string) : float :=
  PrimFloat.of_uint63 (Uint63.of_Z (Z.of_nat (String.length s))).

Definition calculate_fee (cfg : FeeSettings) (amount : float) (memo : string)
  : float :=
  let fee := default_fee cfg in
  let fee :=
    if bool_decide (memo = "") then fee
    else (fee + len memo * fee_per_byte cfg)%float in
  py_max fee (min_fee cfg).

Section Formatting.

(** [float_str x] is the text an f-string puts for the float [x] (that of
    [repr(x)]); it is left uninterpreted. *)
Variable float_str : float -> string.

(** [ValueError(f"Insufficient balance. Need {need} ALEO but have {have} ALEO")] *)
Definition insufficient_balance (need have : float) : exn :=
  ValueError ("Insufficient balance. Need " +:+ float_str need
              +:+ " ALEO but have " +:+ float_str have +:+ " ALEO").

Definition create_transaction (cfg : FeeSettings) (account_index : Z)
  (recipient_address : string) (amount : float) (memo : string) (now : Z)
  : M Accounts Transaction :=
  if (amount <=? 0)%float then
    raise (ValueError "Amount must be greater than zero")
  else if negb (validate_address recipient_address) then
    raise (ValueError "Invalid recipient address")
  else
    let* account := get_account account_index in
    match account with
    | None => raise (ValueError "Account not found")
    | Some account =>
        let* balance := get_balance account_index in
        let fee := calculate_fee cfg amount memo in
        if (balance <? amount + fee)%float then
          raise (insufficient_balance (amount + fee)%float balance)
        else
          ret (mkTransaction "Sent" (address account) recipient_address amount
                 (Some fee) memo (Some now) STATUS_PENDING (Some "") 0 None)
    end.

End Formatting.

Definition sign_transaction (account_index : Z) (transaction : Transaction)
  (now : Z) : M Accounts Transaction :=
  let* account := get_account account_index in
  match account with
  | None => raise (ValueError "Account not found")
  | Some _ => ret (set_signature ("sig_" +:+ pretty now) transaction)
  end.

(** [start_monitoring_transaction] only spawns the monitor thread; the
    thread's body is [monitor] below and runs later.  [now] is the clock
    read for the id; [now_add] is what the clock gives [add_transaction],
    which reads it only for a transaction without a timestamp. *)
Definition broadcast_transaction (account_index : Z) (transaction : Transaction)
  (now now_add : Z) : M Accounts string :=
  let transaction_id := "at" +:+ pretty now in
  let transaction := set_transaction_id transaction_id transaction in
  add_transaction account_index transaction now_add ;;;
  ret transaction_id.

(** The [for i, tx in enumerate(transactions)] search for an id. *)
Fixpoint find_tx (transaction_id : string) (txs : list Transaction) (i : nat)
  : option (nat * Transaction) :=
  match txs with
  | [] => None
  | tx :: rest =>
      if bool_decide (tx_transaction_id tx = Some transaction_id)
      then Some (i, tx)
      else find_tx transaction_id rest (S i)
  end.

(** [self.wallet_core.accounts[account_index]["transactions"][i] = tx] *)
Definition store_tx (account_index : Z) (i : nat) (tx : Transaction)
  : M Accounts unit :=
  let* a := load account_index in
  let* txs := lift (py_setitem (transactions a) (Z.of_nat i) tx) in
  store account_index (set_transactions txs a).

(** The entries of a history are taken to be distinct dictionaries, as
    they are when they come from the callers in the repository (each
    builds a fresh one) or from the wallet file: writing the status of
    one entry does not reach another. *)
Definition update_transaction_status (account_index : Z)
  (transaction_id : string) (status : string) : M Accounts bool :=
  let* txs := get_transactions account_index None None in
  match find_tx transaction_id txs 0 with
  | Some (i, tx) =>
      store_tx account_index i (set_status status tx) ;;;
      ret true
  | None => ret false
  end.

Definition get_transaction (account_index : Z) (transaction_id : string)
  : M Accounts (option Transaction) :=
  let* txs := get_transactions account_index None None in
  ret (snd <$> find_tx transaction_id txs 0).

Definition set_block_height (h : Z) (tx : Transaction) : Transaction :=
  mkTransaction (tx_type tx) (tx_sender tx) (tx_recipient tx) (tx_amount tx)
    (tx_fee tx) (tx_memo tx) (tx_timestamp tx) (tx_status tx)
    (tx_transaction_id tx) h (tx_signature tx).

(** Body of the monitor thread, after its [time.sleep(5)];
    [latest_height] is what [get_latest_height()] gave, or the fallback. *)
Definition monitor (account_index : Z) (transaction_id : string)
  (latest_height : Z) : M Accounts unit :=
  update_transaction_status account_index transaction_id STATUS_CONFIRMED ;;;
  let* txs := get_transactions account_index None None in
  match find_tx transaction_id txs 0 with
  | Some (i, tx) => store_tx account_index i (set_block_height latest_height tx)
  | None => ret tt
  end.

(** [now_id] is the clock read for a missing id, [now] the later one
    read for the timestamp. *)
Definition receive_transaction (account_index : Z) (sender_address : string)
  (amount : float) (transaction_id : option string) (now_id now : Z)
  : M Accounts Transaction :=
  let transaction_id := str_or transaction_id ("at" +:+ pretty now_id) in
  let* account := get_account account_index in
  match account with
  | None => raise TypeError
  | Some account =>
      let transaction :=
        mkTransaction "Received" sender_address (address account) amount
          (Some 0%float) "" (Some now) STATUS_CONFIRMED (Some transaction_id) 0
          None in
      add_transaction account_index transaction now ;;;
      ret transaction
  end.

(** The three methods read the clock one after the other:
    [now_create] for the timestamp, [now_sign] for the signature and
    [now_broadcast] for the id.  [add_transaction] does not read it, the
    transaction having its timestamp. *)
Definition send_transaction (float_str : float -> string) (cfg : FeeSettings)
  (account_index : Z) (recipient_address : string) (amount : float)
  (memo : string) (now_create now_sign now_broadcast : Z) : M Accounts string :=
  let* transaction :=
    create_transaction float_str cfg account_index recipient_address amount memo
      now_create in
  let* signed_transaction := sign_transaction account_index transaction now_sign in
  broadcast_transaction account_index signed_transaction now_broadcast now_broadcast.

End TransactionManager.

(** ** [AleoBlockchainAPI] (dist/aleo_api.py) *)

#[local] Unset Elimination Schemes.
Inductive json : Type :=
| JNull
| JInt (z : Z)
| JStr (s : string)
| JList (l : list json)
| JDict (d : list (string * json)).
#[local] Set Elimination Schemes.

Fixpoint assoc (key : string) (d : list (string * json)) : option json :=
  match d with
  | [] => None
  | (k, v) :: d' => if bool_decide (k = key) then Some v else assoc key d'
  end.

(** [obj.get(key, default)]; a value without [.get] raises. *)
Definition py_get (obj : json) (key : string) (dflt : json) : result json :=
  match obj with
  | JDict d => Ok (default dflt (assoc key d))
  | _ => Raise AttributeError
  end.

(** What [session.post], [raise_for_status] and [response.json()] do
    between them: they give the parsed body of the answer, or raise a
    [requests.exceptions.RequestException] (connection error, timeout,
    HTTP error status). *)
Inductive transport : Type :=
| Replied (body : json)
| RequestException (msg : string).

Module AleoBlockchainAPI.

Definition _make_rpc_request (t : transport) : result json :=
  match t with
  | Replied body => Ok body
  | RequestException msg => Ok (JDict [("error", JStr msg)])
  end.

Definition get_latest_height (t : transport) : result json :=
  match _make_rpc_request t with
  | Ok response => py_get response "result" (JInt 0)
  | Raise e => Raise e
  end.

End AleoBlockchainAPI.

(** ** [BlockchainIntegration] (dist/blockchain_integration.py) *)

Module BlockchainIntegration.

Import WalletCore.

(** The connection flag, and the arguments with which the registered
    status callbacks have been called so far (oldest first); a callback
    that raises is caught by [_notify_network_status_change]. *)
Record NetState : Type := mkNetState {
  is_connected : bool;
  notified : list bool
}.

Definition _notify_network_status_change (b : bool) : M NetState unit :=
  fun s => (Ok tt, mkNetState (is_connected s) (notified s ++ [b])%list).

Definition set_connected (b : bool) : M NetState unit :=
  fun s => (Ok tt, mkNetState b (notified s)).

(** [height] is the outcome of [self.blockchain_api.get_latest_height()]. *)
Definition check_network_status (height : result json) : M NetState bool :=
  match height with
  | Ok _ =>
      let* s := get in
      let was_connected := is_connected s in
      set_connected true ;;;
      (if negb was_connected then _notify_network_status_change true
       else ret tt) ;;;
      ret true
  | Raise _ =>
      let* s := get in
      (if is_connected s then
         set_connected false ;;; _notify_network_status_change false
       else ret tt) ;;;
      ret false
  end.

(** The probe with the repository's own API client behind it. *)
Definition probe (t : transport) : M NetState bool :=
  check_network_status (AleoBlockchainAPI.get_latest_height t).

(** The fields [_process_transaction] reads from [tx_details], after their
    [.get] defaults and [float(...)] conversions. *)
Record TxDetails : Type := mkTxDetails {
  td_id : string;
  td_sender : string;
  td_recipient : string;
  td_amount : float;
  td_fee : float;
  td_memo : string;
  td_timestamp : option Z;
  td_block_height : Z
}.

(** [tx_details] is [None] when the chain answered with a falsy value. *)
Definition _process_transaction (account_index : Z)
  (tx_details : option TxDetails) (now : Z) : M Accounts unit :=
  match tx_details with
  | None => ret tt
  | Some d =>
      let* account := get_account account_index in
      match account with
      | None => ret tt
      | Some account =>
          let timestamp := default now (td_timestamp d) in
          let mk ty :=
            mkTransaction ty (td_sender d) (td_recipient d) (td_amount d)
              (Some (td_fee d)) (td_memo d) (Some timestamp) "Confirmed"
              (Some (td_id d)) (td_block_height d) None in
          if bool_decide (td_sender d = address account) then
            add_transaction account_index (mk "Sent") now ;;; ret tt
          else if bool_decide (td_recipient d = address account) then
            add_transaction account_index (mk "Received") now ;;; ret tt
          else ret tt
      end
  end.

(** The balance loop of [_update_account_balance]; [tx["fee"]] raises
    [KeyError] on a sent transaction without that key. *)
Fixpoint sum_transactions (txs : list Transaction) (balance : float)
  : result float :=
  match txs with
  | [] => Ok balance
  | tx :: rest =>
      if bool_decide (tx_type tx = "Received") then
        sum_transactions rest (balance + tx_amount tx)%float
      else if bool_decide (tx_type tx = "Sent") then
        match tx_fee tx with
        | Some fee => sum_transactions rest (balance - (tx_amount tx + fee))%float
        | None => Raise (KeyError "fee")
        end
      else sum_transactions rest balance
  end.

Definition _update_account_balance (account_index : Z) : M Accounts unit :=
  let* account := get_account account_index in
  match account with
  | None => ret tt
  | Some _ =>
      let* txs := get_transactions account_index None None in
      let* balance := lift (sum_transactions txs 0%float) in
      let* a := load account_index in
      store account_index (set_balance balance a)
  end.

(** The [for tx_id in tx_ids] loop of [_sync_account];
    [chain_get_transaction] is [self.blockchain_api.get_transaction]. *)
Definition sync_one (chain_get_transaction : string -> result (option TxDetails))
  (account_index : Z) (now : Z) (tx_id : string) : M Accounts unit :=
  let* existing_tx := TransactionManager.get_transaction account_index tx_id in
  match existing_tx with
  | Some _ => ret tt
  | None =>
      let* tx_details := lift (chain_get_transaction tx_id) in
      _process_transaction account_index tx_details now
  end.

(** [clock k] is the clock during turn [k] of the loop, where
    [_process_transaction] reads it. *)
Fixpoint sync_loop (chain_get_transaction : string -> result (option TxDetails))
  (account_index : Z) (clock : nat -> Z) (tx_ids : list string)
  : M Accounts unit :=
  match tx_ids with
  | [] => ret tt
  | tx_id :: rest =>
      sync_one chain_get_transaction account_index (clock 0%nat) tx_id ;;;
      sync_loop chain_get_transaction account_index (fun k => clock (S k)) rest
  end.

(** [tx_ids] is the outcome of [get_public_transactions_for_address];
    the [try ... except Exception] of the source swallows every error. *)
Definition _sync_account (chain_get_transaction : string -> result (option TxDetails))
  (tx_ids : result (list string)) (account_index : Z) (clock : nat -> Z)
  : M Accounts unit :=
  let* account := get_account account_index in
  match account with
  | None => ret tt
  | Some _ =>
      fun s =>
        match (let* ids := lift tx_ids in
               sync_loop chain_get_transaction account_index clock ids ;;;
               _update_account_balance account_index) s with
        | (_, s') => (Ok tt, s')
        end
  end.

End BlockchainIntegration.

(** ** [SecurityManager] (security.py)

    [self.settings] always carries the keys of [default_settings]; the
    keys written later ([lockout_time], [password_salt], [password_hash])
    may be absent.  [PBKDF2HMAC(...).derive] and [hashlib.sha256] are left
    uninterpreted. *)

Section SecurityManager.

(** [PBKDF2HMAC(SHA256, 32, salt, iterations).derive(password.encode())] *)
Variable pbkdf2 : Z -> list byte -> string -> list byte.
Variable sha256 : list byte -> list byte.

Record Settings : Type := mkSettings {
  password_required : bool;
  auto_lock_timeout : Z;
  failed_attempts_limit : Z;
  pbkdf2_iterations : Z;
  last_access : Z;
  failed_attempts : Z;
  locked : bool;
  lockout_time : option Z;
  password_salt : option string;
  password_hash : option string
}.

Definition default_settings : Settings :=
  mkSettings true 300 5 100000 0 0 false None None None.

Definition set_lock (l : bool) (fa : Z) (s : Settings) : Settings :=
  mkSettings (password_required s) (auto_lock_timeout s)
    (failed_attempts_limit s) (pbkdf2_iterations s) (last_access s) fa l
    (lockout_time s) (password_salt s) (password_hash s).

Definition set_success (now : Z) (s : Settings) : Settings :=
  mkSettings (password_required s) (auto_lock_timeout s)
    (failed_attempts_limit s) (pbkdf2_iterations s) now 0 (locked s)
    (lockout_time s) (password_salt s) (password_hash s).

Definition set_failed_attempts (fa : Z) (s : Settings) : Settings :=
  mkSettings (password_required s) (auto_lock_timeout s)
    (failed_attempts_limit s) (pbkdf2_iterations s) (last_access s) fa
    (locked s) (lockout_time s) (password_salt s) (password_hash s).

Definition set_locked_at (now : Z) (s : Settings) : Settings :=
  mkSettings (password_required s) (auto_lock_timeout s)
    (failed_attempts_limit s) (pbkdf2_iterations s) (last_access s)
    (failed_attempts s) true (Some now) (password_salt s) (password_hash s).

Definition derive_key_from_password (s : Settings) (password : string)
  (salt : list byte) : list byte :=
  pbkdf2 (pbkdf2_iterations s) salt password.

(** [salt] is the value of [os.urandom(16)]. *)
Definition create_master_password (password : string) (salt : list byte)
  (now : Z) (s : Settings) : Settings :=
  let key := derive_key_from_password s password salt in
  mkSettings true (auto_lock_timeout s) (failed_attempts_limit s)
    (pbkdf2_iterations s) now 0 false (lockout_time s)
    (Some (Base64.b64encode salt)) (Some (Base64.b64encode (sha256 key))).

(** The comparison [computed_hash == stored_hash], from the two
    [b64decode] calls on; either call may raise. *)
Definition hashes_match (s : Settings) (salt_b64 hash_b64 password : string)
  : result bool :=
  match Base64.b64decode salt_b64 with
  | Raise e => Raise e
  | Ok salt =>
      match Base64.b64decode hash_b64 with
      | Raise e => Raise e
      | Ok stored_hash =>
          let key := derive_key_from_password s password salt in
          Ok (bool_decide (sha256 key = stored_hash))
      end
  end.

(** [verify_master_password]; its [except Exception] returns [False] and
    keeps the settings as they are at the [raise].  [now_lock] is the
    clock at the lock check (read on a locked gate only), [now] the clock
    at the outcome, for [last_access] or [lockout_time]. *)
Definition verify_master_password (password : string) (now_lock now : Z)
  (s : Settings) : bool * Settings :=
  if negb (password_required s) then (true, s)
  else
    let after_lock_check :=
      if locked s then
        if decide (now_lock - default 0 (lockout_time s) < 3600) then None
        else Some (set_lock false 0 s)
      else Some s in
    match after_lock_check with
    | None => (false, s)
    | Some s =>
        match password_salt s, password_hash s with
        | Some salt_b64, Some hash_b64 =>
            if bool_decide (salt_b64 = "") || bool_decide (hash_b64 = "")
            then (false, s)
            else
              match hashes_match s salt_b64 hash_b64 password with
              | Raise _ => (false, s)
              | Ok true => (true, set_success now s)
              | Ok false =>
                  let failed := failed_attempts s + 1 in
                  let s := set_failed_attempts failed s in
                  let s :=
                    if decide (failed >= failed_attempts_limit s)
                    then set_locked_at now s else s in
                  (false, s)
              end
        | _, _ => (false, s)
        end
    end.

(** A run of verification attempts, each with its password and its two
    clock readings. *)
Fixpoint verify_all (attempts : list (string * Z * Z)) (s : Settings) : Settings :=
  match attempts with
  | [] => s
  | (password, now_lock, now) :: rest =>
      verify_all rest (snd (verify_master_password password now_lock now s))
  end.

Definition is_locked (now : Z) (s : Settings) : bool * Settings :=
  if negb (locked s) then (false, s)
  else if decide (now - default 0 (lockout_time s) < 3600) then (true, s)
  else (false, set_lock false 0 s).

Definition should_auto_lock (now : Z) (s : Settings) : bool :=
  if negb (password_required s) then false
  else bool_decide (now - last_access s > auto_lock_timeout s).

End SecurityManager.

(** ** The encrypted vault ([encrypt_wallet], [save_wallet],
       [decrypt_wallet], [load_wallet] of dist/wallet_core.py)

    The [cryptography] and [json] libraries are parameters:
    [derive_key password salt] is
    [base64.urlsafe_b64encode(PBKDF2HMAC(SHA256, 32, salt, 100000).derive(password.encode()))],
    [fernet_encrypt key r data] is [Fernet(key).encrypt(data)] when Fernet
    draws the IV and timestamp [r], [fernet_decrypt key token] is
    [Fernet(key).decrypt(token)], [json_dumps accounts] is
    [json.dumps({"accounts": accounts, "version": "1.0"}).encode()] and
    [json_loads data] is [json.loads(data.decode()).get("accounts", [])]. *)

Section Vault.

Variable derive_key : string -> list byte -> list byte.
Variable Nonce : Type.
Variable fernet_encrypt : list byte -> Nonce -> list byte -> list byte.
Variable fernet_decrypt : list byte -> list byte -> result (list byte).
Variable json_dumps : Accounts -> list byte.
Variable json_loads : list byte -> result Accounts.

(** The wallet object and its file ([None]: the file does not exist). *)
Record Wallet : Type := mkWallet {
  w_accounts : Accounts;
  w_is_encrypted : bool;
  w_encryption_key : option (list byte);
  w_salt : option (list byte);
  w_file : option (list byte)
}.

Definition write_file (data : list byte) (w : Wallet) : Wallet :=
  mkWallet (w_accounts w) (w_is_encrypted w) (w_encryption_key w) (w_salt w)
    (Some data).

(** [self.is_encrypted and self.encryption_key] *)
Definition active_key (w : Wallet) : option (list byte) :=
  if w_is_encrypted w then
    match w_encryption_key w with
    | Some (b :: k) => Some (b :: k)
    | _ => None
    end
  else None.

Definition save_wallet (r : Nonce) (w : Wallet) : bool * Wallet :=
  let json_data := json_dumps (w_accounts w) in
  match active_key w with
  | Some key =>
      let encrypted_data := fernet_encrypt key r json_data in
      match w_salt w with
      | Some salt => (true, write_file (salt ++ encrypted_data)%list w)
      | None => (false, write_file [] w)
      end
  | None => (true, write_file json_data w)
  end.

(** [salt] is the value of [os.urandom(16)]. *)
Definition encrypt_wallet (password : string) (salt : list byte) (r : Nonce)
  (w : Wallet) : bool * Wallet :=
  let key := derive_key password salt in
  let w := mkWallet (w_accounts w) true (Some key) (Some salt) (w_file w) in
  (true, snd (save_wallet r w)).

Definition decrypt_wallet (password : string) (w : Wallet) : bool * Wallet :=
  match w_file w with
  | None => (false, w)
  | Some encrypted_data =>
      let salt := take 16 encrypted_data in
      let encrypted_content := drop 16 encrypted_data in
      let key := derive_key password salt in
      match fernet_decrypt key encrypted_content with
      | Raise _ => (false, w)
      | Ok decrypted_data =>
          match json_loads decrypted_data with
          | Raise _ => (false, w)
          | Ok accounts =>
              (true, mkWallet accounts true (Some key) (Some salt) (w_file w))
          end
      end
  end.

Definition load_wallet (w : Wallet) : bool * Wallet :=
  match w_file w with
  | None => (false, w)
  | Some data =>
      match json_loads data with
      | Ok accounts =>
          (true, mkWallet accounts false (w_encryption_key w) (w_salt w) (w_file w))
      | Raise _ =>
          (false, mkWallet (w_accounts w) true (w_encryption_key w) (w_salt w)
                    (w_file w))
      end
  end.

(** [AleoWalletCore(wallet_file)] on an existing file. *)
Definition open_wallet (file : option (list byte)) : Wallet :=
  snd (load_wallet (mkWallet [] false None None file)).

End Vault.

(** ** How PBKDF2-HMAC reads the password

    [PBKDF2HMAC(SHA256, ...).derive(password)] uses the password only as
    the key of HMAC-SHA256, and HMAC (RFC 2104) uses its key only through
    the 64-byte block made from it: a key longer than 64 bytes is hashed
    first, and the key is then filled up with zero bytes.  [kdf block salt]
    is the rest of the derivation with the [urlsafe_b64encode] of
    [encrypt_wallet] on top; it is left uninterpreted. *)

Section KeyDerivation.

Variable sha256 : list byte -> list byte.
Variable kdf : list byte -> list byte -> list byte.

Definition hmac_key_block (key : list byte) : list byte :=
  let key := if decide (64 < length key)%nat then sha256 key else key in
  (key ++ repeat x00 (64 - length key))%list.

Definition pbkdf2_derive_key (password : string) (salt : list byte) : list byte :=
  kdf (hmac_key_block (utf8_encode password)) salt.

End KeyDerivation.

(** ** Two [send_transaction] calls on one wallet

    The source takes no lock.  A call is cut at its three method calls
    ([create_transaction], [sign_transaction], [broadcast_transaction]),
    and a schedule says, step by step, which of the two callers runs its
    next method and what the clock reads then. *)

Module Sends.

Import TransactionManager.

Record SendRequest : Type := mkSend {
  req_account : Z;
  req_recipient : string;
  req_amount : float;
  req_memo : string
}.

Inductive SendThread : Type :=
| Calling (r : SendRequest)
| Created (r : SendRequest) (tx : Transaction)
| Signed (r : SendRequest) (tx : Transaction)
| Returned (res : result string).

Section Run.

Variable float_str : float -> string.
Variable cfg : FeeSettings.

Definition step (now : Z) (t : SendThread) (s : Accounts)
  : SendThread * Accounts :=
  match t with
  | Calling r =>
      match create_transaction float_str cfg (req_account r) (req_recipient r)
              (req_amount r) (req_memo r) now s with
      | (Ok tx, s') => (Created r tx, s')
      | (Raise e, s') => (Returned (Raise e), s')
      end
  | Created r tx =>
      match sign_transaction (req_account r) tx now s with
      | (Ok tx', s') => (Signed r tx', s')
      | (Raise e, s') => (Returned (Raise e), s')
      end
  | Signed r tx =>
      match broadcast_transaction (req_account r) tx now now s with
      | (res, s') => (Returned res, s')
      end
  | Returned res => (Returned res, s)
  end.

(** [false] schedules the first caller, [true] the second. *)
Fixpoint run (schedule : list (bool * Z)) (t1 t2 : SendThread) (s : Accounts)
  : SendThread * SendThread * Accounts :=
  match schedule with
  | [] => (t1, t2, s)
  | (false, now) :: rest =>
      let '(t1', s') := step now t1 s in run rest t1' t2 s'
  | (true, now) :: rest =>
      let '(t2', s') := step now t2 s in run rest t1 t2' s'
  end.

End Run.

Definition succeeded (t : SendThread) : bool :=
  match t with
  | Returned (Ok _) => true
  | _ => false
  end.

Definition finished (t : SendThread) : bool :=
  match t with
  | Returned _ => true
  | _ => false
  end.

(** The first caller returns before the second starts; the clock reads
    [c1 .. c6] at the six steps. *)
Definition one_after_the_other (c1 c2 c3 c4 c5 c6 : Z) : list (bool * Z) :=
  [(false, c1); (false, c2); (false, c3); (true, c4); (true, c5); (true, c6)].

End Sends.

(** ** Specification-level vocabulary for the ledger *)

(** The effect of one [add_transaction] on the account it is recorded in. *)
Definition stamp (now : Z) (tx : Transaction) : Transaction :=
  match tx_timestamp tx with
  | None => set_timestamp now tx
  | Some _ => tx
  end.

(** What recording a transaction does to a balance, as [add_transaction]
    does it: the status is not read. *)
Definition credit (tx : Transaction) (b : float) : float :=
  if bool_decide (tx_type tx = "Sent") then
    (b - (tx_amount tx + WalletCore.fee_or_zero tx))%float
  else if bool_decide (tx_type tx = "Received") then (b + tx_amount tx)%float
  else b.

Definition record_in (now : Z) (tx : Transaction) (a : Account) : Account :=
  set_balance (credit (stamp now tx) (balance a))
    (set_transactions (stamp now tx :: transactions a) a).

(** The running sum over a whole history, whatever the status of its
    transactions, taken from 0.0 in the order in which they were recorded
    (the list has the newest first). *)
Definition history_sum (txs : list Transaction) : float :=
  List.fold_right credit 0%float txs.

(** The same contributions taken from 0.0 newest first, the order in which
    the loop of [_update_account_balance] meets them. *)
Definition recomputed_sum (txs : list Transaction) : float :=
  List.fold_left (fun b tx => credit tx b) txs 0%float.

(** The balance formula of the specification: confirmed transactions only. *)
Definition is_confirmed (tx : Transaction) : bool :=
  bool_decide (tx_status tx = "Confirmed").

Definition confirmed_sum (txs : list Transaction) : float :=
  history_sum (List.filter is_confirmed txs).

(** Ledger operations on the account at one index, as the repository
    performs them: [add_transaction], [update_transaction_status] and
    [_update_account_balance]. *)
Inductive LedgerOp : Type :=
| OpAdd (tx : Transaction) (now : Z)
| OpStatus (transaction_id : string) (status : string)
| OpRecompute.

Definition run_op (i : Z) (s : Accounts) (op : LedgerOp) : Accounts :=
  match op with
  | OpAdd tx now => (WalletCore.add_transaction i tx now s).2
  | OpStatus id status =>
      (TransactionManager.update_transaction_status i id status s).2
  | OpRecompute => (BlockchainIntegration._update_account_balance i s).2
  end.

Definition run_ops (i : Z) (ops : list LedgerOp) (s : Accounts) : Accounts :=
  List.fold_left (run_op i) ops s.

(** The operations record and re-label only: none recomputes. *)
Definition is_recompute (op : LedgerOp) : bool :=
  match op with OpRecompute => true | _ => false end.

Definition records_only (ops : list LedgerOp) : Prop :=
  Forall (fun op => is_recompute op = false) ops.

(** The account's balance obeys the formula of the specification. *)
Definition confirmed_invariant (s : Accounts) (i : Z) : Prop :=
  forall a, s !! Z.to_nat i = Some a -> balance a = confirmed_sum (transactions a).

(** The balance the code maintains: every recorded transaction counts. *)
Definition balanced (a : Account) : Prop :=
  balance a = history_sum (transactions a).

(** ** Sample data *)

Definition addr_alice : string :=
  "aleo1alice000000000000000000000000000000000000000000000000000".
Definition addr_bob : string :=
  "aleo1bob00000000000000000000000000000000000000000000000000000".

(** An account as [generate_account] leaves it: no funds, no history. *)
Definition fresh_account : Account :=
  mkAccount "Account 1" "APrivateKey1AAAA" "AViewKey1AAAA" addr_alice 0 0%float [] [].

Definition pending_sent : Transaction :=
  mkTransaction "Sent" addr_alice addr_bob 10%float (Some 0.001%float)
    "" (Some 1) "Pending" (Some "at1") 0 None.

Definition confirmed_received : Transaction :=
  mkTransaction "Received" addr_bob addr_alice 10%float (Some 0%float)
    "" (Some 1) "Confirmed" (Some "at7") 0 None.

(** Three deposits of 0.1, 0.2 and 0.3, recorded in this order. *)
Definition deposit (amount : float) (id : string) : Transaction :=
  mkTransaction "Received" addr_bob addr_alice amount (Some 0%float) ""
    (Some 1) "Confirmed" (Some id) 0 None.

Definition three_deposits : list LedgerOp :=
  [OpAdd (deposit 0.1 "d1") 1; OpAdd (deposit 0.2 "d2") 2;
   OpAdd (deposit 0.3 "d3") 3].

(** ** Vocabulary for the security gate *)

Section GateVocabulary.

Variable pbkdf2 : Z -> list byte -> string -> list byte.
Variable sha256 : list byte -> list byte.

(** A master password is set and comparing [password] against it gives
    [outcome]. *)
Definition checks_as (s : Settings) (password : string) (outcome : bool) : Prop :=
  exists salt_b64 hash_b64,
    password_salt s = Some salt_b64 /\ password_hash s = Some hash_b64 /\
    salt_b64 <> "" /\ hash_b64 <> "" /\
    hashes_match pbkdf2 sha256 s salt_b64 hash_b64 password = Ok outcome.

(** The fields a verification never writes. *)
Definition same_credentials (s s' : Settings) : Prop :=
  password_required s' = password_required s /\
  failed_attempts_limit s' = failed_attempts_limit s /\
  pbkdf2_iterations s' = pbkdf2_iterations s /\
  password_salt s' = password_salt s /\
  password_hash s' = password_hash s.

End GateVocabulary.

(** Stand-ins for the hash functions, to run the model on examples. *)
Definition toy_pbkdf2 (iterations : Z) (salt : list byte) (password : string)
  : list byte := (utf8_encode password ++ salt)%list.
Definition toy_sha256 (data : list byte) : list byte := rev data.

Definition salt16 : list byte :=
  [x00; x01; x02; x03; x04; x05; x06; x07; x08; x09; x0a; x0b; x0c; x0d; x0e; x0f].

(** The settings after [create_master_password("hunter2")] at time 0. *)
Definition gate0 : Settings :=
  create_master_password toy_pbkdf2 toy_sha256 "hunter2" salt16 0 default_settings.

Definition five_guesses : list (string * Z * Z) :=
  [("a", 10, 10); ("b", 20, 20); ("c", 30, 30); ("d", 40, 40); ("e", 50, 50)].

(** Stand-ins for the key derivation, the cipher and the JSON codec, to
    show that the contracts assumed of them can be met together. *)
Definition bytes_of_string (s : string) : list byte :=
  List.map byte_of_ascii (list_ascii_of_string s).

Definition toy_derive_key (password : string) (salt : list byte) : list byte :=
  x01 :: (bytes_of_string password ++ salt)%list.

(** A stand-in for the rest of PBKDF2 behind the key block. *)
Definition toy_kdf (block salt : list byte) : list byte :=
  x01 :: (block ++ salt)%list.

(** The password "correct horse" with one NUL character after it. *)
Definition correct_horse_nul : string :=
  "correct horse" +:+ String Ascii.zero "".

Definition marker (k : list byte) : list byte :=
  (repeat x01 (length k) ++ x00 :: k)%list.

Fixpoint strip (p t : list byte) : option (list byte) :=
  match p, t with
  | [], _ => Some t
  | a :: p', b :: t' => if decide (a = b) then strip p' t' else None
  | _ :: _, [] => None
  end.

Definition toy_encrypt (k : list byte) (r : unit) (m : list byte) : list byte :=
  (marker k ++ m)%list.

Definition toy_decrypt (k t : list byte) : result (list byte) :=
  match strip (marker k) t with
  | Some m => Ok m
  | None => Raise InvalidToken
  end.

Definition toy_dumps (accounts : Accounts) : list byte :=
  repeat x2a (length accounts).

Definition toy_loads (data : list byte) : result Accounts :=
  Ok (repeat fresh_account (length data)).

Definition plain_wallet : Wallet := mkWallet [fresh_account] false None None None.

(** Every byte, for checks by enumeration. *)
Definition all_bytes : list byte :=
  List.map (fun n => Base64.byte_of_N (N.of_nat n)) (seq 0 256).

Definition for_all_bytes (P : byte -> bool) : bool := List.forallb P all_bytes.

(** The four alphabet indices of a three-byte group, as [b64encode]
    computes them, and the index that ends a group cut short. *)
Definition idx1 (x : byte) : N := N.shiftr (Byte.to_N x) 2.
Definition idx2 (x y : byte) : N :=
  N.lor (N.shiftl (N.land (Byte.to_N x) 3) 4) (N.shiftr (Byte.to_N y) 4).
Definition idx3 (y z : byte) : N :=
  N.lor (N.shiftl (N.land (Byte.to_N y) 15) 2) (N.shiftr (Byte.to_N z) 6).
Definition idx4 (z : byte) : N := N.land (Byte.to_N z) 63.

(** An index that the decoder maps back from its alphabet character. *)
Definition valid6 (n : N) : bool :=
  (Base64.a2b (Base64.b2a n) =? n)%N
  && negb (Ascii.eqb (Base64.b2a n) "="%char)
  && (n <? 64)%N
  && (N_of_ascii (Base64.b2a n) <? 128)%N.

(** ** Vocabulary for concurrent sends *)

Module SendsSpec.

Import TransactionManager Sends.

(** What a request takes from the balance: amount plus fee, added as
    [create_transaction] adds them. *)
Definition cost (cfg : FeeSettings) (r : SendRequest) : float :=
  (req_amount r + calculate_fee cfg (req_amount r) (req_memo r))%float.

Section Calls.

Variable float_str : float -> string.
Variable cfg : FeeSettings.

(** Three steps of one caller, a whole [send_transaction], with the
    clock at each. *)
Definition whole_call (c1 c2 c3 : Z) (t : SendThread) (s : Accounts)
  : SendThread * Accounts :=
  let '(t1, s1) := step float_str cfg c1 t s in
  let '(t2, s2) := step float_str cfg c2 t1 s1 in
  step float_str cfg c3 t2 s2.

(** The caller of request [r] was refused at the balance check, the
    balance being [have]. *)
Definition refused (r : SendRequest) (have : float) : SendThread :=
  Returned (Raise (insufficient_balance float_str (cost cfg r) have)).

(** The balance checks of two sends from one account are serialized:
    whatever the schedule, both succeed only if the balance covers both. *)
Definition balance_checks_serialized (s : Accounts) (r1 r2 : SendRequest) : Prop :=
  forall schedule t1 t2 s' a,
    run float_str cfg schedule (Calling r1) (Calling r2) s = (t1, t2, s') ->
    s !! Z.to_nat (req_account r1) = Some a ->
    succeeded t1 = true -> succeeded t2 = true ->
    (cost cfg r1 + cost cfg r2 <=? balance a)%float = true.

End Calls.

(** Each caller runs [create_transaction] before either broadcasts; the
    clock reads 5 throughout. *)
Definition creates_first : list (bool * Z) :=
  [(false, 5); (true, 5); (false, 5); (true, 5); (false, 5); (true, 5)].

End SendsSpec.

(** An account holding 10.001, received in one confirmed transaction. *)
Definition funded_account : Account :=
  record_in 1
    (mkTransaction "Received" addr_bob addr_alice 10.001%float
       (Some 0%float) "" (Some 1) "Confirmed" (Some "at3") 0 None)
    fresh_account.

(** A send of 10 to Bob; with its fee of 0.001 it takes the whole of
    [funded_account]. *)
Definition send_all : Sends.SendRequest :=
  Sends.mkSend 0 addr_bob 10%float "".

(** A stand-in for the text of a float, to run the model on examples: it
    tells zero, the positive and the negative numbers and NaN apart. *)
Definition toy_float_str (x : float) : string :=
  if (x =? 0)%float then "0.0"
  else if (0 <? x)%float then "+"
  else if (x <? 0)%float then "-"
  else "nan".

(** An account whose balance is 2^53, where the next float is 2 away. *)
Definition account_2_53 : Account :=
  mkAccount "Account 1" "APrivateKey1AAAA" "AViewKey1AAAA" addr_alice 0
    9007199254740992%float [] [].

(** ** [KeyManager] (address_book.py)

    [hashlib.sha256(b).digest()] is left uninterpreted here too. *)

Section KeyManager.

Variable sha256 : list byte -> list byte.

Record KeyPair : Type := mkKeyPair {
  kp_private_key : string;
  kp_view_key : string;
  kp_address : string
}.

(** [seed] is the value of [secrets.token_bytes(32)]. *)
Definition generate_new_key_pair (seed : list byte) : KeyPair :=
  let private_key := "APrivateKey1" +:+ str_take 52 (Base64.b64encode seed) in
  let view_key_seed := sha256 seed in
  let view_key := "AViewKey1" +:+ str_take 46 (Base64.b64encode view_key_seed) in
  let address_seed := sha256 view_key_seed in
  let address := "aleo1" +:+ str_take 58 (Base64.b64encode address_seed) in
  mkKeyPair private_key view_key address.

Definition derive_view_key_from_private_key (private_key : string) : string :=
  let seed_b64 := str_drop 12 private_key in
  let seed :=
    match Base64.b64decode (seed_b64 +:+ "==") with
    | Ok seed => seed
    | Raise _ => sha256 (utf8_encode private_key)
    end in
  let view_key_seed := sha256 seed in
  "AViewKey1" +:+ str_take 46 (Base64.b64encode view_key_seed).

Definition derive_address_from_view_key (view_key : string) : string :=
  let seed_b64 := str_drop 9 view_key in
  let seed :=
    match Base64.b64decode (seed_b64 +:+ "==") with
    | Ok seed => seed
    | Raise _ => sha256 (utf8_encode view_key)
    end in
  let address_seed := sha256 seed in
  "aleo1" +:+ str_take 58 (Base64.b64encode address_seed).

Definition validate_private_key (private_key : string) : bool :=
  startswith private_key "APrivateKey1"
  && bool_decide (59 <= Z.of_nat (String.length private_key)).

Definition validate_view_key (view_key : string) : bool :=
  startswith view_key "AViewKey1"
  && bool_decide (53 <= Z.of_nat (String.length view_key)).

(** [if password:] and [if not private_key:] on optional strings *)
Definition truthy (s : option string) : bool :=
  match s with
  | Some t => negb (bool_decide (t = ""))
  | None => false
  end.

Definition km_export_private_key (account_index : Z) (password : option string)
  : M Accounts string :=
  let* private_key := WalletCore.export_private_key account_index in
  if negb (truthy private_key) then raise (ValueError "Account not found")
  else
    let private_key := default "" private_key in
    if truthy password then ret ("ENCRYPTED:" +:+ private_key)
    else ret private_key.

Definition km_import_private_key (private_key : string) (name : option string)
  (password : option string) (now : Z) : M Accounts Account :=
  let private_key :=
    if startswith private_key "ENCRYPTED:" && truthy password
    then str_drop 10 private_key
    else private_key in
  if negb (validate_private_key private_key) then
    raise (ValueError "Invalid private key format")
  else import_account_from_private_key sha256 private_key name now.

End KeyManager.

(** ** More of the vault ([disable_encryption], [backup_wallet],
       [restore_wallet] of dist/wallet_core.py)

    The libraries are parameters as for [save_wallet];
    [json_dump_indent accounts] is what
    [json.dump({"accounts": accounts, "version": "1.0"}, f, indent=2)]
    writes.  The backup file is a second file beside the wallet file. *)

Section VaultBackup.

Variable derive_key : string -> list byte -> list byte.
Variable Nonce : Type.
Variable fernet_encrypt : list byte -> Nonce -> list byte -> list byte.
Variable fernet_decrypt : list byte -> list byte -> result (list byte).
Variable json_dumps : Accounts -> list byte.
Variable json_dump_indent : Accounts -> list byte.
Variable json_loads : list byte -> result Accounts.

Definition disable_encryption (r : Nonce) (w : Wallet) : bool * Wallet :=
  if negb (w_is_encrypted w) then (true, w)
  else
    let w := mkWallet (w_accounts w) false None None (w_file w) in
    (true, (save_wallet Nonce fernet_encrypt json_dumps r w).2).

(** Returns the result and what the backup file holds afterwards when it
    was written ([None]: the backup file was not touched). *)
Definition backup_wallet (w : Wallet) : bool * option (list byte) :=
  match active_key w with
  | Some _ =>
      match w_file w with
      | Some data => (true, Some data)
      | None => (false, None)
      end
  | None => (true, Some (json_dump_indent (w_accounts w)))
  end.

(** [backup] is the content of the file at [backup_path] ([None]: no such
    file). *)
Definition restore_wallet (backup : option (list byte))
  (password : option string) (r : Nonce) (w : Wallet) : bool * Wallet :=
  match backup with
  | None => (false, w)
  | Some data =>
      match json_loads data with
      | Ok accounts =>
          let w := mkWallet accounts false (w_encryption_key w) (w_salt w)
                     (w_file w) in
          (true, (save_wallet Nonce fernet_encrypt json_dumps r w).2)
      | Raise _ =>
          if negb (truthy password) then (false, w)
          else
            let salt := take 16 data in
            let encrypted_content := drop 16 data in
            let key := derive_key (default "" password) salt in
            match fernet_decrypt key encrypted_content with
            | Raise _ => (false, w)
            | Ok decrypted_data =>
                match json_loads decrypted_data with
                | Raise _ => (false, w)
                | Ok accounts =>
                    let w := mkWallet accounts true (Some key) (Some salt)
                               (w_file w) in
                    (true, (save_wallet Nonce fernet_encrypt json_dumps r w).2)
                end
            end
      end
  end.

End VaultBackup.

(** A stand-in JSON codec that, like the real one, does not parse an
    encrypted file. *)
Definition toy_dumps_braced (accounts : Accounts) : list byte :=
  x7b :: repeat x2a (length accounts).

Definition toy_loads_braced (data : list byte) : result Accounts :=
  match data with
  | x7b :: rest => Ok (repeat fresh_account (length rest))
  | _ => Raise (ValueError "Expecting value")
  end.

(** ** More of [TransactionManager] *)

Module TransactionManagerMore.

Import TransactionManager.

Definition estimate_transaction_time (cfg : FeeSettings) (fee : float) : Z :=
  if (default_fee cfg * 2 <=? fee)%float then 1
  else if (default_fee cfg <=? fee)%float then 5
  else 15.

(** The transaction [send_transaction] records when every check passes;
    the three clock readings end up in three fields. *)
Definition sent_transaction (cfg : FeeSettings) (a : Account)
  (recipient_address : string) (amount : float) (memo : string)
  (now_create now_sign now_broadcast : Z) : Transaction :=
  mkTransaction "Sent" (address a) recipient_address amount
    (Some (calculate_fee cfg amount memo)) memo (Some now_create) STATUS_PENDING
    (Some ("at" +:+ pretty now_broadcast)) 0 (Some ("sig_" +:+ pretty now_sign)).

End TransactionManagerMore.

(** ** More of [BlockchainIntegration] *)

Module BlockchainIntegrationMore.

Import BlockchainIntegration.

(** The dictionary [get_transaction_status] returns; the one for an
    error has no "confirmations". *)
Record TxStatus : Type := mkTxStatus {
  ts_status : string;
  ts_confirmations : option Z
}.

(** [tx_details] is the outcome of [self.blockchain_api.get_transaction];
    [latest_block_height] is the attribute of that name. *)
Definition get_transaction_status (latest_block_height : Z)
  (tx_details : result (option TxDetails)) : TxStatus :=
  match tx_details with
  | Raise _ => mkTxStatus "Error" None
  | Ok None => mkTxStatus "Unknown" (Some 0)
  | Ok (Some d) =>
      let block_height := td_block_height d in
      let confirmations :=
        if decide (block_height > 0)
        then Z.max 0 (latest_block_height - block_height + 1)
        else 0 in
      mkTxStatus (if decide (confirmations > 0) then "Confirmed" else "Pending")
        (Some confirmations)
  end.

(** A run of [check_network_status] calls, one per outcome of the height
    query. *)
Fixpoint probes (heights : list (result json)) (s : NetState) : NetState :=
  match heights with
  | [] => s
  | h :: rest => probes rest (check_network_status h s).2
  end.

(** [BlockchainIntegration.__init__]: not connected, nobody notified. *)
Definition init_net : NetState := mkNetState false [].

(** The notifications say connected, disconnected, connected, ... in
    turn, starting with [expect]. *)
Fixpoint alternates (expect : bool) (l : list bool) : bool :=
  match l with
  | [] => true
  | b :: rest => Bool.eqb b expect && alternates (negb expect) rest
  end.

End BlockchainIntegrationMore.

(** ** [PriceTracker] (dist/blockchain_integration.py)

    Only the "aleo" entries of [self.prices] and [self.price_history] are
    ever written; [price_change] is the value of
    [random.uniform(-0.01, 0.01)], [stamp] that of [int(time.time())] when
    the point is added and [now] that of [time.time()] at the end of the
    call.  The callbacks run inside a [try] of their own. *)

Module PriceTracker.

Record Tracker : Type := mkTracker {
  price : option float;                 (* self.prices.get("aleo") *)
  price_history : list (Z * float);     (* self.price_history["aleo"], or [] *)
  last_update_time : float
}.

Definition init : Tracker := mkTracker None [] 0%float.

(** [l[-n:]] for a positive literal [n] *)
Definition last_n {A} (n : nat) (l : list A) : list A := drop (length l - n) l.

Definition update_prices (price_change : float) (stamp : Z) (now : float)
  (t : Tracker) : bool * Tracker :=
  let current_price := default 0.25%float (price t) in
  let new_price :=
    TransactionManager.py_max 0.01%float (current_price + price_change)%float in
  let history := (price_history t ++ [(stamp, new_price)])%list in
  let history :=
    if decide (1440 < length history)%nat then last_n 1440 history else history in
  (true, mkTracker (Some new_price) history now).

Fixpoint updates (changes : list (float * Z * float)) (t : Tracker) : Tracker :=
  match changes with
  | [] => t
  | (c, stamp, now) :: rest => updates rest (update_prices c stamp now t).2
  end.

End PriceTracker.

(** ** Vocabulary for the chain synchronisation *)

Module SyncSpec.

Import BlockchainIntegration.

(** The history of [a] has a transaction with this id. *)
Definition known (id : string) (a : Account) : bool :=
  bool_decide (TransactionManager.find_tx id (transactions a) 0 <> None).

(** The chain answers a query for an id with details that carry that id. *)
Definition answers_with_own_id (chain : string -> result (option TxDetails)) : Prop :=
  forall id d, chain id = Ok (Some d) -> td_id d = id.

(** The transaction [_process_transaction] builds from chain details. *)
Definition chain_transaction (ty : string) (d : TxDetails) (now : Z) : Transaction :=
  mkTransaction ty (td_sender d) (td_recipient d) (td_amount d)
    (Some (td_fee d)) (td_memo d) (Some (default now (td_timestamp d)))
    "Confirmed" (Some (td_id d)) (td_block_height d) None.

(** What one turn of the loop of [_sync_account] does to the account it
    works on. *)
Definition step (chain : string -> result (option TxDetails)) (now : Z)
  (id : string) (a : Account) : result unit * Account :=
  if known id a then (Ok tt, a)
  else
    match chain id with
    | Raise e => (Raise e, a)
    | Ok None => (Ok tt, a)
    | Ok (Some d) =>
        if bool_decide (td_sender d = address a) then
          (Ok tt, record_in now (chain_transaction "Sent" d now) a)
        else if bool_decide (td_recipient d = address a) then
          (Ok tt, record_in now (chain_transaction "Received" d now) a)
        else (Ok tt, a)
    end.

Fixpoint loop (chain : string -> result (option TxDetails)) (clock : nat -> Z)
  (ids : list string) (a : Account) : result unit * Account :=
  match ids with
  | [] => (Ok tt, a)
  | id :: rest =>
      match step chain (clock 0%nat) id a with
      | (Ok _, a') => loop chain (fun k => clock (S k)) rest a'
      | (Raise e, a') => (Raise e, a')
      end
  end.

(** What [_update_account_balance] does to the account. *)
Definition recompute (a : Account) : result unit * Account :=
  match sum_transactions (transactions a) 0%float with
  | Ok b => (Ok tt, set_balance b a)
  | Raise e => (Raise e, a)
  end.

(** What [_sync_account] does to the account. *)
Definition synced (chain : string -> result (option TxDetails))
  (tx_ids : result (list string)) (clock : nat -> Z) (a : Account) : Account :=
  match tx_ids with
  | Raise _ => a
  | Ok ids =>
      match loop chain clock ids a with
      | (Ok _, a') => (recompute a').2
      | (Raise _, a') => a'
      end
  end.

End SyncSpec.

(** ** More of [SecurityManager] (security.py)

    [aes_cbc_encrypt key iv data] is
    [encryptor.update(data) + encryptor.finalize()] for
    [Cipher(algorithms.AES(key), modes.CBC(iv))], [aes_cbc_decrypt] the
    same with the decryptor; [utf8_decode b] is [b.decode('utf-8')]. *)

Section SecurityData.

Variable pbkdf2 : Z -> list byte -> string -> list byte.
Variable sha256 : list byte -> list byte.
Variable aes_cbc_encrypt : list byte -> list byte -> list byte -> result (list byte).
Variable aes_cbc_decrypt : list byte -> list byte -> list byte -> result (list byte).
Variable utf8_decode : list byte -> result string.

Definition pad_data (data : list byte) : list byte :=
  let block_size := 16%nat in
  let padding_size := (block_size - (length data mod block_size))%nat in
  (data ++ repeat (Base64.byte_of_N (N.of_nat padding_size)) padding_size)%list.

(** [data[-1]] raises [IndexError] on empty data; [data[:-0]] is empty. *)
Definition unpad_data (data : list byte) : result (list byte) :=
  match last data with
  | None => Raise IndexError
  | Some b =>
      let padding_size := Z.of_N (Byte.to_N b) in
      if decide (padding_size = 0) then Ok []
      else Ok (py_slice_to data (- padding_size))
  end.

(** The key both functions derive: from the given password when there is
    one, else from the stored salt, where [password.encode()] on [None]
    raises. *)
Definition data_key (s : Settings) (password : option string) (salt : list byte)
  : result (list byte * list byte) :=
  if truthy password then
    Ok (derive_key_from_password pbkdf2 s (default "" password) salt, salt)
  else
    match Base64.b64decode (default "" (password_salt s)) with
    | Raise e => Raise e
    | Ok stored_salt =>
        match stored_salt with
        | [] => Raise (ValueError "No master password set")
        | _ :: _ =>
            match password with
            | None => Raise AttributeError
            | Some p =>
                Ok (derive_key_from_password pbkdf2 s p stored_salt, stored_salt)
            end
        end
    end.

(** [salt] and [iv] are the two values of [os.urandom(16)]. *)
Definition encrypt_data (s : Settings) (data : string) (password : option string)
  (salt iv : list byte) : result string :=
  match data_key s password salt with
  | Raise e => Raise e
  | Ok (key, salt) =>
      let padded_data := pad_data (utf8_encode data) in
      match aes_cbc_encrypt key iv padded_data with
      | Raise e => Raise e
      | Ok encrypted_data =>
          Ok (Base64.b64encode (salt ++ iv ++ encrypted_data)%list)
      end
  end.

Definition decrypt_data (s : Settings) (encrypted_data : string)
  (password : option string) : result string :=
  match Base64.b64decode encrypted_data with
  | Raise e => Raise e
  | Ok data =>
      let salt := take 16 data in
      let iv := take 16 (drop 16 data) in
      let ciphertext := drop 32 data in
      match data_key s password salt with
      | Raise e => Raise e
      | Ok (key, _) =>
          match aes_cbc_decrypt key iv ciphertext with
          | Raise e => Raise e
          | Ok padded_data =>
              match unpad_data padded_data with
              | Raise e => Raise e
              | Ok data => utf8_decode data
              end
          end
      end
  end.

(** [salt] is the value of [os.urandom(16)] drawn by
    [create_master_password]; [now_lock] and [now_verify] are the clock
    readings of [verify_master_password], [now_create] that of
    [create_master_password]. *)
Definition change_master_password (old_password new_password : string)
  (salt : list byte) (now_lock now_verify now_create : Z) (s : Settings)
  : bool * Settings :=
  let '(ok, s1) :=
    verify_master_password pbkdf2 sha256 old_password now_lock now_verify s in
  if ok then
    (true, create_master_password pbkdf2 sha256 new_password salt now_create s1)
  else (false, s1).

End SecurityData.

(** Stand-ins for AES-CBC and the UTF-8 decoder, to run the model on
    examples (ASCII text only). *)
Definition toy_aes_encrypt (key iv data : list byte) : result (list byte) :=
  Ok (rev data).
Definition toy_aes_decrypt (key iv data : list byte) : result (list byte) :=
  Ok (rev data).
Definition toy_utf8_decode (data : list byte) : result string :=
  Ok (string_of_list_ascii (List.map ascii_of_byte data)).

(** ** [AddressBookManager.search_contacts] (address_book.py) *)

Module AddressBook.

(** [c.lower()] for a code point below 256: A-Z, and the capital letters
    of Latin-1 (U+00C0 to U+00DE without the multiplication sign). *)
Definition lower_char (c : ascii) : ascii :=
  let n := N_of_ascii c in
  if ((65 <=? n) && (n <=? 90))%N then ascii_of_N (n + 32)
  else if ((192 <=? n) && (n <=? 222) && negb (n =? 215))%N then ascii_of_N (n + 32)
  else c.

Fixpoint lower (s : string) : string :=
  match s with
  | EmptyString => EmptyString
  | String c s' => String (lower_char c) (lower s')
  end.

(** [needle in hay] *)
Fixpoint contains (needle hay : string) : bool :=
  String.prefix needle hay ||
  match hay with
  | EmptyString => false
  | String _ hay' => contains needle hay'
  end.

(** The loop over the contacts; [contact["address"]] is read only when
    the name does not match, and raises [KeyError] when the key is
    missing. *)
Fixpoint search_loop (query : string) (cs : list Contact) : result (list Contact) :=
  match cs with
  | [] => Ok []
  | contact :: rest =>
      let keep :=
        if contains query (lower (contact_name contact)) then Ok true
        else
          match contact_address contact with
          | Some adr => Ok (contains query (lower adr))
          | None => Raise (KeyError "address")
          end in
      match keep with
      | Raise e => Raise e
      | Ok k =>
          match search_loop query rest with
          | Raise e => Raise e
          | Ok results => Ok (if k then contact :: results else results)
          end
      end
  end.

Definition search_contacts (account_index : Z) (query : string)
  : M Accounts (list Contact) :=
  let* contacts := WalletCore.get_contacts account_index in
  lift (search_loop (lower query) contacts).

(** The contact matches the lower-cased query: [query in name.lower()] or
    [query in address.lower()]. *)
Definition matches (query : string) (c : Contact) : Prop :=
  contains query (lower (contact_name c)) = true \/
  exists adr, contact_address c = Some adr /\ contains query (lower adr) = true.

End AddressBook.

(** ** More sample data *)

(** Chain details of a payment from Bob to Alice, and a chain that knows
    this one transaction. *)
Definition payment_details : BlockchainIntegration.TxDetails :=
  BlockchainIntegration.mkTxDetails "at9" addr_bob addr_alice 3%float
    0.001%float "" (Some 40) 12.

Definition one_payment_chain (id : string)
  : result (option BlockchainIntegration.TxDetails) :=
  if bool_decide (id = "at9") then Ok (Some payment_details) else Ok None.

(** Chain details of a transfer from Alice to herself. *)
Definition self_transfer_details : BlockchainIntegration.TxDetails :=
  BlockchainIntegration.mkTxDetails "at10" addr_alice addr_alice 3%float
    0.001%float "" None 13.

(** An account with Bob in its address book. *)
Definition account_with_bob : Account :=
  mkAccount "Account 1" "APrivateKey1AAAA" "AViewKey1AAAA" addr_alice 0 0%float []
    [mkContact "Bob" (Some addr_bob) "Colleague"].

(** [gate0] locked at time 50. *)
Definition locked_gate : Settings :=
  verify_all toy_pbkdf2 toy_sha256 five_guesses gate0.

(** * Properties *)

Import WalletCore.

(** ** The order of binary64 numbers

    What the proofs below use of [<] and [<=] on floats, from the
    specification of the primitive operations ([FloatAxioms]). *)

Section FloatOrder.

Implicit Types (x y z : spec_float) (a b c : float) (o : comparison).

Lemma SFcompare_finite_pos m1 e1 m2 e2 :
  SFcompare (S754_finite false m1 e1) (S754_finite false m2 e2)
  = Some (match (e1 ?= e2)%Z with Eq => (m1 ?= m2)%positive | c => c end).
Proof. simpl. by destruct (e1 ?= e2)%Z. Qed.

Lemma SFcompare_finite_neg m1 e1 m2 e2 :
  SFcompare (S754_finite true m1 e1) (S754_finite true m2 e2)
  = Some (CompOpp (match (e1 ?= e2)%Z with Eq => (m1 ?= m2)%positive | c => c end)).
Proof. simpl. by destruct (e1 ?= e2)%Z. Qed.

Lemma SFleb_trans x y z : SFleb x y = true -> SFleb y z = true -> SFleb x z = true.
Proof.
  unfold SFleb.
  destruct x as [[]|[]| |[] m1 e1], y as [[]|[]| |[] m2 e2], z as [[]|[]| |[] m3 e3];
    try (simpl; done);
    rewrite ?SFcompare_finite_pos, ?SFcompare_finite_neg;
    destruct (Z.compare_spec e1 e2), (Z.compare_spec e2 e3), (Z.compare_spec e1 e3);
    destruct (Pos.compare_spec m1 m2), (Pos.compare_spec m2 m3), (Pos.compare_spec m1 m3);
    simpl; try done; lia.
Qed.

Lemma SFltb_leb x y : SFltb x y = true -> SFleb x y = true.
Proof. unfold SFltb, SFleb. by destruct (SFcompare x y) as [[]|]. Qed.

Lemma SFcompare_antisym x y o :
  SFcompare x y = Some o -> SFcompare y x = Some (CompOpp o).
Proof.
  destruct x as [[]|[]| |[] m1 e1], y as [[]|[]| |[] m2 e2];
    try (simpl; intros [= <-]; done); try (simpl; done);
    rewrite ?SFcompare_finite_pos, ?SFcompare_finite_neg;
    intros [= <-]; f_equal;
    rewrite (Z.compare_antisym e1 e2), (Pos.compare_antisym m1 m2);
    by destruct (e1 ?= e2)%Z, (m1 ?= m2)%positive.
Qed.

Lemma SFcompare_total x y :
  x <> S754_nan -> y <> S754_nan -> is_Some (SFcompare x y).
Proof.
  destruct x as [[]|[]| |[] m1 e1], y as [[]|[]| |[] m2 e2]; simpl; try done; eauto.
Qed.

Lemma SFcompare_refl x : x <> S754_nan -> SFcompare x x = Some Eq.
Proof.
  destruct x as [[]|[]| |[] m e]; try done;
    rewrite ?SFcompare_finite_pos, ?SFcompare_finite_neg;
    intros _; by rewrite Z.compare_refl, Pos.compare_refl.
Qed.

Lemma is_nan_false a : is_nan a = false <-> Prim2SF a <> S754_nan.
Proof.
  unfold is_nan. rewrite FloatAxioms.eqb_spec. unfold SFeqb. split.
  - intros H Hn. rewrite Hn in H. done.
  - intros H. by rewrite (SFcompare_refl _ H).
Qed.

Lemma ltb_leb a b : (a <? b)%float = true -> (a <=? b)%float = true.
Proof. rewrite FloatAxioms.ltb_spec, FloatAxioms.leb_spec. apply SFltb_leb. Qed.

Lemma leb_trans a b c :
  (a <=? b)%float = true -> (b <=? c)%float = true -> (a <=? c)%float = true.
Proof. rewrite !FloatAxioms.leb_spec. apply SFleb_trans. Qed.

Lemma leb_refl a : is_nan a = false -> (a <=? a)%float = true.
Proof.
  rewrite is_nan_false, FloatAxioms.leb_spec. unfold SFleb. intros H.
  by rewrite (SFcompare_refl _ H).
Qed.

(** Among numbers the order is total. *)
Lemma not_ltb_leb a b :
  is_nan a = false -> is_nan b = false ->
  (a <? b)%float = false -> (b <=? a)%float = true.
Proof.
  rewrite !is_nan_false, FloatAxioms.ltb_spec, FloatAxioms.leb_spec. unfold SFltb, SFleb.
  intros Ha Hb. destruct (SFcompare_total _ _ Ha Hb) as [o Ho].
  rewrite Ho, (SFcompare_antisym _ _ _ Ho). by destruct o.
Qed.

Lemma not_leb_ltb a b :
  is_nan a = false -> is_nan b = false ->
  (a <=? b)%float = false -> (b <? a)%float = true.
Proof.
  rewrite !is_nan_false, FloatAxioms.ltb_spec, FloatAxioms.leb_spec. unfold SFltb, SFleb.
  intros Ha Hb. destruct (SFcompare_total _ _ Ha Hb) as [o Ho].
  rewrite Ho, (SFcompare_antisym _ _ _ Ho). by destruct o.
Qed.

Lemma ltb_not_leb a b : (a <? b)%float = true -> (b <=? a)%float = false.
Proof.
  rewrite FloatAxioms.ltb_spec, FloatAxioms.leb_spec. unfold SFltb, SFleb.
  destruct (SFcompare (Prim2SF a) (Prim2SF b)) as [o|] eqn:Ho; [|done].
  rewrite (SFcompare_antisym _ _ _ Ho). by destruct o.
Qed.

Lemma leb_antisym_eqb a b :
  (a <=? b)%float = true -> (b <=? a)%float = true -> (a =? b)%float = true.
Proof.
  rewrite !FloatAxioms.leb_spec, FloatAxioms.eqb_spec. unfold SFleb, SFeqb.
  destruct (SFcompare (Prim2SF a) (Prim2SF b)) as [o|] eqn:Ho; [|done].
  rewrite (SFcompare_antisym _ _ _ Ho). by destruct o.
Qed.

Lemma eqb_leb a b : (a =? b)%float = true -> (a <=? b)%float = true.
Proof.
  rewrite FloatAxioms.eqb_spec, FloatAxioms.leb_spec. unfold SFeqb, SFleb.
  by destruct (SFcompare (Prim2SF a) (Prim2SF b)) as [[]|].
Qed.

Lemma SFcompare_Eq x y :
  SFcompare x y = Some Eq ->
  x = y \/ exists s s', x = S754_zero s /\ y = S754_zero s'.
Proof.
  destruct x as [sx|[]| |[] m1 e1], y as [sy|[]| |[] m2 e2];
    try (simpl; done); try (simpl; by left); try (right; by eauto);
    rewrite ?SFcompare_finite_pos, ?SFcompare_finite_neg;
    destruct (Z.compare_spec e1 e2) as [->| |]; simpl; try done;
    destruct (Pos.compare_spec m1 m2) as [->| |]; simpl; try done;
    by left.
Qed.

(** Two floats that compare equal are the same float, unless they are
    the two zeros. *)
Lemma eqb_eq a b :
  (a =? b)%float = true -> (b =? 0)%float = false -> a = b.
Proof.
  rewrite !FloatAxioms.eqb_spec. unfold SFeqb. intros H Hz.
  destruct (SFcompare (Prim2SF a) (Prim2SF b)) as [[]|] eqn:Ho; try done.
  destruct (SFcompare_Eq _ _ Ho) as [Heq|(s & s' & Ha & Hb)].
  - by apply Prim2SF_inj.
  - rewrite Hb in Hz. by destruct s'.
Qed.

(** A comparison that holds has numbers on both sides. *)
Lemma leb_not_nan a b :
  (a <=? b)%float = true -> is_nan a = false /\ is_nan b = false.
Proof.
  rewrite !is_nan_false, FloatAxioms.leb_spec. unfold SFleb.
  destruct (Prim2SF a) as [| | |], (Prim2SF b) as [| | |]; simpl; done.
Qed.

End FloatOrder.

(** ** Rounding gives a number

    Sums and products of numbers are NaN only in the cases IEEE 754 names
    (infinity minus infinity, zero times infinity); rounding itself never
    produces one. *)

Section Rounding.

Lemma shr_1_nonneg (mrs : shr_record) : (0 <= shr_m mrs)%Z -> (0 <= shr_m (shr_1 mrs))%Z.
Proof. destruct mrs as [[|[p|p|]|p] r s]; simpl; lia. Qed.

Lemma iter_shr_1_nonneg (p : positive) : forall mrs : shr_record,
  (0 <= shr_m mrs)%Z -> (0 <= shr_m (SpecFloat.iter_pos shr_1 p mrs))%Z.
Proof.
  induction p as [p IH|p IH|]; intros mrs H; simpl.
  - apply IH, IH. by apply shr_1_nonneg.
  - by apply IH, IH.
  - by apply shr_1_nonneg.
Qed.

Lemma shr_fexp_nonneg (m e : Z) (l : location) :
  (0 <= m)%Z -> (0 <= shr_m (shr_fexp prec emax m e l).1)%Z.
Proof.
  intros H. unfold shr_fexp, shr.
  assert (H0 : (0 <= shr_m (shr_record_of_loc m l))%Z)
    by (by destruct l as [|[]]).
  destruct (fexp prec emax (Zdigits2 m + e) - e)%Z; simpl; try done.
  by apply iter_shr_1_nonneg.
Qed.

Lemma round_nearest_even_nonneg (m : Z) (l : location) :
  (0 <= m)%Z -> (0 <= round_nearest_even m l)%Z.
Proof.
  intros H. unfold round_nearest_even.
  destruct l as [|[]]; try lia. destruct (Z.even m); lia.
Qed.

(** Rounding a non-negative mantissa gives a number. *)
Lemma binary_round_aux_number (sx : bool) (m e : Z) (l : location) :
  (0 <= m)%Z -> binary_round_aux prec emax sx m e l <> S754_nan.
Proof.
  intros H. unfold binary_round_aux.
  pose proof (shr_fexp_nonneg m e l H) as H1.
  destruct (shr_fexp prec emax m e l) as [mrs' e']. simpl in H1.
  pose proof (shr_fexp_nonneg _ e' loc_Exact
                (round_nearest_even_nonneg _ (loc_of_shr_record mrs') H1)) as H2.
  destruct (shr_fexp prec emax _ e' loc_Exact) as [mrs'' e'']. simpl in H2.
  destruct (shr_m mrs'') as [|p|p]; [done| |lia].
  by destruct (_ <=? _)%Z.
Qed.

Lemma binary_round_number (sx : bool) (m : positive) (e : Z) :
  binary_round prec emax sx m e <> S754_nan.
Proof.
  unfold binary_round. destruct (shl_align _ _ _) as [mz ez].
  by apply binary_round_aux_number.
Qed.

Lemma binary_normalize_number (m e : Z) (sz : bool) :
  binary_normalize prec emax m e sz <> S754_nan.
Proof. destruct m; simpl; [done|apply binary_round_number..]. Qed.

(** The product of a number with a finite number that is not zero is a
    number. *)
Lemma SFmul_number (x : spec_float) (s : bool) (m : positive) (e : Z) :
  x <> S754_nan -> SF64mul x (S754_finite s m e) <> S754_nan.
Proof.
  intros H. destruct x as [sx|sx| |sx mx ex]; simpl; try done.
  by apply binary_round_aux_number.
Qed.

(** The sum of a finite number and a number is a number. *)
Lemma SFadd_number (s : bool) (m : positive) (e : Z) (y : spec_float) :
  y <> S754_nan -> SF64add (S754_finite s m e) y <> S754_nan.
Proof.
  intros H. destruct y as [sy|sy| |sy my ey]; simpl; try done.
  apply binary_normalize_number.
Qed.


End Rounding.

(** ** Guards on indices *)

Section IndexGuards.

Context {A : Type}.
Implicit Types (l : list A) (i : Z).

Lemma index_ok_true l i :
  index_ok i l = true <-> 0 <= i < Z.of_nat (length l).
Proof. unfold index_ok. by rewrite bool_decide_eq_true. Qed.

Lemma index_ok_false l i :
  index_ok i l = false <-> ~ (0 <= i < Z.of_nat (length l)).
Proof. unfold index_ok. by rewrite bool_decide_eq_false. Qed.

Lemma py_getitem_in_range l i x :
  0 <= i -> l !! Z.to_nat i = Some x -> py_getitem l i = Ok x.
Proof.
  intros Hi Hx. unfold py_getitem, py_norm.
  destruct (decide (i < 0)) as [|_]; [lia|].
  destruct (decide (0 <= i)) as [_|]; [|lia].
  by rewrite Hx.
Qed.

Lemma py_setitem_in_range l i x :
  index_ok i l = true -> py_setitem l i x = Ok (<[Z.to_nat i := x]> l).
Proof.
  intros H%index_ok_true. unfold py_setitem, py_norm.
  destruct (decide (i < 0)) as [|_]; [lia|].
  by destruct (decide _) as [_|].
Qed.

Lemma py_delitem_in_range l i :
  index_ok i l = true -> py_delitem l i = Ok (delete (Z.to_nat i) l).
Proof.
  intros H%index_ok_true. unfold py_delitem, py_norm.
  destruct (decide (i < 0)) as [|_]; [lia|].
  by destruct (decide _) as [_|].
Qed.

Lemma index_ok_insert l i j x :
  index_ok i (<[j := x]> l) = index_ok i l.
Proof. unfold index_ok. by rewrite length_insert. Qed.

Lemma index_ok_lookup l i :
  index_ok i l = true -> exists x, l !! Z.to_nat i = Some x.
Proof.
  intros H%index_ok_true.
  destruct (lookup_lt_is_Some_2 l (Z.to_nat i)) as [x Hx]; [lia|]. eauto.
Qed.

Lemma lookup_index_ok l i x :
  0 <= i -> l !! Z.to_nat i = Some x -> index_ok i l = true.
Proof.
  intros Hi Hx. apply index_ok_true. apply lookup_lt_Some in Hx. lia.
Qed.

End IndexGuards.

(** ** The wallet core, one account at a time *)

Section CoreEquations.

Implicit Types (s : Accounts) (i : Z) (a : Account).

Lemma load_eq s i a :
  0 <= i -> s !! Z.to_nat i = Some a -> load i s = (Ok a, s).
Proof. intros. unfold load. by erewrite py_getitem_in_range. Qed.

Lemma store_eq s i a :
  index_ok i s = true -> store i a s = (Ok tt, <[Z.to_nat i := a]> s).
Proof. intros. unfold store. by rewrite py_setitem_in_range. Qed.

Lemma get_account_eq s i a :
  0 <= i -> s !! Z.to_nat i = Some a -> get_account i s = (Ok (Some a), s).
Proof.
  intros Hi Ha. unfold get_account, bind, get, ret.
  rewrite (lookup_index_ok _ _ _ Hi Ha). by rewrite (load_eq _ _ _ Hi Ha).
Qed.

Lemma get_balance_eq s i a :
  0 <= i -> s !! Z.to_nat i = Some a -> get_balance i s = (Ok (balance a), s).
Proof.
  intros Hi Ha. unfold get_balance, bind, get, ret.
  rewrite (lookup_index_ok _ _ _ Hi Ha). by rewrite (load_eq _ _ _ Hi Ha).
Qed.

Lemma get_transactions_eq s i a :
  0 <= i -> s !! Z.to_nat i = Some a ->
  get_transactions i None None s = (Ok (transactions a), s).
Proof.
  intros Hi Ha. unfold get_transactions, bind, get, ret.
  rewrite (lookup_index_ok _ _ _ Hi Ha). by rewrite (load_eq _ _ _ Hi Ha).
Qed.

Lemma add_transaction_eq s i a tx now :
  0 <= i -> s !! Z.to_nat i = Some a ->
  add_transaction i tx now s = (Ok true, <[Z.to_nat i := record_in now tx a]> s).
Proof.
  intros Hi Ha. pose proof (lookup_index_ok _ _ _ Hi Ha) as Hok.
  assert (Hlt : (Z.to_nat i < length s)%nat) by (by eapply lookup_lt_Some).
  unfold add_transaction, bind, get, ret. rewrite Hok.
  rewrite (load_eq _ _ _ Hi Ha), (store_eq _ _ _ Hok).
  fold (stamp now tx). unfold record_in, credit.
  set (a1 := set_transactions _ a).
  assert (Ha1 : <[Z.to_nat i := a1]> s !! Z.to_nat i = Some a1)
    by (by apply list_lookup_insert_eq).
  assert (Hok1 : index_ok i (<[Z.to_nat i := a1]> s) = true)
    by (by rewrite index_ok_insert).
  destruct (bool_decide (tx_type (stamp now tx) = "Sent")).
  - rewrite (load_eq _ _ _ Hi Ha1), (store_eq _ _ _ Hok1), list_insert_insert_eq.
    done.
  - destruct (bool_decide (tx_type (stamp now tx) = "Received")).
    + rewrite (load_eq _ _ _ Hi Ha1), (store_eq _ _ _ Hok1), list_insert_insert_eq.
      done.
    + by destruct a.
Qed.

End CoreEquations.

(** ** Index-based interface *)

Section IndexInterface.

Variables (accounts : Accounts) (index : Z).

Lemma out_of_range_reads :
  index_ok index accounts = false ->
  get_account index accounts = (Ok None, accounts) /\
  get_balance index accounts = (Ok 0%float, accounts) /\
  (forall limit filter_type,
     get_transactions index limit filter_type accounts = (Ok [], accounts)) /\
  get_contacts index accounts = (Ok [], accounts).
Proof.
  intros H.
  unfold get_account, get_balance, get_transactions, get_contacts, bind, get, ret.
  by rewrite H.
Qed.

Lemma out_of_range_writes :
  index_ok index accounts = false ->
  (forall updates, update_account index updates accounts = (Ok false, accounts)) /\
  delete_account index accounts = (Ok false, accounts) /\
  (forall tx now, add_transaction index tx now accounts = (Ok false, accounts)) /\
  (forall contact, add_contact index contact accounts = (Ok false, accounts)) /\
  (forall contact_index,
     remove_contact index contact_index accounts = (Ok false, accounts)).
Proof.
  intros H.
  unfold update_account, delete_account, add_transaction, add_contact,
    remove_contact, bind, get, ret.
  by rewrite H.
Qed.

Lemma reads_never_raise :
  is_ok (get_account index accounts).1 = true /\
  is_ok (get_balance index accounts).1 = true /\
  (forall limit filter_type,
     is_ok (get_transactions index limit filter_type accounts).1 = true) /\
  is_ok (get_contacts index accounts).1 = true.
Proof.
  destruct (index_ok index accounts) eqn:Hok.
  - destruct (index_ok_lookup _ _ Hok) as [a Ha].
    apply index_ok_true in Hok as [Hi _].
    rewrite (get_account_eq _ _ _ Hi Ha), (get_balance_eq _ _ _ Hi Ha).
    repeat split; try done.
    + intros limit filter_type.
      unfold get_transactions, bind, get, ret.
      rewrite (lookup_index_ok _ _ _ Hi Ha), (load_eq _ _ _ Hi Ha). done.
    + unfold get_contacts, bind, get, ret.
      rewrite (lookup_index_ok _ _ _ Hi Ha), (load_eq _ _ _ Hi Ha). done.
  - destruct (out_of_range_reads Hok) as (-> & -> & Ht & ->).
    repeat split; try done. intros. by rewrite Ht.
Qed.

Lemma writes_never_raise :
  (forall updates, is_ok (update_account index updates accounts).1 = true) /\
  is_ok (delete_account index accounts).1 = true /\
  (forall tx now, is_ok (add_transaction index tx now accounts).1 = true) /\
  (forall contact, is_ok (add_contact index contact accounts).1 = true) /\
  (forall contact_index,
     is_ok (remove_contact index contact_index accounts).1 = true).
Proof.
  destruct (index_ok index accounts) eqn:Hok.
  - destruct (index_ok_lookup _ _ Hok) as [a Ha].
    pose proof Hok as [Hi _]%index_ok_true.
    repeat split.
    + intros updates. unfold update_account, bind, get, ret.
      by rewrite Hok, (load_eq _ _ _ Hi Ha), (store_eq _ _ _ Hok).
    + unfold delete_account, bind, get, ret.
      by rewrite Hok, (py_delitem_in_range _ _ Hok).
    + intros tx now. by rewrite (add_transaction_eq _ _ _ _ _ Hi Ha).
    + intros contact. unfold add_contact, bind, get, ret. rewrite Hok.
      destruct (negb _); [done|].
      by rewrite (load_eq _ _ _ Hi Ha), (store_eq _ _ _ Hok).
    + intros contact_index. unfold remove_contact, bind, get, ret, lift.
      rewrite Hok, (load_eq _ _ _ Hi Ha).
      destruct (index_ok contact_index (contacts a)) eqn:Hc; [|done].
      by rewrite (py_delitem_in_range _ _ Hc), (store_eq _ _ _ Hok).
  - destruct (out_of_range_writes Hok) as (Hu & -> & Ht & Hc & Hr).
    repeat split; try done; intros.
    + by rewrite Hu.
    + by rewrite Ht.
    + by rewrite Hc.
    + by rewrite Hr.
Qed.

End IndexInterface.

(** C10.  Every index-based accessor and mutator of the wallet core is
    total over the integers.  For an index outside [0, len(accounts)),
    [get_account] returns [None], [get_balance] returns [0.0],
    [get_transactions] and [get_contacts] return the empty list, and
    [update_account], [delete_account], [add_transaction], [add_contact]
    and [remove_contact] return [False] with the account list as it was;
    and for no index at all does any of them raise. *)
Theorem index_interface_total (accounts : Accounts) (index : Z) :
  (~ (0 <= index < Z.of_nat (length accounts)) ->
     get_account index accounts = (Ok None, accounts) /\
     get_balance index accounts = (Ok 0%float, accounts) /\
     (forall limit filter_type,
        get_transactions index limit filter_type accounts = (Ok [], accounts)) /\
     get_contacts index accounts = (Ok [], accounts) /\
     (forall updates,
        update_account index updates accounts = (Ok false, accounts)) /\
     delete_account index accounts = (Ok false, accounts) /\
     (forall tx now,
        add_transaction index tx now accounts = (Ok false, accounts)) /\
     (forall contact, add_contact index contact accounts = (Ok false, accounts)) /\
     (forall contact_index,
        remove_contact index contact_index accounts = (Ok false, accounts)))
  /\
  (is_ok (get_account index accounts).1 = true /\
   is_ok (get_balance index accounts).1 = true /\
   (forall limit filter_type,
      is_ok (get_transactions index limit filter_type accounts).1 = true) /\
   is_ok (get_contacts index accounts).1 = true /\
   (forall updates, is_ok (update_account index updates accounts).1 = true) /\
   is_ok (delete_account index accounts).1 = true /\
   (forall tx now, is_ok (add_transaction index tx now accounts).1 = true) /\
   (forall contact, is_ok (add_contact index contact accounts).1 = true) /\
   (forall contact_index,
      is_ok (remove_contact index contact_index accounts).1 = true)).
Proof.
  split.
  - intros H%index_ok_false.
    destruct (out_of_range_reads accounts index H) as (? & ? & ? & ?).
    destruct (out_of_range_writes accounts index H) as (? & ? & ? & ? & ?).
    repeat split; assumption.
  - destruct (reads_never_raise accounts index) as (? & ? & ? & ?).
    destruct (writes_never_raise accounts index) as (? & ? & ? & ? & ?).
    repeat split; assumption.
Qed.

Lemma index_interface_total_witness :
  get_account 7 [fresh_account] = (Ok None, [fresh_account]) /\
  delete_account (-1) [fresh_account] = (Ok false, [fresh_account]).
Proof.
  split.
  - apply (index_interface_total [fresh_account] 7). simpl. lia.
  - apply (index_interface_total [fresh_account] (-1)). simpl. lia.
Defined.

(** ** Balance and history *)

Section Ledger.

Import TransactionManager BlockchainIntegration.

Implicit Types (s : Accounts) (i : Z) (a : Account) (txs : list Transaction).

Lemma credit_set_status st tx b : credit (set_status st tx) b = credit tx b.
Proof. reflexivity. Qed.

Lemma history_sum_cons tx txs :
  history_sum (tx :: txs) = credit tx (history_sum txs).
Proof. reflexivity. Qed.

Lemma history_sum_insert txs j tx f :
  txs !! j = Some tx -> (forall b, credit (f tx) b = credit tx b) ->
  history_sum (<[j := f tx]> txs) = history_sum txs.
Proof.
  unfold history_sum. revert j.
  induction txs as [|t txs IH]; intros [|j] Hj Hf; simpl in *; try done.
  - injection Hj as ->. by rewrite Hf.
  - by rewrite (IH j).
Qed.

(** The loop of [_update_account_balance] applies the transactions in the
    order of the list, newest first, or stops at a sent transaction
    without a fee. *)
Lemma sum_transactions_spec txs acc b :
  sum_transactions txs acc = Ok b ->
  b = List.fold_left (fun b tx => credit tx b) txs acc.
Proof.
  revert acc. induction txs as [|tx txs IH]; intros acc H; simpl in H.
  - by injection H as <-.
  - change (b = List.fold_left (fun b tx => credit tx b) txs (credit tx acc)).
    unfold credit at 2, fee_or_zero.
    destruct (bool_decide (tx_type tx = "Received")) eqn:Hr.
    + apply bool_decide_eq_true in Hr.
      rewrite bool_decide_eq_false_2 by (rewrite Hr; discriminate).
      by apply IH.
    + destruct (bool_decide (tx_type tx = "Sent")).
      * destruct (tx_fee tx) as [fee|]; [|discriminate]. by apply IH.
      * by apply IH.
Qed.

Lemma find_tx_lookup id txs k j tx :
  find_tx id txs k = Some (j, tx) ->
  exists n, j = (k + n)%nat /\ txs !! n = Some tx /\
            tx_transaction_id tx = Some id.
Proof.
  revert k. induction txs as [|t txs IH]; intros k H; simpl in H; [done|].
  destruct (bool_decide (tx_transaction_id t = Some id)) eqn:Ht.
  - injection H as <- <-. apply bool_decide_eq_true in Ht.
    exists 0%nat. split; [lia|done].
  - destruct (IH _ H) as (n & -> & Hn & Hid).
    exists (S n). split; [lia|done].
Qed.

Lemma store_tx_eq s i a j tx :
  0 <= i -> s !! Z.to_nat i = Some a -> (j < length (transactions a))%nat ->
  store_tx i j tx s =
    (Ok tt, <[Z.to_nat i := set_transactions (<[j := tx]> (transactions a)) a]> s).
Proof.
  intros Hi Ha Hj. unfold store_tx, bind, lift.
  rewrite (load_eq _ _ _ Hi Ha).
  rewrite py_setitem_in_range by (apply index_ok_true; lia).
  rewrite Nat2Z.id. by rewrite store_eq by (by eapply lookup_index_ok).
Qed.

(** [update_transaction_status] on an account that exists. *)
Lemma update_transaction_status_eq s i a id status :
  0 <= i -> s !! Z.to_nat i = Some a ->
  update_transaction_status i id status s =
    match find_tx id (transactions a) 0 with
    | Some (j, tx) =>
        (Ok true,
         <[Z.to_nat i :=
             set_transactions (<[j := set_status status tx]> (transactions a)) a]> s)
    | None => (Ok false, s)
    end.
Proof.
  intros Hi Ha. unfold update_transaction_status. unfold bind at 1.
  rewrite (get_transactions_eq _ _ _ Hi Ha).
  destruct (find_tx id (transactions a) 0) as [[j tx]|] eqn:Hf; [|done].
  destruct (find_tx_lookup _ _ _ _ _ Hf) as (n & -> & Hn & _).
  unfold bind, ret. rewrite (store_tx_eq _ _ a); [done..|].
  simpl. by eapply lookup_lt_Some.
Qed.

Lemma update_account_balance_sum s i a b :
  0 <= i -> s !! Z.to_nat i = Some a ->
  sum_transactions (transactions a) 0%float = Ok b ->
  b = recomputed_sum (transactions a) /\
  _update_account_balance i s = (Ok tt, <[Z.to_nat i := set_balance b a]> s).
Proof.
  intros Hi Ha Hs. split; [by apply sum_transactions_spec|].
  unfold _update_account_balance. unfold bind at 1.
  rewrite (get_account_eq _ _ _ Hi Ha).
  unfold bind at 1. rewrite (get_transactions_eq _ _ _ Hi Ha).
  unfold bind at 1. unfold lift. rewrite Hs.
  unfold bind. rewrite (load_eq _ _ _ Hi Ha).
  by rewrite store_eq by (by eapply lookup_index_ok).
Qed.

Lemma record_in_balanced now tx a : balanced a -> balanced (record_in now tx a).
Proof. unfold balanced, record_in. simpl. by intros ->. Qed.

Lemma run_op_balanced i s a op :
  0 <= i -> s !! Z.to_nat i = Some a -> balanced a -> is_recompute op = false ->
  exists a', run_op i s op !! Z.to_nat i = Some a' /\ balanced a'.
Proof.
  intros Hi Ha Hb Hop.
  assert (Hlt : (Z.to_nat i < length s)%nat) by (by eapply lookup_lt_Some).
  destruct op as [tx now|id status|]; simpl; [| |done].
  - rewrite (add_transaction_eq _ _ _ _ _ Hi Ha). simpl.
    eexists. split; [by apply list_lookup_insert_eq|].
    by apply record_in_balanced.
  - rewrite (update_transaction_status_eq _ _ _ _ _ Hi Ha).
    destruct (find_tx id (transactions a) 0) as [[j tx]|] eqn:Hf; simpl; [|eauto].
    destruct (find_tx_lookup _ _ _ _ _ Hf) as (n & -> & Hn & _). simpl.
    eexists. split; [by apply list_lookup_insert_eq|].
    unfold balanced; simpl. rewrite Hb.
    symmetry. by apply (history_sum_insert _ _ _ (set_status status)).
Qed.

End Ledger.

Section LedgerClaims.

Import TransactionManager BlockchainIntegration.

Lemma run_ops_balanced ops : forall i s a,
  0 <= i -> s !! Z.to_nat i = Some a -> balanced a -> records_only ops ->
  exists a', run_ops i ops s !! Z.to_nat i = Some a' /\ balanced a'.
Proof.
  induction ops as [|op ops IH]; intros i s a Hi Ha Hb Hops; simpl.
  - eauto.
  - inversion Hops as [|? ? Hop Hrest]; subst.
    destruct (run_op_balanced i s a op Hi Ha Hb Hop) as (a1 & Ha1 & Hb1).
    exact (IH i _ a1 Hi Ha1 Hb1 Hrest).
Qed.

(** C1, as the code has it.  The balance is a running sum of floats that
    never looks at the status.  [add_transaction] applies the amount at
    once, Pending or not: it takes amount + fee off for a Sent transaction
    and adds the amount for a Received one.  [update_transaction_status]
    leaves the balance as it is.  So, starting from an account whose
    balance is the running sum over its history (a fresh account has
    balance 0.0 and no history), after any sequence of [add_transaction]
    and [update_transaction_status] calls the balance is still the running
    sum over the whole history, every status and every repeated id
    counted, added up in the order of recording.
    [_update_account_balance] replaces the balance by the sum of the same
    contributions, every status counted again, added up from 0.0 newest
    first; in floats the two sums need not agree. *)
Theorem balance_is_sum_of_whole_history
  (i : Z) (s : Accounts) (a : Account) (ops : list LedgerOp) :
  0 <= i -> s !! Z.to_nat i = Some a ->
  balance a = history_sum (transactions a) ->
  (records_only ops ->
   exists a', run_ops i ops s !! Z.to_nat i = Some a' /\
              balance a' = history_sum (transactions a')) /\
  (forall tx now,
     exists a', (add_transaction i tx now s).2 !! Z.to_nat i = Some a' /\
                balance a' = credit (stamp now tx) (balance a) /\
                transactions a' = stamp now tx :: transactions a) /\
  (forall tx status b, credit (set_status status tx) b = credit tx b) /\
  (forall id status,
     exists a', (update_transaction_status i id status s).2 !! Z.to_nat i = Some a' /\
                balance a' = balance a /\
                history_sum (transactions a') = history_sum (transactions a)) /\
  (forall b, sum_transactions (transactions a) 0%float = Ok b ->
     exists a', (_update_account_balance i s).2 !! Z.to_nat i = Some a' /\
                balance a' = recomputed_sum (transactions a) /\
                transactions a' = transactions a).
Proof.
  intros Hi Ha Hb.
  assert (Hlt : (Z.to_nat i < length s)%nat) by (by eapply lookup_lt_Some).
  split; [|split; [|split; [|split]]].
  - intros Hops. exact (run_ops_balanced ops i s a Hi Ha Hb Hops).
  - intros tx now. rewrite (add_transaction_eq _ _ _ _ _ Hi Ha). simpl.
    eexists. split; [by apply list_lookup_insert_eq|]. done.
  - reflexivity.
  - intros id status. rewrite (update_transaction_status_eq _ _ _ _ _ Hi Ha).
    destruct (find_tx id (transactions a) 0) as [[j tx]|] eqn:Hf; simpl; [|eauto].
    destruct (find_tx_lookup _ _ _ _ _ Hf) as (n & -> & Hn & _).
    eexists. split; [by apply list_lookup_insert_eq|]. split; [done|].
    by apply (history_sum_insert _ _ _ (set_status status)).
  - intros b Hs.
    destruct (update_account_balance_sum s i a b Hi Ha Hs) as [-> ->]. simpl.
    eexists. split; [by apply list_lookup_insert_eq|]. done.
Qed.

Lemma balance_is_sum_of_whole_history_witness :
  exists a', run_ops 0 [OpAdd pending_sent 1; OpStatus "at1" "Failed"]
               [fresh_account] !! Z.to_nat 0 = Some a' /\
             balance a' = history_sum (transactions a').
Proof.
  apply (balance_is_sum_of_whole_history 0 [fresh_account] fresh_account).
  - lia.
  - reflexivity.
  - reflexivity.
  - repeat constructor.
Defined.

(** C1 as stated fails: one Pending send recorded on a fresh account
    moves the balance to -10.001 while no transaction is Confirmed. *)
Lemma pending_send_changes_balance :
  confirmed_invariant [fresh_account] 0 /\
  ~ confirmed_invariant (run_ops 0 [OpAdd pending_sent 1] [fresh_account]) 0.
Proof.
  split.
  - intros a [= <-]. reflexivity.
  - intros H.
    specialize (H (record_in 1 pending_sent fresh_account) eq_refl).
    apply (f_equal (fun x => PrimFloat.eqb x 0)) in H.
    vm_compute in H. discriminate H.
Qed.

(** The two orders of summation differ in the last digit: after deposits
    of 0.1, 0.2 and 0.3 the balance is 0.6000000000000001, and
    [_update_account_balance] sets it to 0.6. *)
Example recomputed_balance_differs :
  exists a a',
    run_ops 0 three_deposits [fresh_account] = [a] /\
    balance a = history_sum (transactions a) /\
    balance a = 0.6000000000000001%float /\
    run_ops 0 [OpRecompute] [a] = [a'] /\
    balance a' = 0.6%float /\
    (balance a =? balance a')%float = false.
Proof.
  eexists _, _. split; [reflexivity|]. split; [reflexivity|].
  split; [reflexivity|]. split; [reflexivity|]. split; reflexivity.
Qed.

End LedgerClaims.

Section Ingestion.

Import TransactionManager BlockchainIntegration.

Lemma get_transaction_eq (s : Accounts) (i : Z) (a : Account) (id : string) :
  0 <= i -> s !! Z.to_nat i = Some a ->
  get_transaction i id s = (Ok (snd <$> find_tx id (transactions a) 0), s).
Proof.
  intros Hi Ha. unfold get_transaction, bind, ret.
  by rewrite (get_transactions_eq _ _ _ Hi Ha).
Qed.

(** C2, as the code has it.  Known ids are skipped by the chain-sync loop
    only: when [get_transaction] finds the id, [_sync_account]'s loop body
    leaves the wallet as it is.  [add_transaction] itself does not look at
    ids: every call puts the transaction in front of the history and
    applies its amount to the balance.  [update_transaction_status]
    overwrites the status of the first transaction carrying the id with
    the status it is given, whatever the old status was, leaves the
    balance as it is, and returns [False] without any change when the id
    is unknown. *)
Theorem ingestion_dedup_and_status_update (i : Z) (s : Accounts) (a : Account) :
  0 <= i -> s !! Z.to_nat i = Some a ->
  (forall chain now id tx,
     (get_transaction i id s).1 = Ok (Some tx) ->
     sync_one chain i now id s = (Ok tt, s)) /\
  (forall tx now,
     add_transaction i tx now s =
       (Ok true, <[Z.to_nat i := record_in now tx a]> s)) /\
  (forall id status j tx,
     find_tx id (transactions a) 0 = Some (j, tx) ->
     update_transaction_status i id status s =
       (Ok true,
        <[Z.to_nat i :=
            set_transactions (<[j := set_status status tx]> (transactions a)) a]> s) /\
     balance (set_transactions (<[j := set_status status tx]> (transactions a)) a)
       = balance a) /\
  (forall id status,
     find_tx id (transactions a) 0 = None ->
     update_transaction_status i id status s = (Ok false, s)).
Proof.
  intros Hi Ha. repeat split.
  - intros chain now id tx H. unfold sync_one, bind, ret.
    rewrite (get_transaction_eq _ _ _ _ Hi Ha) in H |- *. simpl in H.
    injection H as H. by rewrite H.
  - intros tx now. by apply add_transaction_eq.
  - rewrite (update_transaction_status_eq _ _ _ _ _ Hi Ha). by rewrite H.
  - intros id status H.
    rewrite (update_transaction_status_eq _ _ _ _ _ Hi Ha). by rewrite H.
Qed.

Lemma ingestion_dedup_and_status_update_witness :
  BlockchainIntegration.sync_one (fun _ => Ok None) 0 9 "at7"
    [record_in 1 confirmed_received fresh_account]
  = (Ok tt, [record_in 1 confirmed_received fresh_account]).
Proof.
  apply (ingestion_dedup_and_status_update 0
           [record_in 1 confirmed_received fresh_account]
           (record_in 1 confirmed_received fresh_account))
    with (tx := confirmed_received).
  - lia.
  - reflexivity.
  - reflexivity.
Defined.


(** C2 as stated fails twice over.  Recording the Confirmed transaction
    "at7" a second time, when [get_transaction] already finds it, moves
    the balance from 10 to 20; and [update_transaction_status] sets that
    Confirmed transaction back to Pending. *)
Lemma known_id_recorded_again_and_reverted :
  let s1 := (add_transaction 0 confirmed_received 1 [fresh_account]).2 in
  let s2 := (add_transaction 0 confirmed_received 1 s1).2 in
  let s3 := (update_transaction_status 0 "at7" "Pending" s1).2 in
  (get_transaction 0 "at7" s1).1 = Ok (Some confirmed_received) /\
  (exists b1 b2,
     (get_balance 0 s1).1 = Ok b1 /\ (get_balance 0 s2).1 = Ok b2 /\
     b1 = 10%float /\ b2 = 20%float /\ b1 <> b2) /\
  tx_status confirmed_received = "Confirmed" /\
  (get_transaction 0 "at7" s3).1 =
    Ok (Some (set_status "Pending" confirmed_received)).
Proof.
  repeat split.
  eexists _, _. split; [reflexivity|]. split; [reflexivity|].
  split; [reflexivity|]. split; [reflexivity|].
  intros H. apply (f_equal (fun x => PrimFloat.eqb x 10)) in H.
  vm_compute in H. discriminate H.
Qed.

End Ingestion.

(** ** Fees and transaction creation *)

Section Creation.

Import TransactionManager.

(** Python's [max] returns one of its arguments; between two numbers it
    returns the greater, whichever comes first. *)
Lemma py_max_cases (a b : float) : py_max a b = a \/ py_max a b = b.
Proof. unfold py_max. destruct (a <? b)%float; auto. Qed.

Lemma py_max_is_max (a b : float) :
  is_nan a = false -> is_nan b = false ->
  (a <=? py_max a b)%float = true /\ (b <=? py_max a b)%float = true.
Proof.
  intros Ha Hb. unfold py_max. destruct (a <? b)%float eqn:H.
  - split; [by apply ltb_leb|by apply leb_refl].
  - split; [by apply leb_refl|by apply not_ltb_leb].
Qed.

Lemma py_max_comm (a b : float) :
  is_nan a = false -> is_nan b = false ->
  (py_max a b =? py_max b a)%float = true.
Proof.
  intros Ha Hb.
  destruct (py_max_is_max a b Ha Hb) as [H1 H2].
  destruct (py_max_is_max b a Hb Ha) as [H3 H4].
  apply leb_antisym_eqb.
  - destruct (py_max_cases a b) as [-> | ->]; done.
  - destruct (py_max_cases b a) as [-> | ->]; done.
Qed.

(** The fee as the code computes it: the linear part, raised to the
    minimum.  For the empty memo the code adds nothing. *)
Lemma calculate_fee_py_max (cfg : FeeSettings) (amount : float) (memo : string) :
  calculate_fee cfg amount memo =
    py_max (if bool_decide (memo = "") then default_fee cfg
            else (default_fee cfg + len memo * fee_per_byte cfg)%float)
      (min_fee cfg).
Proof. reflexivity. Qed.

(** With the settings of [__init__] the linear part is a number for every
    memo, and for the empty memo it is the default fee itself. *)
Lemma init_settings_linear (memo : string) :
  let linear :=
    (default_fee init_settings + len memo * fee_per_byte init_settings)%float in
  is_nan linear = false /\ (memo = "" -> linear = default_fee init_settings).
Proof.
  split.
  - apply is_nan_false. cbn [default_fee fee_per_byte init_settings].
    rewrite FloatAxioms.add_spec, FloatAxioms.mul_spec. unfold len.
    rewrite FloatAxioms.of_uint63_spec.
    change (Prim2SF 0.001%float)
      with (S754_finite false 4611686018427388 (-62)).
    change (Prim2SF 0.00001%float)
      with (S754_finite false 5902958103587057 (-69)).
    apply SFadd_number, SFmul_number, binary_normalize_number.
  - intros ->. reflexivity.
Qed.

(** C7.  For every amount and memo the fee is
    max(min_fee, default_fee + len(memo) * fee_per_byte), the greater of
    the two numbers, in binary64 arithmetic.  With the settings of
    [__init__] this holds for every amount and every memo.  For other
    settings it holds whenever the two numbers are numbers (not NaN) and a
    memo of length 0 adds exactly nothing, the fee then being the maximum
    up to the sign of a zero. *)
Theorem calculate_fee_formula (cfg : FeeSettings) (amount : float) (memo : string) :
  let linear := (default_fee cfg + len memo * fee_per_byte cfg)%float in
  let fee := calculate_fee cfg amount memo in
  (cfg = init_settings ->
   fee = py_max (min_fee cfg) linear /\
   (min_fee cfg <=? fee)%float = true /\
   (linear <=? fee)%float = true /\
   (fee = min_fee cfg \/ fee = linear)) /\
  ((memo = "" -> linear = default_fee cfg) ->
   is_nan linear = false -> is_nan (min_fee cfg) = false ->
   fee = py_max linear (min_fee cfg) /\
   (fee =? py_max (min_fee cfg) linear)%float = true /\
   (min_fee cfg <=? fee)%float = true /\
   (linear <=? fee)%float = true /\
   (fee = min_fee cfg \/ fee = linear)).
Proof.
  intros linear fee.
  assert (Hgen : (memo = "" -> linear = default_fee cfg) ->
            is_nan linear = false -> is_nan (min_fee cfg) = false ->
            fee = py_max linear (min_fee cfg) /\
            (fee =? py_max (min_fee cfg) linear)%float = true /\
            (min_fee cfg <=? fee)%float = true /\
            (linear <=? fee)%float = true /\
            (fee = min_fee cfg \/ fee = linear)).
  { intros H0 Hl Hm.
    assert (Hfee : fee = py_max linear (min_fee cfg)).
    { unfold fee. rewrite calculate_fee_py_max.
      destruct (bool_decide (memo = "")) eqn:He; [|done].
      apply bool_decide_eq_true in He. by rewrite <- (H0 He). }
    rewrite Hfee.
    destruct (py_max_is_max linear (min_fee cfg) Hl Hm) as [H1 H2].
    split; [done|]. split; [by apply py_max_comm|].
    split; [done|]. split; [done|].
    destruct (py_max_cases linear (min_fee cfg)); auto. }
  split; [|exact Hgen].
  intros Hcfg. destruct (init_settings_linear memo) as [Hl H0].
  revert Hgen. unfold fee, linear. rewrite Hcfg. intros Hgen.
  destruct (Hgen H0 Hl eq_refl) as (_ & Heq & Hmin & Hlin & Hor).
  split; [|done].
  apply eqb_eq; [exact Heq|].
  destruct (py_max (min_fee init_settings) _ =? 0)%float eqn:Hz; [|done].
  assert (Hle : (min_fee init_settings <=? 0)%float = true).
  { eapply leb_trans; [|apply eqb_leb; exact Hz].
    eapply leb_trans; [exact Hmin|by apply eqb_leb]. }
  discriminate Hle.
Qed.

Lemma calculate_fee_formula_witness :
  (TransactionManager.calculate_fee TransactionManager.init_settings 10 "hello"
   = 0.00105)%float.
Proof.
  destruct (calculate_fee_formula TransactionManager.init_settings 10 "hello")
    as [H _].
  destruct (H eq_refl) as (-> & _). reflexivity.
Defined.

End Creation.

Section CreationChecks.

Import TransactionManager.

Variable float_str : float -> string.
Variables (cfg : FeeSettings) (i : Z) (recipient : string) (amount : float)
  (memo : string) (now : Z) (s : Accounts).

Local Abbreviation call :=
  (create_transaction float_str cfg i recipient amount memo now s).
Local Abbreviation fee := (calculate_fee cfg amount memo).

Lemma get_account_get_balance_none :
  index_ok i s = false ->
  get_account i s = (Ok None, s).
Proof. intros H. unfold get_account, bind, get, ret. by rewrite H. Qed.

Lemma create_transaction_unfold :
  call =
    if (amount <=? 0)%float then
      (Raise (ValueError "Amount must be greater than zero"), s)
    else if negb (validate_address recipient) then
      (Raise (ValueError "Invalid recipient address"), s)
    else if index_ok i s then
      match s !! Z.to_nat i with
      | Some a =>
          if (balance a <? amount + fee)%float then
            (Raise (insufficient_balance float_str (amount + fee)%float (balance a)), s)
          else
            (Ok (mkTransaction "Sent" (address a) recipient amount (Some fee)
                   memo (Some now) STATUS_PENDING (Some "") 0 None), s)
      | None => (Raise IndexError, s)
      end
    else (Raise (ValueError "Account not found"), s).
Proof.
  unfold create_transaction.
  destruct (amount <=? 0)%float; [done|].
  destruct (negb (validate_address recipient)); [done|].
  destruct (index_ok i s) eqn:Hok.
  - destruct (index_ok_lookup _ _ Hok) as [a Ha].
    apply index_ok_true in Hok as [Hi _]. rewrite Ha.
    unfold bind. rewrite (get_account_eq _ _ _ Hi Ha), (get_balance_eq _ _ _ Hi Ha).
    by destruct (_ <? _)%float.
  - unfold bind. by rewrite (get_account_get_balance_none Hok).
Qed.

Lemma create_transaction_pure : call.2 = s.
Proof.
  rewrite create_transaction_unfold.
  repeat (destruct (_ <=? _)%float || destruct (_ <? _)%float
          || destruct (negb _) || destruct (index_ok _ _)
          || destruct (s !! _)); done.
Qed.

End CreationChecks.




(** At a balance of 2^53 the fee of 0.001 is lost in the rounding of
    amount + fee: a send of the whole balance passes the balance check. *)
Example fee_absorbed_at_2_53 :
  let amount := 9007199254740992%float in
  (amount + TransactionManager.calculate_fee TransactionManager.init_settings
              amount "" =? amount)%float = true /\
  is_ok (TransactionManager.create_transaction toy_float_str
           TransactionManager.init_settings 0 addr_bob amount "" 5
           [account_2_53]).1 = true.
Proof. split; reflexivity. Qed.

(** ** The security gate *)

Section Gate.

Variable pbkdf2 : Z -> list byte -> string -> list byte.
Variable sha256 : list byte -> list byte.

Local Abbreviation verify := (verify_master_password pbkdf2 sha256).
Local Abbreviation wrong s p := (checks_as pbkdf2 sha256 s p false).

Lemma checks_as_same s s' p b :
  same_credentials s s' ->
  checks_as pbkdf2 sha256 s p b -> checks_as pbkdf2 sha256 s' p b.
Proof.
  intros (_ & _ & Hi & Hs & Hh) (salt & hash & ? & ? & ? & ? & Hm).
  exists salt, hash. repeat split; try congruence.
  unfold hashes_match, derive_key_from_password in *. by rewrite Hi.
Qed.

Lemma verify_unlocked s p now_lock now b :
  password_required s = true -> locked s = false ->
  checks_as pbkdf2 sha256 s p b ->
  verify p now_lock now s =
    if b then (true, set_success now s)
    else
      let failed := failed_attempts s + 1 in
      (false,
       if decide (failed >= failed_attempts_limit s)
       then set_locked_at now (set_failed_attempts failed s)
       else set_failed_attempts failed s).
Proof.
  intros Hr Hl (salt & hash & Hs & Hh & Hsn & Hhn & Hm).
  unfold verify_master_password. rewrite Hr, Hl, Hs, Hh. simpl.
  rewrite !bool_decide_eq_false_2 by done. simpl.
  rewrite Hm. by destruct b.
Qed.

(** While the lock is on and the hour has not passed, the password is
    not looked at. *)
Lemma verify_locked s p now_lock now t :
  password_required s = true -> locked s = true ->
  lockout_time s = Some t -> now_lock - t < 3600 ->
  verify p now_lock now s = (false, s).
Proof.
  intros Hr Hl Ht Hnow. unfold verify_master_password.
  rewrite Hr, Hl, Ht. simpl. by destruct (decide _).
Qed.

Lemma failed_run attempts : forall s,
  password_required s = true -> locked s = false ->
  attempts <> [] ->
  failed_attempts s + Z.of_nat (length attempts) = failed_attempts_limit s ->
  (forall p t0 t, In (p, t0, t) attempts -> wrong s p) ->
  let s' := verify_all pbkdf2 sha256 attempts s in
  locked s' = true /\ lockout_time s' = snd <$> last attempts /\
  failed_attempts s' = failed_attempts_limit s /\ same_credentials s s'.
Proof.
  induction attempts as [|[[p t0] t] rest IH]; intros s Hr Hl Hne Hlen Hw; [done|].
  simpl. rewrite (verify_unlocked s p t0 t false Hr Hl) by (eapply Hw; by left).
  simpl. destruct rest as [|q rest].
  - simpl in *. destruct (decide _) as [_|]; [|lia].
    simpl. repeat split; lia.
  - destruct (decide _) as [|_]; [simpl in *; lia|].
    set (s1 := set_failed_attempts _ s).
    assert (Hsame : same_credentials s s1) by done.
    assert (Hlen1 : failed_attempts s1 + Z.of_nat (length (q :: rest))
                    = failed_attempts_limit s1) by (simpl in *; lia).
    assert (Hw1 : forall p' t0' t', In (p', t0', t') (q :: rest) -> wrong s1 p').
    { intros p' t0' t' Hin. eapply checks_as_same; [exact Hsame|].
      eapply Hw. by right. }
    destruct (IH s1 Hr Hl ltac:(done) Hlen1 Hw1) as (H1 & H2 & H3 & H4).
    split; [exact H1|]. split; [exact H2|]. split; [exact H3|].
    destruct H4 as (? & ? & ? & ? & ?). repeat split; done.
Qed.

(** Wrong passwords below the limit count up and do not lock. *)
Lemma failed_prefix attempts : forall s,
  password_required s = true -> locked s = false ->
  failed_attempts s + Z.of_nat (length attempts) < failed_attempts_limit s ->
  (forall p t0 t, In (p, t0, t) attempts -> wrong s p) ->
  let s' := verify_all pbkdf2 sha256 attempts s in
  locked s' = false /\
  failed_attempts s' = failed_attempts s + Z.of_nat (length attempts) /\
  same_credentials s s'.
Proof.
  induction attempts as [|[[p t0] t] rest IH]; intros s Hr Hl Hlen Hw.
  - simpl. split; [done|]. split; [lia|]. done.
  - simpl. rewrite (verify_unlocked s p t0 t false Hr Hl) by (eapply Hw; by left).
    simpl. destruct (decide _) as [|_]; [simpl in *; lia|].
    set (s1 := set_failed_attempts _ s).
    assert (Hsame : same_credentials s s1) by done.
    assert (Hlen1 : failed_attempts s1 + Z.of_nat (length rest)
                    < failed_attempts_limit s1) by (simpl in *; lia).
    assert (Hw1 : forall p' t0' t', In (p', t0', t') rest -> wrong s1 p').
    { intros p' t0' t' Hin. eapply checks_as_same; [exact Hsame|].
      eapply Hw. by right. }
    destruct (IH s1 Hr Hl Hlen1 Hw1) as (H1 & H2 & H3).
    split; [exact H1|]. split; [simpl in *; lia|].
    destruct H3 as (? & ? & ? & ? & ?). repeat split; done.
Qed.

End Gate.

(** C8.  With password protection on, once the wrong passwords tried in
    a row on an unlocked gate bring the failed-attempt counter to
    [failed_attempts_limit] (5 by default, so five of them from a counter
    of 0), the gate is locked and the lock time is the time of the last
    of them.  From then on, as long as the clock at the lock check is
    less than 3600 seconds past the lock time, every verification returns
    [False] and leaves the settings as they are, whatever the password,
    the right one included.  On an unlocked gate the right password
    returns [True], sets [failed_attempts] to 0 and [last_access] to the
    time of the call, whatever the counter was: after any number of the
    wrong passwords short of the limit the counter has gone up by that
    number, and the right password then puts it back to 0. *)
Theorem lockout_after_failed_attempts
  (pbkdf2 : Z -> list byte -> string -> list byte)
  (sha256 : list byte -> list byte)
  (s : Settings) (attempts : list (string * Z * Z)) (t_lock : Z) :
  password_required s = true -> locked s = false ->
  failed_attempts s + Z.of_nat (length attempts) = failed_attempts_limit s ->
  snd <$> last attempts = Some t_lock ->
  (forall p t0 t, In (p, t0, t) attempts -> checks_as pbkdf2 sha256 s p false) ->
  let s' := verify_all pbkdf2 sha256 attempts s in
  failed_attempts_limit default_settings = 5 /\
  (locked s' = true /\ lockout_time s' = Some t_lock) /\
  (forall p now_lock now, now_lock - t_lock < 3600 ->
     verify_master_password pbkdf2 sha256 p now_lock now s' = (false, s')) /\
  (forall p now_lock now, checks_as pbkdf2 sha256 s p true ->
     exists s2,
       verify_master_password pbkdf2 sha256 p now_lock now s = (true, s2) /\
       failed_attempts s2 = 0 /\ last_access s2 = now) /\
  (forall pre post p now_lock now,
     attempts = (pre ++ post)%list -> post <> [] ->
     checks_as pbkdf2 sha256 s p true ->
     let s1 := verify_all pbkdf2 sha256 pre s in
     failed_attempts s1 = failed_attempts s + Z.of_nat (length pre) /\
     locked s1 = false /\
     exists s2,
       verify_master_password pbkdf2 sha256 p now_lock now s1 = (true, s2) /\
       failed_attempts s2 = 0 /\ last_access s2 = now /\
       locked s2 = false).
Proof.
  intros Hr Hl Hlen Hlast Hw s'.
  assert (Hne : attempts <> []) by (by intros ->).
  destruct (failed_run pbkdf2 sha256 attempts s Hr Hl Hne Hlen Hw)
    as (H1 & H2 & _ & H4).
  fold s' in H1, H2, H4. rewrite Hlast in H2.
  split; [reflexivity|]. split; [done|]. split; [|split].
  - intros p now_lock now Hnow. destruct H4 as (Hr' & _).
    apply (verify_locked pbkdf2 sha256 s' p now_lock now t_lock); congruence.
  - intros p now_lock now Hp.
    rewrite (verify_unlocked pbkdf2 sha256 s p now_lock now true Hr Hl Hp).
    eexists. split; [reflexivity|]. done.
  - intros pre post p now_lock now Happ Hpost Hp s1.
    assert (Hlt : failed_attempts s + Z.of_nat (length pre) < failed_attempts_limit s).
    { rewrite <- Hlen, Happ, length_app. destruct post; [done|]. simpl. lia. }
    assert (Hw1 : forall p t0 t, In (p, t0, t) pre ->
                    checks_as pbkdf2 sha256 s p false).
    { intros q t0 t Hin. apply (Hw q t0 t). rewrite Happ. apply in_or_app.
      by left. }
    destruct (failed_prefix pbkdf2 sha256 pre s Hr Hl Hlt Hw1) as (Hl1 & Hf1 & Hs1).
    fold s1 in Hl1, Hf1, Hs1.
    split; [lia|]. split; [done|].
    assert (Hr1 : password_required s1 = true)
      by (destruct Hs1 as (-> & _); done).
    rewrite (verify_unlocked pbkdf2 sha256 s1 p now_lock now true Hr1 Hl1
               (checks_as_same pbkdf2 sha256 _ _ _ _ Hs1 Hp)).
    eexists. split; [reflexivity|]. done.
Qed.

Lemma lockout_after_failed_attempts_witness :
  let s' := verify_all toy_pbkdf2 toy_sha256 five_guesses gate0 in
  locked s' = true /\ lockout_time s' = Some 50 /\
  verify_master_password toy_pbkdf2 toy_sha256 "hunter2" 3649 3650 s' = (false, s').
Proof.
  assert (Hw : forall p t0 t, In (p, t0, t) five_guesses ->
                 checks_as toy_pbkdf2 toy_sha256 gate0 p false).
  { intros p t0 t Hin. eexists _, _.
    split; [reflexivity|]. split; [reflexivity|].
    split; [discriminate|]. split; [discriminate|].
    simpl in Hin.
    destruct Hin as [[= <- <- <-]|[[= <- <- <-]|[[= <- <- <-]|[[= <- <- <-]|[[= <- <- <-]|[]]]]]];
      vm_compute; reflexivity. }
  destruct (lockout_after_failed_attempts toy_pbkdf2 toy_sha256 gate0
              five_guesses 50 eq_refl eq_refl eq_refl eq_refl Hw)
    as (_ & (H1 & H2) & H3 & _).
  split; [exact H1|]. split; [exact H2|]. apply H3. lia.
Defined.

(** The right password opens [gate0]; the model is not vacuous on it. *)
Example right_password_opens_gate :
  (verify_master_password toy_pbkdf2 toy_sha256 "hunter2" 7 7 gate0).1 = true.
Proof. vm_compute. reflexivity. Qed.

(** After three wrong passwords the counter of [gate0] stands at 3, and
    the right password puts it back to 0. *)
Example right_password_resets_counter :
  let s3 := verify_all toy_pbkdf2 toy_sha256
              [("a", 10, 10); ("b", 20, 20); ("c", 30, 30)] gate0 in
  failed_attempts s3 = 3 /\
  failed_attempts
    (verify_master_password toy_pbkdf2 toy_sha256 "hunter2" 40 40 s3).2 = 0.
Proof. vm_compute. split; reflexivity. Qed.

(** ** Connectivity probe *)

Section Probe.

Import BlockchainIntegration.

(** What [check_network_status] does with the outcome of the height
    query: an exception gives Disconnected and [False], an answer gives
    Connected and [True]. *)
Lemma check_network_status_outcome (height : result json) (s : NetState) :
  exists s',
    check_network_status height s = (Ok (is_ok height), s') /\
    is_connected s' = is_ok height.
Proof.
  unfold check_network_status, bind, get, ret, set_connected,
    _notify_network_status_change.
  destruct height as [j|e], s as [[] n]; simpl; eauto.
Qed.

(** A request that fails never reaches [check_network_status] as an
    exception: [_make_rpc_request] turns it into a dictionary with an
    "error" key and [get_latest_height] reads the default 0 from it. *)
Lemma failed_request_is_answered (msg : string) :
  AleoBlockchainAPI.get_latest_height (RequestException msg) = Ok (JInt 0).
Proof. reflexivity. Qed.

(** C9 on the code: with the repository's API client, a probe whose
    request fails returns [True] and leaves (or makes) the status
    Connected. *)
Theorem failed_probe_reports_connected (msg : string) (s : NetState) :
  exists s',
    probe (RequestException msg) s = (Ok true, s') /\ is_connected s' = true.
Proof.
  unfold probe. rewrite failed_request_is_answered.
  destruct (check_network_status_outcome (Ok (JInt 0)) s) as (s' & H1 & H2).
  eauto.
Qed.

Example failed_probe_while_connected :
  probe (RequestException "Connection refused") (mkNetState true [])
  = (Ok true, mkNetState true []).
Proof. reflexivity. Qed.

End Probe.

(** ** Encrypted vault *)

Section VaultRoundTrip.

Variable derive_key : string -> list byte -> list byte.
Variable Nonce : Type.
Variable fernet_encrypt : list byte -> Nonce -> list byte -> list byte.
Variable fernet_decrypt : list byte -> list byte -> result (list byte).
Variable json_dumps : Accounts -> list byte.
Variable json_loads : list byte -> result Accounts.

(** Derived keys are not empty (they are 44 base64 characters). *)
Hypothesis derive_key_nonempty : forall p salt, derive_key p salt <> [].
(** Fernet decrypts its own tokens. *)
Hypothesis fernet_correct : forall k r m, fernet_decrypt k (fernet_encrypt k r m) = Ok m.

Local Abbreviation encrypt_wallet' :=
  (encrypt_wallet derive_key Nonce fernet_encrypt json_dumps).
Local Abbreviation decrypt_wallet' :=
  (decrypt_wallet derive_key fernet_decrypt json_loads).

Lemma encrypt_wallet_file (password : string) (salt : list byte) (r : Nonce)
  (w : Wallet) :
  w_file (encrypt_wallet' password salt r w).2 =
    Some (salt ++ fernet_encrypt (derive_key password salt) r
                    (json_dumps (w_accounts w)))%list /\
  w_accounts (encrypt_wallet' password salt r w).2 = w_accounts w.
Proof.
  unfold encrypt_wallet, save_wallet, active_key. simpl.
  pose proof (derive_key_nonempty password salt) as Hne.
  destruct (derive_key password salt) as [|b k]; [done|]. done.
Qed.

Lemma decrypt_wallet_right_key (password : string) (salt token : list byte)
  (accounts : Accounts) (w' : Wallet) :
  length salt = 16%nat ->
  w_file w' = Some (salt ++ token)%list ->
  fernet_decrypt (derive_key password salt) token = Ok (json_dumps accounts) ->
  json_loads (json_dumps accounts) = Ok accounts ->
  decrypt_wallet' password w' =
    (true, mkWallet accounts true (Some (derive_key password salt)) (Some salt)
             (w_file w')).
Proof.
  intros Hlen Hfile Hdec Hjson. unfold decrypt_wallet. rewrite Hfile.
  rewrite take_app_length' by done. rewrite drop_app_length' by done.
  by rewrite Hdec, Hjson.
Qed.

Lemma decrypt_wallet_refused (password : string) (salt token : list byte)
  (w' : Wallet) :
  length salt = 16%nat ->
  w_file w' = Some (salt ++ token)%list ->
  (match fernet_decrypt (derive_key password salt) token with
   | Ok data => is_ok (json_loads data)
   | Raise _ => false
   end = false) ->
  decrypt_wallet' password w' = (false, w').
Proof.
  intros Hlen Hfile Hdec. unfold decrypt_wallet. rewrite Hfile.
  rewrite take_app_length' by done. rewrite drop_app_length' by done.
  destruct (fernet_decrypt _ _) as [data|e]; [|done].
  by destruct (json_loads data).
Qed.


End VaultRoundTrip.

Section ToyCipher.

Lemma strip_app (p m : list byte) : strip p (p ++ m) = Some m.
Proof.
  induction p as [|a p IH]; simpl; [done|].
  by destruct (decide (a = a)).
Qed.

Lemma toy_decrypt_correct k r m : toy_decrypt k (toy_encrypt k r m) = Ok m.
Proof. unfold toy_decrypt, toy_encrypt. by rewrite strip_app. Qed.

End ToyCipher.


(** ** Base64 round trip *)

Section Base64Facts.

Import Base64.

Lemma all_bytes_complete (b : byte) : In b all_bytes.
Proof.
  assert (H : existsb (Byte.eqb b) all_bytes = true)
    by (destruct b; vm_compute; reflexivity).
  apply existsb_exists in H as (x & Hin & Heq).
  apply Byte.byte_dec_bl in Heq. by subst.
Qed.

Lemma for_all_bytes_spec (P : byte -> bool) :
  for_all_bytes P = true -> forall b, P b = true.
Proof.
  unfold for_all_bytes. rewrite forallb_forall.
  intros H b. apply H, all_bytes_complete.
Qed.

Ltac by_enumeration1 :=
  let b := fresh in
  intros b; revert b; apply for_all_bytes_spec; vm_compute; reflexivity.

Lemma valid_idx1 x : valid6 (idx1 x) = true.
Proof. revert x. by_enumeration1. Qed.

Lemma valid_idx4 z : valid6 (idx4 z) = true.
Proof. revert z. by_enumeration1. Qed.

Lemma valid_tail1 x : valid6 (N.shiftl (N.land (Byte.to_N x) 3) 4) = true.
Proof. revert x. by_enumeration1. Qed.

Lemma valid_tail2 y : valid6 (N.shiftl (N.land (Byte.to_N y) 15) 2) = true.
Proof. revert y. by_enumeration1. Qed.

Lemma for_all_bytes2_spec (P : byte -> byte -> bool) :
  for_all_bytes (fun a => for_all_bytes (P a)) = true ->
  forall a b, P a b = true.
Proof.
  intros H a b.
  apply (for_all_bytes_spec (P a)).
  exact (for_all_bytes_spec (fun a => for_all_bytes (P a)) H a).
Qed.

Ltac by_enumeration2 P :=
  apply (for_all_bytes2_spec P); vm_compute; reflexivity.

Lemma valid_idx2 x y : valid6 (idx2 x y) = true.
Proof. revert x y. by_enumeration2 (fun x y => valid6 (idx2 x y)). Qed.

Lemma valid_idx3 y z : valid6 (idx3 y z) = true.
Proof. revert y z. by_enumeration2 (fun y z => valid6 (idx3 y z)). Qed.

Lemma out1_eq x y :
  byte_of_N (N.lor (N.shiftl (idx1 x) 2) (N.shiftr (idx2 x y) 4)) = x.
Proof.
  apply Byte.byte_dec_bl. revert x y.
  by_enumeration2 (fun x y =>
    Byte.eqb (byte_of_N (N.lor (N.shiftl (idx1 x) 2) (N.shiftr (idx2 x y) 4))) x).
Qed.

Lemma out1_tail_eq x :
  byte_of_N (N.lor (N.shiftl (idx1 x) 2)
               (N.shiftr (N.shiftl (N.land (Byte.to_N x) 3) 4) 4)) = x.
Proof.
  apply Byte.byte_dec_bl. revert x.
  apply (for_all_bytes_spec (fun x =>
    Byte.eqb (byte_of_N (N.lor (N.shiftl (idx1 x) 2)
               (N.shiftr (N.shiftl (N.land (Byte.to_N x) 3) 4) 4))) x)).
  vm_compute. reflexivity.
Qed.

Lemma out2_eq x y z :
  byte_of_N (N.lor (N.shiftl (N.land (idx2 x y) 15) 4) (N.shiftr (idx3 y z) 2)) = y.
Proof.
  assert (H : N.land (idx2 x y) 15 = N.shiftr (Byte.to_N y) 4).
  { apply N.eqb_eq. revert x y.
    by_enumeration2 (fun x y =>
      (N.land (idx2 x y) 15 =? N.shiftr (Byte.to_N y) 4)%N). }
  rewrite H. clear H. apply Byte.byte_dec_bl. revert y z.
  by_enumeration2 (fun y z =>
    Byte.eqb (byte_of_N (N.lor (N.shiftl (N.shiftr (Byte.to_N y) 4) 4)
                           (N.shiftr (idx3 y z) 2))) y).
Qed.

Lemma out2_tail_eq x y :
  byte_of_N (N.lor (N.shiftl (N.land (idx2 x y) 15) 4)
               (N.shiftr (N.shiftl (N.land (Byte.to_N y) 15) 2) 2)) = y.
Proof.
  apply Byte.byte_dec_bl. revert x y.
  by_enumeration2 (fun x y =>
    Byte.eqb (byte_of_N (N.lor (N.shiftl (N.land (idx2 x y) 15) 4)
               (N.shiftr (N.shiftl (N.land (Byte.to_N y) 15) 2) 2))) y).
Qed.

Lemma out3_eq y z :
  byte_of_N (N.lor (N.shiftl (N.land (idx3 y z) 3) 6) (idx4 z)) = z.
Proof.
  apply Byte.byte_dec_bl. revert y z.
  by_enumeration2 (fun y z =>
    Byte.eqb (byte_of_N (N.lor (N.shiftl (N.land (idx3 y z) 3) 6) (idx4 z))) z).
Qed.

(** One turn of the decoder loop on the character of a valid index. *)
Lemma a2b_loop_valid n rest q lc p out :
  valid6 n = true ->
  a2b_loop (String (b2a n) rest) q lc p out =
    match q with
    | O => a2b_loop rest 1 n 0 out
    | 1%nat =>
        a2b_loop rest 2 (N.land n 15) 0
          (byte_of_N (N.lor (N.shiftl lc 2) (N.shiftr n 4)) :: out)
    | 2%nat =>
        a2b_loop rest 3 (N.land n 3) 0
          (byte_of_N (N.lor (N.shiftl lc 4) (N.shiftr n 2)) :: out)
    | _ => a2b_loop rest 0 0 0 (byte_of_N (N.lor (N.shiftl lc 6) n) :: out)
    end.
Proof.
  unfold valid6. rewrite !andb_true_iff, negb_true_iff.
  intros [[[Hn%N.eqb_eq Heq] Hlt%N.ltb_lt] _].
  cbn [a2b_loop]. rewrite Heq, Hn.
  by rewrite (proj2 (N.leb_gt 64 n)) by done.
Qed.

Lemma append_cons c s t : String c s +:+ t = String c (s +:+ t).
Proof. reflexivity. Qed.

Lemma append_empty t : "" +:+ t = t.
Proof. reflexivity. Qed.

Lemma append_assoc (a b c : string) : (a +:+ b) +:+ c = a +:+ (b +:+ c).
Proof.
  induction a as [|ch a IH]; [done|].
  rewrite !append_cons. by rewrite IH.
Qed.

(** A full group of four characters gives back its three bytes. *)
Lemma a2b_loop_group x y z rest lc p out :
  a2b_loop (encode3 x y z +:+ rest) 0 lc p out
  = a2b_loop rest 0 0 0 (z :: y :: x :: out).
Proof.
  change (encode3 x y z) with
    (String (b2a (idx1 x)) (String (b2a (idx2 x y))
       (String (b2a (idx3 y z)) (String (b2a (idx4 z)) EmptyString)))).
  rewrite !append_cons, append_empty.
  rewrite (a2b_loop_valid _ _ _ _ _ _ (valid_idx1 x)).
  rewrite (a2b_loop_valid _ _ _ _ _ _ (valid_idx2 x y)).
  rewrite (a2b_loop_valid _ _ _ _ _ _ (valid_idx3 y z)).
  rewrite (a2b_loop_valid _ _ _ _ _ _ (valid_idx4 z)).
  by rewrite out1_eq, out2_eq, out3_eq.
Qed.

End Base64Facts.

Section Base64RoundTrip.

Import Base64.

(** Induction over byte strings three bytes at a time. *)
Lemma triple_ind (P : list byte -> Prop) :
  P [] -> (forall x, P [x]) -> (forall x y, P [x; y]) ->
  (forall x y z rest, P rest -> P (x :: y :: z :: rest)) ->
  forall data, P data.
Proof.
  intros H0 H1 H2 H3.
  assert (H : forall n data, (length data <= n)%nat -> P data).
  { induction n as [|n IH]; intros [|x [|y [|z rest]]] Hlen; simpl in Hlen;
      try done; try lia.
    apply H3, IH. lia. }
  intros data. by apply (H (length data)).
Qed.

Lemma a2b_loop_encode (data : list byte) : forall lc p out,
  a2b_loop (b64encode data +:+ "==") 0 lc p out = Ok (rev out ++ data)%list.
Proof.
  induction data as [|x|x y|x y z rest IH] using triple_ind; intros lc p out.
  - simpl. by rewrite app_nil_r.
  - change (b64encode [x]) with
      (String (b2a (idx1 x))
         (String (b2a (N.shiftl (N.land (Byte.to_N x) 3) 4)) "==")).
    rewrite !append_cons.
    rewrite (a2b_loop_valid _ _ _ _ _ _ (valid_idx1 x)).
    rewrite (a2b_loop_valid _ _ _ _ _ _ (valid_tail1 x)).
    rewrite out1_tail_eq. reflexivity.
  - change (b64encode [x; y]) with
      (String (b2a (idx1 x)) (String (b2a (idx2 x y))
         (String (b2a (N.shiftl (N.land (Byte.to_N y) 15) 2)) "="))).
    rewrite !append_cons.
    rewrite (a2b_loop_valid _ _ _ _ _ _ (valid_idx1 x)).
    rewrite (a2b_loop_valid _ _ _ _ _ _ (valid_idx2 x y)).
    rewrite (a2b_loop_valid _ _ _ _ _ _ (valid_tail2 y)).
    rewrite out1_eq, out2_tail_eq. simpl. by rewrite <- app_assoc.
  - change (b64encode (x :: y :: z :: rest)) with
      (encode3 x y z +:+ b64encode rest).
    rewrite append_assoc.
    rewrite a2b_loop_group, IH. simpl. by rewrite <- !app_assoc.
Qed.

Lemma is_ascii_cons_valid n s : valid6 n = true -> is_ascii (String (b2a n) s) = is_ascii s.
Proof.
  unfold valid6. rewrite !andb_true_iff. intros [_ H]. simpl. by rewrite H.
Qed.

Lemma is_ascii_encode (data : list byte) :
  is_ascii (b64encode data +:+ "==") = true.
Proof.
  induction data as [|x|x y|x y z rest IH] using triple_ind.
  - reflexivity.
  - change (b64encode [x]) with
      (String (b2a (idx1 x))
         (String (b2a (N.shiftl (N.land (Byte.to_N x) 3) 4)) "==")).
    rewrite !append_cons.
    by rewrite (is_ascii_cons_valid _ _ (valid_idx1 x)),
               (is_ascii_cons_valid _ _ (valid_tail1 x)).
  - change (b64encode [x; y]) with
      (String (b2a (idx1 x)) (String (b2a (idx2 x y))
         (String (b2a (N.shiftl (N.land (Byte.to_N y) 15) 2)) "="))).
    rewrite !append_cons.
    by rewrite (is_ascii_cons_valid _ _ (valid_idx1 x)),
               (is_ascii_cons_valid _ _ (valid_idx2 x y)),
               (is_ascii_cons_valid _ _ (valid_tail2 y)).
  - change (b64encode (x :: y :: z :: rest)) with
      (encode3 x y z +:+ b64encode rest).
    change (encode3 x y z) with
      (String (b2a (idx1 x)) (String (b2a (idx2 x y))
         (String (b2a (idx3 y z)) (String (b2a (idx4 z)) EmptyString)))).
    rewrite !append_cons, append_empty.
    by rewrite (is_ascii_cons_valid _ _ (valid_idx1 x)),
               (is_ascii_cons_valid _ _ (valid_idx2 x y)),
               (is_ascii_cons_valid _ _ (valid_idx3 y z)),
               (is_ascii_cons_valid _ _ (valid_idx4 z)).
Qed.

(** Decoding an encoding with two more pad characters gives the bytes
    back. *)
Lemma b64decode_encode_padded (data : list byte) :
  b64decode (b64encode data +:+ "==") = Ok data.
Proof.
  unfold b64decode, a2b_base64.
  by rewrite is_ascii_encode, a2b_loop_encode.
Qed.

Lemma length_b64encode (data : list byte) :
  (3 * String.length (b64encode data) <= 4 * length data + 8)%nat.
Proof.
  induction data as [|x|x y|x y z rest IH] using triple_ind;
    try (simpl; lia).
  change (b64encode (x :: y :: z :: rest)) with
    (encode3 x y z +:+ b64encode rest).
  change (encode3 x y z) with
    (String (b2a (idx1 x)) (String (b2a (idx2 x y))
       (String (b2a (idx3 y z)) (String (b2a (idx4 z)) EmptyString)))).
  rewrite !append_cons, append_empty. simpl in *. lia.
Qed.

Lemma substring_all (s : string) : forall n,
  (String.length s <= n)%nat -> String.substring 0 n s = s.
Proof.
  induction s as [|c s IH]; intros [|n] H; simpl in *; try done; try lia.
  f_equal. apply IH. lia.
Qed.

End Base64RoundTrip.

(** ** Key material *)

Section KeyMaterial.

Variable sha256 : list byte -> list byte.

Lemma str_take_encoded_seed (seed : list byte) :
  length seed = 32%nat ->
  str_take 52 (Base64.b64encode seed) = Base64.b64encode seed.
Proof.
  intros H. apply substring_all.
  pose proof (length_b64encode seed). lia.
Qed.

Lemma str_drop_prefix (s : string) : str_drop 12 ("APrivateKey1" +:+ s) = s.
Proof.
  unfold str_drop. rewrite !append_cons, append_empty. simpl.
  apply substring_all. lia.
Qed.

Lemma startswith_prefix (s : string) : startswith ("APrivateKey1" +:+ s) "APrivateKey1" = true.
Proof. unfold startswith. rewrite !append_cons, append_empty. simpl. by destruct s. Qed.

(** The import recovers the seed the key was generated from. *)
Lemma seed_of_generated_private_key (seed : list byte) :
  length seed = 32%nat ->
  seed_of_private_key sha256 (generated_private_key seed) = seed.
Proof.
  intros H. unfold seed_of_private_key, generated_private_key.
  rewrite str_drop_prefix, (str_take_encoded_seed _ H).
  by rewrite b64decode_encode_padded.
Qed.

End KeyMaterial.

Section ImportDeterminism.

Variable sha256 : list byte -> list byte.

Lemma import_eq (pk : string) (name : option string) (now : Z) (s : Accounts) :
  startswith pk "APrivateKey1" = true ->
  exists a,
    import_account_from_private_key sha256 pk name now s = (Ok a, (s ++ [a])%list) /\
    private_key a = pk /\
    view_key a = derive_view_key sha256 (seed_of_private_key sha256 pk) /\
    address a = derive_address sha256 (seed_of_private_key sha256 pk).
Proof.
  intros H. unfold import_account_from_private_key. rewrite H. simpl.
  unfold bind, get, put, ret. eexists. split; [reflexivity|]. done.
Qed.

Lemma import_rejects (pk : string) (name : option string) (now : Z) (s : Accounts) :
  startswith pk "APrivateKey1" = false ->
  import_account_from_private_key sha256 pk name now s =
    (Raise (ValueError "Invalid private key format. Must start with 'APrivateKey1'."), s).
Proof.
  intros H. unfold import_account_from_private_key. by rewrite H.
Qed.

Lemma generate_eq (name : option string) (seed : list byte) (now : Z) (s : Accounts) :
  exists a,
    generate_account sha256 name seed now s = (Ok a, (s ++ [a])%list) /\
    private_key a = generated_private_key seed /\
    view_key a = derive_view_key sha256 seed /\
    address a = derive_address sha256 seed.
Proof.
  unfold generate_account, bind, get, put, ret. eexists. split; [reflexivity|]. done.
Qed.

End ImportDeterminism.

(** C5.  Import is deterministic: for every private key, two imports,
    whatever the account names, the clock and the accounts already in the
    wallet, either both raise the same format error or both succeed with
    the same view key and the same address.  And for the private key that
    [generate_account] makes from a 32-byte seed, the imported view key and
    address are those of the generated account. *)
Theorem import_deterministic_and_matches_generate
  (sha256 : list byte -> list byte) :
  (forall pk name1 now1 s1 name2 now2 s2,
     match (import_account_from_private_key sha256 pk name1 now1 s1).1,
           (import_account_from_private_key sha256 pk name2 now2 s2).1 with
     | Ok a1, Ok a2 => view_key a1 = view_key a2 /\ address a1 = address a2
     | Raise e1, Raise e2 => e1 = e2
     | _, _ => False
     end) /\
  (forall seed name now s,
     length seed = 32%nat ->
     exists g,
       (generate_account sha256 name seed now s).1 = Ok g /\
       forall name' now' s',
       exists a,
         (import_account_from_private_key sha256 (private_key g) name' now' s').1
           = Ok a /\
         view_key a = view_key g /\ address a = address g).
Proof.
  split.
  - intros pk name1 now1 s1 name2 now2 s2.
    destruct (startswith pk "APrivateKey1") eqn:Hp.
    + destruct (import_eq sha256 pk name1 now1 s1 Hp) as (a1 & -> & _ & Hv1 & Ha1).
      destruct (import_eq sha256 pk name2 now2 s2 Hp) as (a2 & -> & _ & Hv2 & Ha2).
      simpl. split; congruence.
    + by rewrite !import_rejects.
  - intros seed name now s Hlen.
    destruct (generate_eq sha256 name seed now s) as (g & -> & Hpk & Hv & Ha).
    exists g. split; [done|]. intros name' now' s'.
    rewrite Hpk.
    destruct (import_eq sha256 (generated_private_key seed) name' now' s'
                (startswith_prefix _)) as (a & -> & _ & Hv' & Ha').
    exists a. split; [done|].
    rewrite (seed_of_generated_private_key sha256 seed Hlen) in Hv', Ha'.
    split; congruence.
Qed.

Lemma import_deterministic_and_matches_generate_witness :
  exists g,
    (generate_account toy_sha256 (Some "Main") seed32 100 []).1 = Ok g /\
    forall name' now' s',
    exists a,
      (import_account_from_private_key toy_sha256 (private_key g) name' now' s').1
        = Ok a /\
      view_key a = view_key g /\ address a = address g.
Proof.
  apply (import_deterministic_and_matches_generate toy_sha256).
  reflexivity.
Defined.

(** The generated key of [seed32] and the seed read back from it. *)
Example generated_key_of_seed32 :
  generated_private_key seed32
  = "APrivateKey1AAECAwQFBgcICQoLDA0OD/Dx8vP09fb3+Pn6+/z9/v8=" /\
  seed_of_private_key toy_sha256 (generated_private_key seed32) = seed32.
Proof. split; vm_compute; reflexivity. Qed.

(** ** Two sends from one account *)

(** ** The password behind the key *)

Section KeyBlock.

Variable sha256 : list byte -> list byte.
Variable kdf : list byte -> list byte -> list byte.

Lemma utf8_encode_app (s t : string) :
  utf8_encode (s +:+ t) = (utf8_encode s ++ utf8_encode t)%list.
Proof.
  induction s as [|c s IH]; [done|].
  rewrite append_cons. simpl. rewrite IH.
  by destruct (N_of_ascii c <? 128)%N.
Qed.

(** HMAC fills a short key up with zero bytes, so a zero byte at the end
    of the key is not seen. *)
Lemma hmac_key_block_nul (key : list byte) :
  (length key < 64)%nat ->
  hmac_key_block sha256 (key ++ [x00]) = hmac_key_block sha256 key.
Proof.
  intros H. unfold hmac_key_block.
  rewrite length_app. simpl.
  destruct (decide (64 < length key + 1)%nat) as [|_]; [lia|].
  destruct (decide (64 < length key)%nat) as [|_]; [lia|].
  rewrite length_app. simpl. rewrite <- app_assoc. f_equal.
  replace (64 - length key)%nat with (S (64 - (length key + 1))) by lia.
  reflexivity.
Qed.

(** A password and the same password with a NUL character after it
    derive the same key, whatever the salt. *)
Lemma nul_padded_password_same_key (password : string) (salt : list byte) :
  (length (utf8_encode password) < 64)%nat ->
  pbkdf2_derive_key sha256 kdf (password +:+ String Ascii.zero "") salt
  = pbkdf2_derive_key sha256 kdf password salt.
Proof.
  intros H. unfold pbkdf2_derive_key. rewrite utf8_encode_app.
  change (utf8_encode (String Ascii.zero "")) with [x00].
  by rewrite hmac_key_block_nul.
Qed.

End KeyBlock.



(** ** Sends without a lock *)

Section ConcurrentSends.

Import TransactionManager Sends SendsSpec.

Variable float_str : float -> string.
Variable cfg : FeeSettings.

(** A caller at [create_transaction] whose request the balance check
    turns down is refused and the accounts stay as they are. *)
Lemma step_refused (r : SendRequest) (s : Accounts) (a : Account) (now : Z) :
  0 <= req_account r -> s !! Z.to_nat (req_account r) = Some a ->
  (req_amount r <=? 0)%float = false -> validate_address (req_recipient r) = true ->
  (balance a <? cost cfg r)%float = true ->
  step float_str cfg now (Calling r) s = (refused float_str cfg r (balance a), s).
Proof.
  intros Hi Ha Hpos Hv Hb. unfold step.
  rewrite (create_transaction_unfold float_str cfg (req_account r)
             (req_recipient r) (req_amount r) (req_memo r) now s).
  rewrite Hpos, Hv, (lookup_index_ok _ _ _ Hi Ha), Ha. cbn [negb].
  unfold cost in Hb. by rewrite Hb.
Qed.

(** A whole call on an account that exists: it is refused at one of the
    checks and changes nothing, or it passes them and takes its cost from
    the balance. *)
Lemma whole_call_outcome (r : SendRequest) (s : Accounts) (a : Account)
  (c1 c2 c3 : Z) :
  0 <= req_account r -> s !! Z.to_nat (req_account r) = Some a ->
  let '(t, s') := whole_call float_str cfg c1 c2 c3 (Calling r) s in
  (succeeded t = false /\ s' = s) \/
  (succeeded t = true /\ (req_amount r <=? 0)%float = false /\
   validate_address (req_recipient r) = true /\
   (balance a <? cost cfg r)%float = false /\
   exists a', s' = <[Z.to_nat (req_account r) := a']> s /\
              balance a' = (balance a - cost cfg r)%float).
Proof.
  intros Hi Ha. unfold whole_call, step at 1.
  rewrite (create_transaction_unfold float_str cfg (req_account r)
             (req_recipient r) (req_amount r) (req_memo r) c1 s).
  destruct (req_amount r <=? 0)%float eqn:Hpos; [by left|].
  destruct (validate_address (req_recipient r)) eqn:Hv; simpl; [|by left].
  rewrite (lookup_index_ok _ _ _ Hi Ha), Ha.
  destruct (balance a <? _)%float eqn:Hb; [by left|].
  cbn [step req_account].
  unfold sign_transaction, bind. rewrite (get_account_eq _ _ _ Hi Ha).
  unfold ret. cbn [step req_account].
  unfold broadcast_transaction, bind.
  rewrite (add_transaction_eq _ _ _ _ _ Hi Ha). unfold ret.
  right. repeat split; try done.
  eexists. split; [reflexivity|]. reflexivity.
Qed.

Lemma run_one_after_the_other (c1 c2 c3 c4 c5 c6 : Z) t1 t2 s :
  run float_str cfg (one_after_the_other c1 c2 c3 c4 c5 c6) t1 t2 s =
    let '(t1', s1) := whole_call float_str cfg c1 c2 c3 t1 s in
    let '(t2', s2) := whole_call float_str cfg c4 c5 c6 t2 s1 in
    (t1', t2', s2).
Proof.
  unfold one_after_the_other, whole_call. simpl.
  destruct (step float_str cfg c1 t1 s) as [ta sa].
  destruct (step float_str cfg c2 ta sa) as [tb sb].
  destruct (step float_str cfg c3 tb sb) as [tc sc].
  destruct (step float_str cfg c4 t2 sc) as [td sd].
  destruct (step float_str cfg c5 td sd) as [te se].
  by destruct (step float_str cfg c6 te se) as [tf sf].
Qed.

Lemma whole_call_refused (r : SendRequest) (s : Accounts) (a : Account)
  (c1 c2 c3 : Z) :
  0 <= req_account r -> s !! Z.to_nat (req_account r) = Some a ->
  (req_amount r <=? 0)%float = false -> validate_address (req_recipient r) = true ->
  (balance a <? cost cfg r)%float = true ->
  whole_call float_str cfg c1 c2 c3 (Calling r) s
  = (refused float_str cfg r (balance a), s).
Proof.
  intros Hi Ha Hpos Hv Hb. unfold whole_call.
  by rewrite (step_refused r s a c1 Hi Ha Hpos Hv Hb).
Qed.

(** While each caller is still at its [create_transaction] or has been
    refused, and the balance check turns down each request, no schedule
    changes the accounts or lets a caller through. *)
Lemma run_all_refused (r1 r2 : SendRequest) (s : Accounts) (a : Account) :
  0 <= req_account r1 -> req_account r2 = req_account r1 ->
  s !! Z.to_nat (req_account r1) = Some a ->
  (req_amount r1 <=? 0)%float = false -> validate_address (req_recipient r1) = true ->
  (req_amount r2 <=? 0)%float = false -> validate_address (req_recipient r2) = true ->
  (balance a <? cost cfg r1)%float = true ->
  (balance a <? cost cfg r2)%float = true ->
  forall schedule t1 t2,
    t1 = Calling r1 \/ t1 = refused float_str cfg r1 (balance a) ->
    t2 = Calling r2 \/ t2 = refused float_str cfg r2 (balance a) ->
    exists t1' t2',
      run float_str cfg schedule t1 t2 s = (t1', t2', s) /\
      (t1' = Calling r1 \/ t1' = refused float_str cfg r1 (balance a)) /\
      (t2' = Calling r2 \/ t2' = refused float_str cfg r2 (balance a)).
Proof.
  intros Hi Heq Ha Hp1 Hv1 Hp2 Hv2 Hb1 Hb2.
  assert (Ha2 : s !! Z.to_nat (req_account r2) = Some a) by (by rewrite Heq).
  assert (Hi2 : 0 <= req_account r2) by (by rewrite Heq).
  induction schedule as [|[[] now] schedule IH]; intros t1 t2 H1 H2.
  - exists t1, t2. done.
  - cbn [run]. destruct H2 as [->| ->].
    + rewrite (step_refused r2 s a now Hi2 Ha2 Hp2 Hv2 Hb2).
      apply IH; [done|by right].
    + cbn [step refused]. apply IH; [done|by right].
  - cbn [run]. destruct H1 as [->| ->].
    + rewrite (step_refused r1 s a now Hi Ha Hp1 Hv1 Hb1).
      apply IH; [by right|done].
    + cbn [step refused]. apply IH; [by right|done].
Qed.

End ConcurrentSends.

(** C4, as the code has it.  [create_transaction] takes no lock and
    reserves nothing: it reads the stored balance and leaves the accounts
    as they are.  Two sends whose cost (amount + fee, as floats) the
    balance check turns down are both refused with the "Insufficient
    balance" error under every schedule, and the accounts stay as they
    are; for two sends of the whole balance this is the case when the fee
    is not lost in the rounding of amount + fee.  When one send returns
    before the other starts and has gone through, the second is checked
    against the balance the first has left, balance - cost, and is
    refused when that is below its cost.  Sends that interleave are not
    checked against each other. *)
Theorem sends_checked_without_lock (float_str : float -> string)
  (cfg : TransactionManager.FeeSettings) (s : Accounts) (a : Account)
  (r1 r2 : Sends.SendRequest) :
  0 <= Sends.req_account r1 -> Sends.req_account r2 = Sends.req_account r1 ->
  s !! Z.to_nat (Sends.req_account r1) = Some a ->
  (Sends.req_amount r1 <=? 0)%float = false ->
  validate_address (Sends.req_recipient r1) = true ->
  (Sends.req_amount r2 <=? 0)%float = false ->
  validate_address (Sends.req_recipient r2) = true ->
  (forall now,
     (TransactionManager.create_transaction float_str cfg (Sends.req_account r1)
        (Sends.req_recipient r1) (Sends.req_amount r1) (Sends.req_memo r1) now
        s).2 = s) /\
  ((balance a <? SendsSpec.cost cfg r1)%float = true ->
   (balance a <? SendsSpec.cost cfg r2)%float = true ->
   forall schedule t1 t2 s',
     Sends.run float_str cfg schedule (Sends.Calling r1) (Sends.Calling r2) s
       = (t1, t2, s') ->
     s' = s /\
     (Sends.finished t1 = true ->
      t1 = SendsSpec.refused float_str cfg r1 (balance a)) /\
     (Sends.finished t2 = true ->
      t2 = SendsSpec.refused float_str cfg r2 (balance a))) /\
  (forall c1 c2 c3 c4 c5 c6 t1 t2 s',
     Sends.run float_str cfg (Sends.one_after_the_other c1 c2 c3 c4 c5 c6)
       (Sends.Calling r1) (Sends.Calling r2) s = (t1, t2, s') ->
     Sends.succeeded t1 = true ->
     (balance a <? SendsSpec.cost cfg r1)%float = false /\
     ((balance a - SendsSpec.cost cfg r1 <? SendsSpec.cost cfg r2)%float = true ->
      t2 = SendsSpec.refused float_str cfg r2
             (balance a - SendsSpec.cost cfg r1)%float)).
Proof.
  intros Hi Heq Ha Hp1 Hv1 Hp2 Hv2.
  split; [intros now; apply create_transaction_pure|]. split.
  - intros Hb1 Hb2 schedule t1 t2 s' Hrun.
    destruct (run_all_refused float_str cfg r1 r2 s a Hi Heq Ha Hp1 Hv1 Hp2 Hv2
                Hb1 Hb2 schedule (Sends.Calling r1) (Sends.Calling r2)
                ltac:(by left) ltac:(by left)) as (t1' & t2' & Hr & H1 & H2).
    rewrite Hr in Hrun. injection Hrun as <- <- <-.
    split; [done|]. split.
    + destruct H1 as [->| ->]; [discriminate|done].
    + destruct H2 as [->| ->]; [discriminate|done].
  - intros c1 c2 c3 c4 c5 c6 t1 t2 s' Hrun Hok.
    rewrite run_one_after_the_other in Hrun.
    pose proof (whole_call_outcome float_str cfg r1 s a c1 c2 c3 Hi Ha) as H1.
    destruct (SendsSpec.whole_call float_str cfg c1 c2 c3 (Sends.Calling r1) s)
      as [t1' s1].
    destruct H1 as [[Hf _]|(_ & _ & _ & Hb1 & a' & -> & Hbal)].
    + destruct (SendsSpec.whole_call float_str cfg c4 c5 c6 (Sends.Calling r2) s1)
        as [t2' s2].
      injection Hrun as <- <- <-. congruence.
    + split; [exact Hb1|]. intros Hb2.
      assert (Ha' : <[Z.to_nat (Sends.req_account r1) := a']> s
                      !! Z.to_nat (Sends.req_account r2) = Some a').
      { rewrite Heq. apply list_lookup_insert_eq. by eapply lookup_lt_Some. }
      rewrite (whole_call_refused float_str cfg r2 _ a') in Hrun; try done.
      * rewrite Hbal in Hrun. by injection Hrun as <- <- <-.
      * by rewrite Heq.
      * by rewrite Hbal.
Qed.

Lemma sends_checked_without_lock_witness :
  (Sends.run toy_float_str TransactionManager.init_settings
     (Sends.one_after_the_other 5 6 7 8 9 10)
     (Sends.Calling send_all) (Sends.Calling send_all) [funded_account]).1.2
  = SendsSpec.refused toy_float_str TransactionManager.init_settings send_all 0.
Proof.
  destruct (Sends.run toy_float_str TransactionManager.init_settings
              (Sends.one_after_the_other 5 6 7 8 9 10) (Sends.Calling send_all)
              (Sends.Calling send_all) [funded_account])
    as [[t1 t2] s'] eqn:E.
  simpl.
  destruct (sends_checked_without_lock toy_float_str
              TransactionManager.init_settings
              [funded_account] funded_account send_all send_all
              ltac:(simpl; lia) eq_refl eq_refl eq_refl eq_refl eq_refl eq_refl)
    as (_ & _ & H).
  destruct (H 5 6 7 8 9 10 t1 t2 s' E) as [_ H2].
  - vm_compute in E. by injection E as <- _ _.
  - apply H2. reflexivity.
Defined.

(** C4 as stated fails.  On an account holding 10.001, two sends of 10
    (each 10.001 with its fee, the whole balance) whose
    [create_transaction] calls both run before either broadcast both
    succeed, and the balance ends at -10.001. *)
Lemma both_sends_pass_the_check :
  ~ SendsSpec.balance_checks_serialized toy_float_str
      TransactionManager.init_settings [funded_account] send_all send_all.
Proof.
  intros H.
  destruct (Sends.run toy_float_str TransactionManager.init_settings
              SendsSpec.creates_first
              (Sends.Calling send_all) (Sends.Calling send_all) [funded_account])
    as [[t1 t2] s'] eqn:E.
  specialize (H SendsSpec.creates_first t1 t2 s' funded_account E eq_refl).
  vm_compute in E. injection E as <- <- <-.
  specialize (H eq_refl eq_refl).
  vm_compute in H. discriminate H.
Qed.

Example both_sends_outcome :
  let '(t1, t2, s') :=
    Sends.run toy_float_str TransactionManager.init_settings
      SendsSpec.creates_first
      (Sends.Calling send_all) (Sends.Calling send_all) [funded_account] in
  t1 = Sends.Returned (Ok "at5") /\ t2 = Sends.Returned (Ok "at5") /\
  exists a, s' = [a] /\ balance a = (-10.001)%float /\
            length (transactions a) = 3%nat.
Proof.
  vm_compute. split; [reflexivity|]. split; [reflexivity|].
  eexists. split; [reflexivity|]. split; reflexivity.
Qed.

(** A send of the whole balance goes through where the fee is lost in
    the rounding: from a balance of 2^53 a send of 2^53 succeeds and
    leaves 0.0. *)
Example whole_balance_send_at_2_53 :
  let r := Sends.mkSend 0 addr_bob 9007199254740992%float "" in
  let '(t, s') :=
    SendsSpec.whole_call toy_float_str TransactionManager.init_settings 5 6 7
      (Sends.Calling r) [account_2_53] in
  t = Sends.Returned (Ok "at7") /\
  exists a, s' = [a] /\ balance a = 0%float.
Proof.
  vm_compute. split; [reflexivity|]. eexists. split; reflexivity.
Qed.

(** Two interleaved sends that each ask for the whole balance 2^53 both
    pass the check and both return an id; the balance ends at -2^53. *)
Example two_whole_balance_sends_at_2_53 :
  let r := Sends.mkSend 0 addr_bob 9007199254740992%float "" in
  let '(t1, t2, s') :=
    Sends.run toy_float_str TransactionManager.init_settings
      SendsSpec.creates_first (Sends.Calling r) (Sends.Calling r)
      [account_2_53] in
  Sends.req_amount r = balance account_2_53 /\
  Sends.succeeded t1 = true /\ Sends.succeeded t2 = true /\
  exists a, s' = [a] /\ balance a = (-9007199254740992)%float.
Proof.
  vm_compute. split; [reflexivity|]. split; [reflexivity|].
  split; [reflexivity|]. eexists. split; reflexivity.
Qed.

(** * Further properties of the wallet core *)

Section CoreFurther.

Implicit Types (s : Accounts) (i : Z) (a : Account).

Lemma filter_sublist_of {A} (f : A -> bool) (l : list A) :
  List.filter f l `sublist_of` l.
Proof.
  induction l as [|x l IH]; simpl; [constructor|].
  destruct (f x); by constructor.
Qed.

Lemma filter_Forall {A} (f : A -> bool) (l : list A) :
  Forall (fun x => f x = true) (List.filter f l).
Proof.
  induction l as [|x l IH]; simpl; [constructor|].
  destruct (f x) eqn:Hx; [by constructor|done].
Qed.

Lemma Forall_of_sublist {A} (P : A -> Prop) (l k : list A) :
  l `sublist_of` k -> Forall P k -> Forall P l.
Proof.
  rewrite !Forall_forall. intros Hsub Hk x Hx.
  apply Hk. by eapply elem_of_sublist.
Qed.

Lemma py_slice_to_sublist {A} (l : list A) (n : Z) : py_slice_to l n `sublist_of` l.
Proof. unfold py_slice_to. destruct (decide _); apply sublist_take. Qed.

Lemma py_slice_to_length {A} (l : list A) (n : Z) :
  0 <= n -> (length (py_slice_to l n) <= Z.to_nat n)%nat.
Proof.
  intros Hn. unfold py_slice_to. destruct (decide _); [lia|].
  rewrite length_take. lia.
Qed.



Lemma fold_apply_update_keeps (us : list AccountUpdate) : forall a,
  Forall (fun u => is_safe_update u = true) us ->
  private_key (List.fold_left apply_update us a) = private_key a /\
  address (List.fold_left apply_update us a) = address a.
Proof.
  induction us as [|u us IH]; intros a Hall; simpl; [done|].
  inversion Hall as [|? ? Hu Hus]; subst.
  destruct (IH (apply_update a u) Hus) as [-> ->].
  by destruct u.
Qed.

(** [update_account] on an account that exists returns [True], writes
    that account only, and never changes its private key or its address,
    whatever the updates say. *)
Theorem update_account_keeps_keys s i a (updates : list AccountUpdate) :
  0 <= i -> s !! Z.to_nat i = Some a ->
  exists a',
    update_account i updates s = (Ok true, <[Z.to_nat i := a']> s) /\
    private_key a' = private_key a /\ address a' = address a /\
    (forall j, j <> Z.to_nat i -> (<[Z.to_nat i := a']> s) !! j = s !! j).
Proof.
  intros Hi Ha. unfold update_account, bind, get, ret.
  pose proof (lookup_index_ok _ _ _ Hi Ha) as Hok.
  rewrite Hok, (load_eq _ _ _ Hi Ha), (store_eq _ _ _ Hok).
  eexists. split; [reflexivity|].
  destruct (fold_apply_update_keeps (List.filter is_safe_update updates) a
              (filter_Forall _ _)) as [H1 H2].
  split; [exact H1|]. split; [exact H2|].
  intros j Hj. by apply list_lookup_insert_ne.
Qed.

Lemma update_account_keeps_keys_witness :
  exists a',
    update_account 0 [UName "Savings"; UPrivateKey "APrivateKey1stolen";
                      UAddress "aleo1elsewhere"] [fresh_account]
    = (Ok true, <[Z.to_nat 0 := a']> [fresh_account]) /\
    private_key a' = private_key fresh_account /\
    address a' = address fresh_account.
Proof.
  destruct (update_account_keeps_keys [fresh_account] 0 fresh_account
              [UName "Savings"; UPrivateKey "APrivateKey1stolen";
               UAddress "aleo1elsewhere"] ltac:(lia) eq_refl)
    as (a' & H1 & H2 & H3 & _).
  exists a'. by repeat split.
Defined.

(** [delete_account] on an index in range returns [True] and removes that
    one account: the list is one shorter, the accounts before the index
    keep their index and every later account moves down by one. *)
Theorem delete_account_shifts s i :
  0 <= i < Z.of_nat (length s) ->
  exists s',
    delete_account i s = (Ok true, s') /\
    length s' = (length s - 1)%nat /\
    (forall j, (j < Z.to_nat i)%nat -> s' !! j = s !! j) /\
    (forall j, (Z.to_nat i <= j)%nat -> s' !! j = s !! S j).
Proof.
  intros Hi%index_ok_true. unfold delete_account, bind, get, ret.
  rewrite Hi, (py_delitem_in_range _ _ Hi).
  eexists. split; [reflexivity|]. split; [|split].
  - apply length_delete. destruct (index_ok_lookup _ _ Hi) as [a Ha]. eauto.
  - intros j Hj. by apply list_lookup_delete_lt.
  - intros j Hj. by apply list_lookup_delete_ge.
Qed.

Lemma delete_account_shifts_witness :
  exists s',
    delete_account 0 [fresh_account; funded_account] = (Ok true, s') /\
    s' !! 0%nat = Some funded_account.
Proof.
  destruct (delete_account_shifts [fresh_account; funded_account] 0
              ltac:(simpl; lia)) as (s' & H1 & _ & _ & H4).
  exists s'. split; [exact H1|]. by rewrite (H4 0%nat) by (simpl; lia).
Defined.

(** A contact whose address starts with "aleo1" is put at the end of the
    account's contacts, and removing the contact at that last index gives
    back the accounts exactly as they were; a contact without an address,
    or with one that does not start with "aleo1", is refused with [False]
    and nothing changes. *)
Theorem add_then_remove_contact s i a (c : Contact) :
  0 <= i -> s !! Z.to_nat i = Some a ->
  (startswith (default "" (contact_address c)) "aleo1" = true ->
   exists s1 a1,
     add_contact i c s = (Ok true, s1) /\ s1 !! Z.to_nat i = Some a1 /\
     contacts a1 = (contacts a ++ [c])%list /\
     remove_contact i (Z.of_nat (length (contacts a))) s1 = (Ok true, s)) /\
  (startswith (default "" (contact_address c)) "aleo1" = false ->
   add_contact i c s = (Ok false, s)).
Proof.
  intros Hi Ha. pose proof (lookup_index_ok _ _ _ Hi Ha) as Hok.
  assert (Hlt : (Z.to_nat i < length s)%nat) by (by eapply lookup_lt_Some).
  split; intros Hc; unfold add_contact, bind, get, ret; rewrite Hok, Hc;
    cbn [negb]; [|done].
  rewrite (load_eq _ _ _ Hi Ha), (store_eq _ _ _ Hok).
  set (a1 := set_contacts _ a). set (s1 := <[_ := a1]> s).
  assert (Ha1 : s1 !! Z.to_nat i = Some a1) by (by apply list_lookup_insert_eq).
  exists s1, a1. repeat split; try done.
  unfold remove_contact, bind, get, ret, lift.
  rewrite (lookup_index_ok _ _ _ Hi Ha1), (load_eq _ _ _ Hi Ha1).
  assert (Hci : index_ok (Z.of_nat (length (contacts a))) (contacts a1) = true).
  { apply index_ok_true. unfold a1; simpl. rewrite length_app. simpl. lia. }
  rewrite Hci, (py_delitem_in_range _ _ Hci).
  rewrite (store_eq _ _ _ (lookup_index_ok _ _ _ Hi Ha1)).
  unfold s1. rewrite list_insert_insert_eq. f_equal.
  apply list_insert_id. rewrite Ha. f_equal.
  unfold a1; simpl. rewrite Nat2Z.id.
  replace (delete (length (contacts a)) (contacts a ++ [c])%list)
    with (contacts a); [by destruct a|].
  rewrite delete_take_drop, take_app_length.
  rewrite drop_ge by (rewrite length_app; simpl; lia).
  by rewrite app_nil_r.
Qed.

End CoreFurther.

(** * Key formats *)

Section KeyFormats.

Variable sha256 : list byte -> list byte.

Lemma length_append (a b : string) :
  String.length (a +:+ b) = (String.length a + String.length b)%nat.
Proof.
  induction a as [|c a IH]; [done|].
  rewrite append_cons. simpl. by rewrite IH.
Qed.

Lemma length_substring_le (s : string) : forall n,
  (String.length (String.substring 0 n s) <= String.length s)%nat.
Proof.
  induction s as [|c s IH]; intros [|n]; simpl; try lia.
  specialize (IH n). lia.
Qed.

Lemma length_b64encode_32 (data : list byte) :
  length data = 32%nat -> (String.length (Base64.b64encode data) <= 45)%nat.
Proof. intros H. pose proof (length_b64encode data). lia. Qed.

Lemma str_drop_view_prefix (s : string) : str_drop 9 ("AViewKey1" +:+ s) = s.
Proof.
  unfold str_drop. rewrite !append_cons, append_empty. simpl.
  apply substring_all. lia.
Qed.

Lemma validate_address_short (addr : string) :
  (String.length addr < 60)%nat -> validate_address addr = false.
Proof.
  intros H. unfold validate_address.
  rewrite (bool_decide_eq_false_2 (60 <= _)) by lia.
  apply andb_false_r.
Qed.

Lemma derived_address_short (seed : list byte) :
  length (sha256 (sha256 seed)) = 32%nat ->
  (String.length (derive_address sha256 seed) <= 50)%nat.
Proof.
  intros H. unfold derive_address, str_take. rewrite length_append.
  pose proof (length_substring_le (Base64.b64encode (sha256 (sha256 seed))) 58).
  pose proof (length_b64encode_32 _ H). simpl. lia.
Qed.

(** No address the wallet derives passes its own [validate_address]: a
    derived address has at most 50 characters (a SHA-256 digest has 32
    bytes) and the check asks for 60.  So [create_transaction] never
    accepts the address of an account made by [generate_account] as the
    recipient. *)
Theorem derived_address_fails_validation
  (name : option string) (seed : list byte) (now : Z) (s : Accounts) :
  length (sha256 (sha256 seed)) = 32%nat ->
  exists g,
    (generate_account sha256 name seed now s).1 = Ok g /\
    validate_address (address g) = false /\
    forall float_str cfg i amount memo now' s',
      is_ok (TransactionManager.create_transaction float_str cfg i (address g)
               amount memo now' s').1 = false.
Proof.
  intros H.
  destruct (generate_eq sha256 name seed now s) as (g & -> & _ & _ & Ha).
  exists g. split; [done|].
  assert (Hv : validate_address (address g) = false).
  { apply validate_address_short. rewrite Ha.
    pose proof (derived_address_short seed H). lia. }
  split; [exact Hv|].
  intros float_str cfg i amount memo now' s'.
  rewrite (create_transaction_unfold float_str cfg i (address g) amount memo
             now' s').
  destruct (_ <=? _)%float; [done|]. by rewrite Hv.
Qed.

(** [KeyManager.validate_private_key] refuses every private key that
    [generate_account] and [generate_new_key_pair] make from a 32-byte
    seed: such a key has at most 57 characters and the check asks for 59.
    So [KeyManager.import_private_key] raises on it and imports nothing,
    while the wallet core's own import accepts it. *)
Theorem generated_key_refused_by_key_manager (seed : list byte) :
  length seed = 32%nat ->
  kp_private_key (generate_new_key_pair sha256 seed) = generated_private_key seed /\
  validate_private_key (generated_private_key seed) = false /\
  (forall name password now s,
     km_import_private_key sha256 (generated_private_key seed) name password now s
     = (Raise (ValueError "Invalid private key format"), s)) /\
  (forall name now s,
     is_ok (import_account_from_private_key sha256 (generated_private_key seed)
              name now s).1 = true).
Proof.
  intros H.
  assert (Hv : validate_private_key (generated_private_key seed) = false).
  { unfold validate_private_key, generated_private_key.
    rewrite (bool_decide_eq_false_2 (59 <= _)); [apply andb_false_r|].
    rewrite length_append. unfold str_take.
    pose proof (length_substring_le (Base64.b64encode seed) 52).
    pose proof (length_b64encode_32 _ H). simpl. lia. }
  split; [done|]. split; [exact Hv|]. split.
  - intros name password now s. unfold km_import_private_key.
    assert (Hs : startswith (generated_private_key seed) "ENCRYPTED:" = false).
    { unfold generated_private_key, startswith.
      rewrite !append_cons, append_empty. reflexivity. }
    rewrite Hs. cbn [andb]. by rewrite Hv.
  - intros name now s.
    destruct (import_eq sha256 (generated_private_key seed) name now s
                (startswith_prefix _)) as (a & -> & _). done.
Qed.

(** The two derivation helpers of [KeyManager] agree with the import:
    the address derived from the view key derived from a private key is
    the address [import_account_from_private_key] gives that key. *)
Theorem key_chain_consistent (pk : string) (name : option string) (now : Z)
  (s : Accounts) :
  startswith pk "APrivateKey1" = true ->
  length (sha256 (seed_of_private_key sha256 pk)) = 32%nat ->
  exists a,
    (import_account_from_private_key sha256 pk name now s).1 = Ok a /\
    derive_view_key_from_private_key sha256 pk = view_key a /\
    derive_address_from_view_key sha256 (view_key a) = address a.
Proof.
  intros Hp H.
  destruct (import_eq sha256 pk name now s Hp) as (a & -> & _ & Hv & Ha).
  exists a. split; [done|]. split; [by rewrite Hv|].
  rewrite Hv, Ha. unfold derive_address_from_view_key, derive_view_key, derive_address.
  rewrite str_drop_view_prefix.
  assert (Ht : str_take 46 (Base64.b64encode (sha256 (seed_of_private_key sha256 pk)))
               = Base64.b64encode (sha256 (seed_of_private_key sha256 pk))).
  { apply substring_all. pose proof (length_b64encode_32 _ H). lia. }
  by rewrite Ht, b64decode_encode_padded.
Qed.

End KeyFormats.

Lemma derived_address_fails_validation_witness :
  exists g,
    (generate_account toy_sha256 None seed32 7 []).1 = Ok g /\
    validate_address (address g) = false.
Proof.
  destruct (derived_address_fails_validation toy_sha256 None seed32 7 [] eq_refl)
    as (g & H1 & H2 & _).
  exists g. by split.
Defined.

Lemma generated_key_refused_by_key_manager_witness :
  km_import_private_key toy_sha256 (generated_private_key seed32) None None 3 []
  = (Raise (ValueError "Invalid private key format"), []).
Proof.
  apply (generated_key_refused_by_key_manager toy_sha256 seed32). reflexivity.
Defined.

Lemma key_chain_consistent_witness :
  exists a,
    (import_account_from_private_key toy_sha256 (generated_private_key seed32)
       None 1 []).1 = Ok a /\
    derive_view_key_from_private_key toy_sha256 (generated_private_key seed32)
      = view_key a /\
    derive_address_from_view_key toy_sha256 (view_key a) = address a.
Proof.
  apply (key_chain_consistent toy_sha256 (generated_private_key seed32) None 1 []).
  - reflexivity.
  - vm_compute. reflexivity.
Defined.

Lemma add_then_remove_contact_witness :
  exists s1 a1,
    add_contact 0 (mkContact "Bob" (Some addr_bob) "") [fresh_account]
      = (Ok true, s1) /\
    s1 !! Z.to_nat 0 = Some a1 /\
    contacts a1 = (contacts fresh_account ++ [mkContact "Bob" (Some addr_bob) ""])%list /\
    remove_contact 0 (Z.of_nat (length (contacts fresh_account))) s1
      = (Ok true, [fresh_account]).
Proof.
  apply (add_then_remove_contact [fresh_account] 0 fresh_account
           (mkContact "Bob" (Some addr_bob) "")).
  - lia.
  - reflexivity.
  - reflexivity.
Defined.

(** * Further properties of the vault *)

Section VaultFurther.

Variable derive_key : string -> list byte -> list byte.
Variable Nonce : Type.
Variable fernet_encrypt : list byte -> Nonce -> list byte -> list byte.
Variable fernet_decrypt : list byte -> list byte -> result (list byte).
Variable json_dumps : Accounts -> list byte.
Variable json_dump_indent : Accounts -> list byte.
Variable json_loads : list byte -> result Accounts.

Local Abbreviation save := (save_wallet Nonce fernet_encrypt json_dumps).
Local Abbreviation reopen := (open_wallet json_loads).

(** A wallet that is not encrypted writes its accounts as JSON, and a
    wallet object made on that file holds the same accounts and is not
    marked encrypted. *)
Theorem plaintext_save_reopen (r : Nonce) (w : Wallet) :
  w_is_encrypted w = false ->
  json_loads (json_dumps (w_accounts w)) = Ok (w_accounts w) ->
  (save r w).1 = true /\
  w_file (save r w).2 = Some (json_dumps (w_accounts w)) /\
  w_accounts (reopen (w_file (save r w).2)) = w_accounts w /\
  w_is_encrypted (reopen (w_file (save r w).2)) = false.
Proof.
  intros He Hj. unfold save_wallet, active_key. rewrite He. simpl.
  unfold open_wallet, load_wallet. simpl. by rewrite Hj.
Qed.

(** A wallet object made on a file that does not parse as JSON (an
    encrypted vault) is marked encrypted, holds no accounts and no key;
    when it saves before [decrypt_wallet] has run, [save_wallet] returns
    [True] and replaces the file by the plain JSON of the accounts then in
    memory (none, or those added since): the encrypted content is gone
    from the file. *)
Theorem save_before_decrypt_overwrites (file : list byte) (e : exn) (r : Nonce) :
  json_loads file = Raise e ->
  let w := reopen (Some file) in
  w_is_encrypted w = true /\ w_accounts w = [] /\ w_encryption_key w = None /\
  w_file w = Some file /\
  save r w = (true, write_file (json_dumps []) w) /\
  (forall accounts',
     w_file (save r (mkWallet accounts' (w_is_encrypted w) (w_encryption_key w)
                       (w_salt w) (w_file w))).2
     = Some (json_dumps accounts')).
Proof.
  intros Hj w. unfold w, open_wallet, load_wallet. simpl. rewrite Hj. simpl.
  repeat split.
Qed.

Local Abbreviation encrypt :=
  (encrypt_wallet derive_key Nonce fernet_encrypt json_dumps).

(** [disable_encryption] on a wallet that is not encrypted returns [True]
    and writes nothing; after [encrypt_wallet] it returns [True], forgets
    key and salt, and leaves the accounts in the file as plain JSON. *)
Theorem disable_encryption_writes_plaintext (password : string)
  (salt : list byte) (r r' : Nonce) (w : Wallet) :
  (w_is_encrypted w = false ->
   disable_encryption Nonce fernet_encrypt json_dumps r' w = (true, w)) /\
  (let w1 := (encrypt password salt r w).2 in
   let w2 := (disable_encryption Nonce fernet_encrypt json_dumps r' w1).2 in
   w_is_encrypted w1 = true /\
   w_is_encrypted w2 = false /\ w_encryption_key w2 = None /\ w_salt w2 = None /\
   w_accounts w2 = w_accounts w /\
   w_file w2 = Some (json_dumps (w_accounts w))).
Proof.
  split.
  - intros He. unfold disable_encryption. by rewrite He.
  - unfold encrypt_wallet, disable_encryption, save_wallet, active_key. simpl.
    destruct (derive_key password salt) as [|b k]; simpl; repeat split.
Qed.

End VaultFurther.

Section BackupRestore.

Variable derive_key : string -> list byte -> list byte.
Variable Nonce : Type.
Variable fernet_encrypt : list byte -> Nonce -> list byte -> list byte.
Variable fernet_decrypt : list byte -> list byte -> result (list byte).
Variable json_dumps : Accounts -> list byte.
Variable json_dump_indent : Accounts -> list byte.
Variable json_loads : list byte -> result Accounts.

Hypothesis derive_key_nonempty : forall p salt, derive_key p salt <> [].
Hypothesis fernet_correct : forall k r m, fernet_decrypt k (fernet_encrypt k r m) = Ok m.

Local Abbreviation encrypt :=
  (encrypt_wallet derive_key Nonce fernet_encrypt json_dumps).
Local Abbreviation restore :=
  (restore_wallet derive_key Nonce fernet_encrypt fernet_decrypt json_dumps json_loads).

(** The backup of an encrypted wallet is a copy of its file.  Restoring
    it into any wallet object with the password it was encrypted under
    returns [True], gives the accounts of the backup and writes the wallet
    file again under the same key and salt.  Restoring it without a
    password, with an empty one, or with a password under whose key Fernet
    rejects the token returns [False] and changes neither the wallet
    object nor its file; a password that derives the same key under the
    salt of the backup restores it like the right one. *)
Theorem encrypted_backup_restore (password : string) (salt : list byte)
  (r r' : Nonce) (w w' : Wallet) (e : exn) :
  length salt = 16%nat -> password <> "" ->
  json_loads (json_dumps (w_accounts w)) = Ok (w_accounts w) ->
  let w1 := (encrypt password salt r w).2 in
  let key := derive_key password salt in
  let token := fernet_encrypt key r (json_dumps (w_accounts w)) in
  let restored :=
    mkWallet (w_accounts w) true (Some key) (Some salt)
      (Some (salt ++ fernet_encrypt key r' (json_dumps (w_accounts w)))%list) in
  (forall file, w_file w1 = Some file -> json_loads file = Raise e) ->
  exists file,
    backup_wallet json_dump_indent w1 = (true, Some file) /\
    w_file w1 = Some file /\
    restore (Some file) (Some password) r' w' = (true, restored) /\
    restore (Some file) None r' w' = (false, w') /\
    restore (Some file) (Some "") r' w' = (false, w') /\
    (forall wrong e',
       fernet_decrypt (derive_key wrong salt) token = Raise e' ->
       restore (Some file) (Some wrong) r' w' = (false, w')) /\
    (forall other,
       other <> "" -> derive_key other salt = key ->
       restore (Some file) (Some other) r' w' = (true, restored)).
Proof.
  intros Hlen Hpw Hj w1 key token restored Hnj.
  destruct (encrypt_wallet_file derive_key Nonce fernet_encrypt json_dumps
              derive_key_nonempty password salt r w) as [Hf Ha].
  fold w1 in Hf, Ha. fold key in Hf. fold token in Hf.
  pose proof (Hnj _ Hf) as Hraise.
  pose proof (derive_key_nonempty password salt) as Hne. fold key in Hne.
  assert (Hsame : forall other,
            other <> "" -> derive_key other salt = key ->
            restore (Some (salt ++ token)%list) (Some other) r' w' = (true, restored)).
  { intros other Ho Hk. unfold restore_wallet. rewrite Hraise.
    rewrite (proj2 (negb_false_iff _)); last first.
    { simpl. by rewrite bool_decide_eq_false_2. }
    rewrite take_app_length' by done. rewrite drop_app_length' by done.
    change (default "" (Some other)) with other. rewrite Hk.
    unfold token. rewrite fernet_correct, Hj.
    unfold save_wallet, active_key. simpl. by destruct key. }
  eexists. split; [|split; [exact Hf|]].
  - unfold backup_wallet. rewrite Hf.
    unfold w1, encrypt_wallet, save_wallet, active_key. simpl.
    fold key. by destruct key.
  - split; [by apply Hsame|].
    split; [unfold restore_wallet; by rewrite Hraise|].
    split; [unfold restore_wallet; by rewrite Hraise|].
    split; [|exact Hsame].
    intros wrong e' He. unfold restore_wallet. rewrite Hraise.
    destruct (negb (truthy (Some wrong))); [done|].
    rewrite take_app_length' by done. rewrite drop_app_length' by done.
    change (default "" (Some wrong)) with wrong. by rewrite He.
Qed.

End BackupRestore.

Lemma toy_encrypted_file_is_not_json :
  toy_loads_braced (salt16 ++ toy_encrypt (toy_derive_key "correct horse" salt16) tt
                      (toy_dumps_braced [fresh_account]))
  = Raise (ValueError "Expecting value").
Proof. reflexivity. Qed.

Lemma plaintext_save_reopen_witness :
  w_accounts (open_wallet toy_loads_braced
                (w_file (save_wallet unit toy_encrypt toy_dumps_braced tt
                           plain_wallet).2))
  = [fresh_account].
Proof.
  apply (plaintext_save_reopen unit toy_encrypt toy_dumps_braced toy_loads_braced
           tt plain_wallet); reflexivity.
Defined.

Lemma save_before_decrypt_overwrites_witness :
  let file := (salt16 ++ toy_encrypt (toy_derive_key "correct horse" salt16) tt
                 (toy_dumps_braced [fresh_account]))%list in
  w_file (save_wallet unit toy_encrypt toy_dumps_braced tt
            (open_wallet toy_loads_braced (Some file))).2
  = Some (toy_dumps_braced []).
Proof.
  intros file.
  destruct (save_before_decrypt_overwrites unit toy_encrypt toy_dumps_braced
              toy_loads_braced file _ tt toy_encrypted_file_is_not_json)
    as (_ & _ & _ & _ & H & _).
  by rewrite H.
Defined.

Lemma encrypted_backup_restore_witness :
  exists file,
    backup_wallet toy_dumps_braced
      (encrypt_wallet toy_derive_key unit toy_encrypt toy_dumps_braced
         "correct horse" salt16 tt plain_wallet).2 = (true, Some file) /\
    (restore_wallet toy_derive_key unit toy_encrypt toy_decrypt toy_dumps_braced
       toy_loads_braced (Some file) (Some "Tr0ub4dor") tt
       (mkWallet [] false None None None))
    = (false, mkWallet [] false None None None).
Proof.
  destruct (encrypted_backup_restore toy_derive_key unit toy_encrypt toy_decrypt
              toy_dumps_braced toy_dumps_braced toy_loads_braced
              ltac:(discriminate) toy_decrypt_correct
              "correct horse" salt16 tt tt plain_wallet
              (mkWallet [] false None None None)
              (ValueError "Expecting value")
              eq_refl ltac:(discriminate) eq_refl)
    as (file & H1 & _ & _ & _ & _ & H6 & _).
  - intros file [= <-]. reflexivity.
  - exists file. split; [exact H1|].
    apply (H6 "Tr0ub4dor" InvalidToken). reflexivity.
Defined.

(** * Further properties of the transaction manager *)

Section ManagerFurther.

Import TransactionManager TransactionManagerMore.

Implicit Types (s : Accounts) (i : Z) (a : Account).

(** When none of the four tests of [create_transaction] is true (the
    amount is not [<= 0], the recipient address is valid, the account
    exists and the balance is not below amount + fee), [send_transaction]
    returns the id "at<clock at the broadcast>", puts the signed Pending
    transaction with that id in front of the sender's history, stamped
    with the clock at the creation and signed "sig_<clock at the
    signing>", and takes amount + fee from the balance at once; no other
    account changes. *)
Theorem send_transaction_success float_str cfg s i a recipient (amount : float)
  memo (now_create now_sign now_broadcast : Z) :
  0 <= i -> s !! Z.to_nat i = Some a ->
  (amount <=? 0)%float = false -> validate_address recipient = true ->
  (balance a <? amount + calculate_fee cfg amount memo)%float = false ->
  exists a',
    send_transaction float_str cfg i recipient amount memo
      now_create now_sign now_broadcast s
      = (Ok ("at" +:+ pretty now_broadcast), <[Z.to_nat i := a']> s) /\
    transactions a'
      = sent_transaction cfg a recipient amount memo
          now_create now_sign now_broadcast :: transactions a /\
    balance a' = (balance a - (amount + calculate_fee cfg amount memo))%float /\
    address a' = address a /\ contacts a' = contacts a.
Proof.
  intros Hi Ha Hpos Hv Hb.
  unfold send_transaction. unfold bind at 1.
  rewrite (create_transaction_unfold float_str cfg i recipient amount memo
             now_create s).
  rewrite Hpos, Hv, (lookup_index_ok _ _ _ Hi Ha), Ha. cbn [negb].
  rewrite Hb.
  unfold bind at 1. unfold sign_transaction, bind at 1.
  rewrite (get_account_eq _ _ _ Hi Ha). unfold ret at 1.
  unfold broadcast_transaction, bind.
  rewrite (add_transaction_eq _ _ _ _ _ Hi Ha). unfold ret.
  eexists. split; [reflexivity|].
  split; [reflexivity|]. split; [reflexivity|]. done.
Qed.

Lemma find_tx_head id tx txs :
  tx_transaction_id tx = Some id -> find_tx id (tx :: txs) 0 = Some (0%nat, tx).
Proof. intros H. simpl. by rewrite bool_decide_eq_true_2. Qed.

Lemma find_tx_shift id txs : forall k,
  find_tx id txs (S k) = (fun p => (S p.1, p.2)) <$> find_tx id txs k.
Proof.
  induction txs as [|t txs IH]; intros k; simpl; [done|].
  destruct (bool_decide _); [done|]. apply IH.
Qed.

(** [add_transaction] then [get_transaction]: the transaction just
    recorded is the one found under its id, also when an older one carries
    the same id; any other id is looked up as before. *)
Theorem get_transaction_after_add s i a tx now id :
  0 <= i -> s !! Z.to_nat i = Some a ->
  let s1 := (add_transaction i tx now s).2 in
  (tx_transaction_id tx = Some id ->
   get_transaction i id s1 = (Ok (Some (stamp now tx)), s1)) /\
  (tx_transaction_id tx <> Some id ->
   (get_transaction i id s1).1 = (get_transaction i id s).1).
Proof.
  intros Hi Ha s1. unfold s1.
  assert (Hlt : (Z.to_nat i < length s)%nat) by (by eapply lookup_lt_Some).
  rewrite (add_transaction_eq _ _ _ _ _ Hi Ha). cbn [snd].
  assert (Ha1 : <[Z.to_nat i := record_in now tx a]> s !! Z.to_nat i
                = Some (record_in now tx a)) by (by apply list_lookup_insert_eq).
  rewrite (get_transaction_eq _ _ _ _ Hi Ha1), (get_transaction_eq _ _ _ _ Hi Ha).
  assert (Hid : tx_transaction_id (stamp now tx) = tx_transaction_id tx).
  { unfold stamp. by destruct (tx_timestamp tx). }
  split; intros H.
  - unfold record_in. cbn [transactions set_balance set_transactions].
    rewrite find_tx_head by (by rewrite Hid). done.
  - unfold record_in. cbn [transactions set_balance set_transactions fst].
    cbn [find_tx]. rewrite Hid, bool_decide_eq_false_2 by done.
    rewrite find_tx_shift. f_equal.
    by destruct (find_tx id (transactions a) 0) as [[j t]|].
Qed.

Lemma find_tx_insert_same id txs f : forall k j tx,
  find_tx id txs k = Some (j, tx) ->
  tx_transaction_id (f tx) = tx_transaction_id tx ->
  find_tx id (<[(j - k)%nat := f tx]> txs) k = Some (j, f tx).
Proof.
  induction txs as [|t txs IH]; intros k j tx H Hf; simpl in H; [done|].
  destruct (bool_decide (tx_transaction_id t = Some id)) eqn:Ht.
  - injection H as <- <-. rewrite Nat.sub_diag. simpl.
    by rewrite Hf, Ht.
  - destruct (find_tx_lookup _ _ _ _ _ H) as (n & -> & _ & _).
    replace (S k + n - k)%nat with (S n) by lia. simpl. rewrite Ht.
    specialize (IH (S k) (S k + n)%nat tx H Hf).
    by replace (S k + n - S k)%nat with n in IH by lia.
Qed.

(** The monitor thread's body: when the account has a transaction with
    the id, the first such transaction becomes Confirmed and gets the
    block height, and balance, address and the rest of the history stay as
    they are; when the id is unknown or the account index is out of range
    nothing changes and nothing is raised. *)
Theorem monitor_confirms s i id (h : Z) :
  (forall a j tx,
     0 <= i -> s !! Z.to_nat i = Some a ->
     find_tx id (transactions a) 0 = Some (j, tx) ->
     monitor i id h s =
       (Ok tt,
        <[Z.to_nat i :=
            set_transactions
              (<[j := set_block_height h (set_status STATUS_CONFIRMED tx)]>
                 (transactions a)) a]> s)) /\
  (forall a, 0 <= i -> s !! Z.to_nat i = Some a ->
     find_tx id (transactions a) 0 = None -> monitor i id h s = (Ok tt, s)) /\
  (index_ok i s = false -> monitor i id h s = (Ok tt, s)).
Proof.
  split; [|split].
  - intros a j tx Hi Ha Hf.
    assert (Hlt : (Z.to_nat i < length s)%nat) by (by eapply lookup_lt_Some).
    unfold monitor. unfold bind at 1.
    rewrite (update_transaction_status_eq _ _ _ _ _ Hi Ha), Hf.
    set (a1 := set_transactions _ a).
    assert (Ha1 : <[Z.to_nat i := a1]> s !! Z.to_nat i = Some a1)
      by (by apply list_lookup_insert_eq).
    unfold bind at 1. rewrite (get_transactions_eq _ _ _ Hi Ha1).
    pose proof (find_tx_insert_same id (transactions a)
                  (set_status STATUS_CONFIRMED) 0 j tx Hf eq_refl) as Hf1.
    rewrite Nat.sub_0_r in Hf1.
    unfold a1 at 1. cbn [transactions set_transactions]. rewrite Hf1.
    destruct (find_tx_lookup _ _ _ _ _ Hf) as (n & -> & Hn & _). simpl in *.
    rewrite (store_tx_eq _ _ a1 _ _ Hi Ha1); last first.
    { unfold a1; simpl. rewrite length_insert. by eapply lookup_lt_Some. }
    rewrite list_insert_insert_eq. unfold a1; simpl.
    by rewrite list_insert_insert_eq.
  - intros a Hi Ha Hf. unfold monitor. unfold bind at 1.
    rewrite (update_transaction_status_eq _ _ _ _ _ Hi Ha), Hf.
    unfold bind. rewrite (get_transactions_eq _ _ _ Hi Ha), Hf. done.
  - intros Hok. unfold monitor, update_transaction_status, get_transactions,
      bind, get, ret. rewrite Hok. simpl. by rewrite Hok.
Qed.

(** [receive_transaction] on an account that exists records a Confirmed
    Received transaction, adds the amount to the balance and returns the
    transaction; with no id, or an empty one, the id is "at<clock>" with
    the clock as read first, before the one read for the timestamp.  On an
    index out of range it raises [TypeError] and changes nothing. *)
Theorem receive_transaction_credits s i sender (amount : float) id
  (now_id now : Z) :
  (forall a, 0 <= i -> s !! Z.to_nat i = Some a ->
     exists tx a',
       receive_transaction i sender amount id now_id now s
         = (Ok tx, <[Z.to_nat i := a']> s) /\
       transactions a' = tx :: transactions a /\
       balance a' = (balance a + amount)%float /\
       tx_status tx = "Confirmed" /\ tx_type tx = "Received" /\
       tx_amount tx = amount /\
       tx_timestamp tx = Some now /\
       tx_transaction_id tx = Some (str_or id ("at" +:+ pretty now_id))) /\
  (index_ok i s = false ->
   receive_transaction i sender amount id now_id now s = (Raise TypeError, s)).
Proof.
  split.
  - intros a Hi Ha. unfold receive_transaction. unfold bind at 1.
    rewrite (get_account_eq _ _ _ Hi Ha). unfold bind.
    rewrite (add_transaction_eq _ _ _ _ _ Hi Ha). unfold ret.
    eexists _, _. split; [reflexivity|]. repeat split.
  - intros Hok. unfold receive_transaction, bind.
    by rewrite (get_account_get_balance_none i s Hok).
Qed.

(** A higher fee never gives a longer estimate, and the estimate is one
    of 1, 5 and 15 minutes. *)
Theorem estimate_transaction_time_antitone cfg (fee fee' : float) :
  (fee <=? fee')%float = true ->
  estimate_transaction_time cfg fee' <= estimate_transaction_time cfg fee /\
  (estimate_transaction_time cfg fee = 1 \/ estimate_transaction_time cfg fee = 5
   \/ estimate_transaction_time cfg fee = 15).
Proof.
  intros H. unfold estimate_transaction_time.
  destruct (default_fee cfg * 2 <=? fee)%float eqn:H1.
  { rewrite (leb_trans _ _ _ H1 H). split; [lia|auto]. }
  destruct (default_fee cfg <=? fee)%float eqn:H2.
  { rewrite (leb_trans _ _ _ H2 H).
    split; [|auto]. destruct (default_fee cfg * 2 <=? fee')%float; lia. }
  split; [|auto].
  destruct (default_fee cfg * 2 <=? fee')%float; [lia|].
  destruct (default_fee cfg <=? fee')%float; lia.
Qed.

End ManagerFurther.

(** * Chain synchronisation *)

Section Sync.

Import TransactionManager BlockchainIntegration SyncSpec.

Variable chain : string -> result (option TxDetails).
Variable i : Z.
Hypothesis i_nonneg : 0 <= i.

Implicit Types (s : Accounts) (a : Account).

Lemma insert_same s a : s !! Z.to_nat i = Some a -> <[Z.to_nat i := a]> s = s.
Proof. apply list_insert_id. Qed.

Lemma known_spec id a :
  known id a = true <-> find_tx id (transactions a) 0 <> None.
Proof. unfold known. apply bool_decide_eq_true. Qed.

Lemma process_transaction_eq s a (d : TxDetails) now :
  s !! Z.to_nat i = Some a ->
  _process_transaction i (Some d) now s =
    if bool_decide (td_sender d = address a) then
      (Ok tt, <[Z.to_nat i := record_in now (chain_transaction "Sent" d now) a]> s)
    else if bool_decide (td_recipient d = address a) then
      (Ok tt, <[Z.to_nat i := record_in now (chain_transaction "Received" d now) a]> s)
    else (Ok tt, s).
Proof.
  intros Ha. unfold _process_transaction. unfold bind at 1.
  rewrite (get_account_eq _ _ _ i_nonneg Ha).
  destruct (bool_decide (td_sender d = address a)).
  - unfold bind. by rewrite (add_transaction_eq _ _ _ _ _ i_nonneg Ha).
  - destruct (bool_decide (td_recipient d = address a)); [|done].
    unfold bind. by rewrite (add_transaction_eq _ _ _ _ _ i_nonneg Ha).
Qed.

Lemma sync_one_eq s a now id :
  s !! Z.to_nat i = Some a ->
  sync_one chain i now id s =
    ((step chain now id a).1, <[Z.to_nat i := (step chain now id a).2]> s).
Proof.
  intros Ha. unfold sync_one, step. unfold bind at 1.
  rewrite (get_transaction_eq _ _ _ _ i_nonneg Ha).
  destruct (find_tx id (transactions a) 0) as [[j tx]|] eqn:Hf.
  - assert (known id a = true) as -> by (apply known_spec; by rewrite Hf).
    cbn. by rewrite (insert_same _ _ Ha).
  - assert (known id a = false) as ->.
    { apply not_true_is_false. rewrite known_spec, Hf. intros H. by apply H. }
    cbn [fmap option_fmap option_map]. unfold bind, lift.
    destruct (chain id) as [[d|]|e].
    + rewrite (process_transaction_eq _ _ _ _ Ha).
      destruct (bool_decide (td_sender d = address a)); [done|].
      destruct (bool_decide (td_recipient d = address a)); [done|].
      cbn [fst snd]. by rewrite (insert_same _ _ Ha).
    + cbn [_process_transaction fst snd]. unfold ret.
      by rewrite (insert_same _ _ Ha).
    + cbn [fst snd]. by rewrite (insert_same _ _ Ha).
Qed.

Lemma sync_loop_eq ids : forall (clock : nat -> Z) s a,
  s !! Z.to_nat i = Some a ->
  sync_loop chain i clock ids s =
    ((loop chain clock ids a).1, <[Z.to_nat i := (loop chain clock ids a).2]> s).
Proof.
  induction ids as [|id ids IH]; intros clock s a Ha.
  - simpl. unfold ret. by rewrite (insert_same _ _ Ha).
  - cbn [sync_loop loop]. unfold bind.
    rewrite (sync_one_eq _ _ _ _ Ha).
    destruct (step chain (clock 0%nat) id a) as [[[]|e] a1]; cbn [fst snd]; [|done].
    assert (Hlt : (Z.to_nat i < length s)%nat) by (by eapply lookup_lt_Some).
    rewrite (IH _ _ a1) by (by apply list_lookup_insert_eq).
    by rewrite list_insert_insert_eq.
Qed.

Lemma update_account_balance_eq s a :
  s !! Z.to_nat i = Some a ->
  _update_account_balance i s =
    ((recompute a).1, <[Z.to_nat i := (recompute a).2]> s).
Proof.
  intros Ha. unfold _update_account_balance, recompute. unfold bind at 1.
  rewrite (get_account_eq _ _ _ i_nonneg Ha).
  unfold bind at 1. rewrite (get_transactions_eq _ _ _ i_nonneg Ha).
  unfold bind at 1. unfold lift.
  destruct (sum_transactions (transactions a) 0%float) as [b|e]; simpl.
  - unfold bind. rewrite (load_eq _ _ _ i_nonneg Ha).
    by rewrite store_eq by (by eapply lookup_index_ok).
  - by rewrite (insert_same _ _ Ha).
Qed.

Lemma sync_account_eq s a tx_ids (clock : nat -> Z) :
  s !! Z.to_nat i = Some a ->
  _sync_account chain tx_ids i clock s
  = (Ok tt, <[Z.to_nat i := synced chain tx_ids clock a]> s).
Proof.
  intros Ha. unfold _sync_account, synced. unfold bind at 1.
  rewrite (get_account_eq _ _ _ i_nonneg Ha).
  destruct tx_ids as [ids|e].
  - unfold bind at 1. unfold lift. unfold bind.
    rewrite (sync_loop_eq _ _ _ _ Ha).
    destruct (loop chain clock ids a) as [[[]|e] a1]; cbn [fst snd].
    + assert (Hlt : (Z.to_nat i < length s)%nat) by (by eapply lookup_lt_Some).
      rewrite (update_account_balance_eq _ a1) by (by apply list_lookup_insert_eq).
      by rewrite list_insert_insert_eq.
    + done.
  - unfold bind, lift. by rewrite (insert_same _ _ Ha).
Qed.

(** The account level: what a pass settles stays settled. *)

Lemma known_record_in id now tx a :
  known id a = true -> known id (record_in now tx a) = true.
Proof.
  rewrite !known_spec. unfold record_in.
  cbn [transactions set_balance set_transactions find_tx].
  destruct (bool_decide _); [done|].
  rewrite find_tx_shift. by destruct (find_tx id (transactions a) 0).
Qed.

Lemma known_recorded id now tx a :
  tx_transaction_id tx = Some id -> known id (record_in now tx a) = true.
Proof.
  intros H. rewrite known_spec. unfold record_in.
  cbn [transactions set_balance set_transactions].
  rewrite find_tx_head; [done|]. unfold stamp. by destruct (tx_timestamp tx).
Qed.

Lemma step_grows now id a :
  address (step chain now id a).2 = address a /\
  (forall id', known id' a = true -> known id' (step chain now id a).2 = true).
Proof.
  unfold step. destruct (known id a); [done|].
  destruct (chain id) as [[d|]|e]; try done.
  destruct (bool_decide (td_sender d = address a)).
  { split; [done|]. intros. by apply known_record_in. }
  destruct (bool_decide (td_recipient d = address a)); [|done].
  split; [done|]. intros. by apply known_record_in.
Qed.

Lemma loop_grows ids : forall (clock : nat -> Z) a,
  address (loop chain clock ids a).2 = address a /\
  (forall id', known id' a = true -> known id' (loop chain clock ids a).2 = true).
Proof.
  induction ids as [|id ids IH]; intros clock a; [done|].
  cbn [loop]. destruct (step_grows (clock 0%nat) id a) as [Hs1 Hs2].
  destruct (step chain (clock 0%nat) id a) as [[[]|e] a1]; cbn [snd] in *; [|done].
  destruct (IH (fun k => clock (S k)) a1) as [H1 H2]. split; [congruence|]. auto.
Qed.

(** An account with the history and address a pass has left is not
    changed by a second pass, which ends as the first did. *)
Lemma loop_stable (Hid : answers_with_own_id chain) ids :
  forall (clock clock' : nat -> Z) a a2,
  transactions a2 = transactions (loop chain clock ids a).2 ->
  address a2 = address a ->
  (loop chain clock' ids a2).2 = a2 /\
  is_ok (loop chain clock' ids a2).1 = is_ok (loop chain clock ids a).1.
Proof.
  induction ids as [|id ids IH]; intros clock clock' a a2 Ht Hadr; [done|].
  cbn [loop] in *.
  set (now := clock 0%nat) in *. set (now' := clock' 0%nat) in *.
  set (later := fun k => clock (S k)) in *.
  set (later' := fun k => clock' (S k)) in *.
  assert (Hk2 : forall id', known id' a2 = known id' (match step chain now id a with
                              | (Ok _, a') => loop chain later ids a'
                              | (Raise e, a') => (Raise e, a')
                              end).2).
  { intros id'. unfold known. by rewrite Ht. }
  destruct (step_grows now id a) as [Hs1 Hs2].
  unfold step in *.
  destruct (known id a) eqn:Hk.
  - (* already known before the first pass *)
    cbn [fst snd] in *.
    assert (known id a2 = true) as ->.
    { rewrite Hk2. by apply loop_grows. }
    by apply (IH later later' a).
  - destruct (chain id) as [[d|]|e] eqn:Hc.
    + pose proof (Hid _ _ Hc) as Hd.
      destruct (bool_decide (td_sender d = address a)) eqn:Hsnd.
      { cbn [fst snd] in *.
        assert (known id a2 = true) as ->.
        { rewrite Hk2. apply loop_grows. apply known_recorded. by rewrite <- Hd. }
        apply (IH later later' (record_in now (chain_transaction "Sent" d now) a));
          done. }
      destruct (bool_decide (td_recipient d = address a)) eqn:Hrcp.
      { cbn [fst snd] in *.
        assert (known id a2 = true) as ->.
        { rewrite Hk2. apply loop_grows. apply known_recorded. by rewrite <- Hd. }
        apply (IH later later'
                 (record_in now (chain_transaction "Received" d now) a)); done. }
      cbn [fst snd] in *. rewrite Hadr, Hsnd, Hrcp.
      destruct (known id a2); by apply (IH later later' a).
    + cbn [fst snd] in *. destruct (known id a2); by apply (IH later later' a).
    + cbn [fst snd] in *. rewrite Hk2, Hk. done.
Qed.

Lemma recompute_same a :
  transactions (recompute a).2 = transactions a /\
  address (recompute a).2 = address a /\
  (recompute (recompute a).2) = ((recompute a).1, (recompute a).2).
Proof.
  unfold recompute.
  destruct (sum_transactions (transactions a) 0%float) as [b|e] eqn:Hs; simpl.
  - rewrite Hs. done.
  - by rewrite Hs.
Qed.

Lemma synced_idempotent (Hid : answers_with_own_id chain) tx_ids
  (now now' : nat -> Z) a :
  synced chain tx_ids now' (synced chain tx_ids now a) = synced chain tx_ids now a.
Proof.
  unfold synced. destruct tx_ids as [ids|e]; [|done].
  destruct (loop_grows ids now a) as [Hadr _].
  destruct (loop chain now ids a) as [[[]|e] a1] eqn:Hl; cbn [snd] in *.
  - destruct (recompute_same a1) as (Ht & Ha & Hr).
    destruct (loop_stable Hid ids now now' a (recompute a1).2) as [H1 H2].
    { rewrite Hl. exact Ht. }
    { congruence. }
    rewrite Hl in H2. cbn [fst is_ok] in H2.
    destruct (loop chain now' ids (recompute a1).2) as [[[]|e] a3];
      cbn [fst snd is_ok] in *; [|done].
    subst a3. by rewrite Hr.
  - destruct (loop_stable Hid ids now now' a a1) as [H1 H2].
    { by rewrite Hl. }
    { done. }
    rewrite Hl in H2. cbn [fst is_ok] in H2.
    destruct (loop chain now' ids a1) as [[[]|e'] a3];
      cbn [fst snd is_ok] in *; done.
Qed.

End Sync.


Section ProcessTransaction.

Import BlockchainIntegration SyncSpec.


End ProcessTransaction.

Section NetworkStatus.

Import BlockchainIntegration BlockchainIntegrationMore.

Lemma alternates_snoc (l : list bool) : forall e b,
  alternates e l = true ->
  b = (if Nat.even (length l) then e else negb e) ->
  alternates e (l ++ [b]) = true.
Proof.
  induction l as [|x l IH]; intros e b H Hb.
  - cbn in *. subst b. by destruct e.
  - cbn [alternates] in H. apply andb_true_iff in H as [Hx Hl].
    change ((x :: l) ++ [b])%list with (x :: (l ++ [b]))%list.
    cbn [alternates]. rewrite Hx. cbn [andb].
    apply IH; [done|]. subst b. cbn [length].
    rewrite Nat.even_succ, <- Nat.negb_even.
    destruct (Nat.even (length l)), e; done.
Qed.

Lemma check_network_status_keeps (h : result json) (s : NetState) :
  alternates true (notified s) = true ->
  is_connected s = Nat.odd (length (notified s)) ->
  let s' := (check_network_status h s).2 in
  alternates true (notified s') = true /\
  is_connected s' = Nat.odd (length (notified s')) /\
  is_connected s' = is_ok h /\
  (is_connected s = is_ok h -> notified s' = notified s) /\
  (is_connected s <> is_ok h -> notified s' = (notified s ++ [is_ok h])%list).
Proof.
  intros Halt Hc.
  unfold check_network_status, bind, get, ret, set_connected,
    _notify_network_status_change.
  destruct s as [c n]. simpl in *.
  destruct h as [j|e], c; simpl; repeat split; try done.
  - apply alternates_snoc; [done|]. rewrite <- Nat.negb_odd, <- Hc. done.
  - rewrite length_app, Nat.add_comm. simpl.
    by rewrite Nat.odd_succ, <- Nat.negb_odd, <- Hc.
  - apply alternates_snoc; [done|]. rewrite <- Nat.negb_odd, <- Hc. done.
  - rewrite length_app, Nat.add_comm. simpl.
    by rewrite Nat.odd_succ, <- Nat.negb_odd, <- Hc.
Qed.

(** The status callbacks hear of changes only.  After any run of
    [check_network_status] calls on a new integration object the
    notifications read connected, disconnected, connected, ... in turn,
    the flag is connected exactly when their number is odd, and a call
    whose outcome agrees with the flag notifies nobody. *)
Theorem notifications_alternate (heights : list (result json)) :
  let s := probes heights init_net in
  alternates true (notified s) = true /\
  is_connected s = Nat.odd (length (notified s)) /\
  (length (notified s) <= length heights)%nat /\
  forall h,
    is_connected s = is_ok h ->
    notified (check_network_status h s).2 = notified s.
Proof.
  assert (H : forall hs s,
            alternates true (notified s) = true ->
            is_connected s = Nat.odd (length (notified s)) ->
            alternates true (notified (probes hs s)) = true /\
            is_connected (probes hs s) = Nat.odd (length (notified (probes hs s))) /\
            (length (notified (probes hs s)) <= length (notified s) + length hs)%nat).
  { induction hs as [|h hs IH]; intros s Ha Hc; simpl.
    - repeat split; try done. lia.
    - destruct (check_network_status_keeps h s Ha Hc) as (H1 & H2 & _ & H4 & H5).
      destruct (IH _ H1 H2) as (H6 & H7 & H8).
      split; [done|]. split; [done|].
      destruct (decide (is_connected s = is_ok h)) as [Heq|Hne].
      + rewrite (H4 Heq) in H8. lia.
      + rewrite (H5 Hne), length_app in H8. simpl in H8. lia. }
  intros s. destruct (H heights init_net eq_refl eq_refl) as (H1 & H2 & H3).
  fold s in H1, H2, H3. repeat split; try done.
  intros h Hh.
  by destruct (check_network_status_keeps h s H1 H2) as (_ & _ & _ & H4 & _); auto.
Qed.

(** [get_transaction_status] reports "Confirmed" exactly when the chain
    gave details whose block height is positive and not above the latest
    height the wallet has seen; the confirmations are then
    latest - height + 1, and they are never negative.  A transaction in a
    block above the wallet's latest height is reported "Pending".  An
    exception of the query gives "Error", no details give "Unknown". *)
Theorem transaction_status_confirmed (latest : Z)
  (tx_details : result (option TxDetails)) :
  let st := get_transaction_status latest tx_details in
  (ts_status st = "Confirmed" <->
   exists d, tx_details = Ok (Some d) /\ 0 < td_block_height d <= latest) /\
  (ts_status st = "Confirmed" ->
   forall d, tx_details = Ok (Some d) ->
     ts_confirmations st = Some (latest - td_block_height d + 1)) /\
  (forall c, ts_confirmations st = Some c -> 0 <= c) /\
  (forall d, tx_details = Ok (Some d) -> latest < td_block_height d ->
     ts_status st = "Pending") /\
  (ts_status st = "Error" <-> exists e, tx_details = Raise e) /\
  (ts_status st = "Unknown" <-> tx_details = Ok None).
Proof.
  intros st. unfold st, get_transaction_status.
  destruct tx_details as [[d|]|e]; simpl.
  - destruct (decide (td_block_height d > 0)) as [Hb|Hb];
      [destruct (decide (Z.max 0 (latest - td_block_height d + 1) > 0)) as [Hc|Hc]|];
      simpl; repeat split; intros;
      repeat match goal with
             | H : exists _, _ |- _ => destruct H
             | H : _ /\ _ |- _ => destruct H
             end;
      simplify_eq; try done; try lia;
      try (f_equal; lia);
      try (eexists; split; [reflexivity|lia]).
  - repeat split; intros;
      repeat match goal with
             | H : exists _, _ |- _ => destruct H
             | H : _ /\ _ |- _ => destruct H
             end; simplify_eq; done.
  - repeat split; intros;
      repeat match goal with
             | H : exists _, _ |- _ => destruct H
             | H : _ /\ _ |- _ => destruct H
             end; simplify_eq; try done; by eexists.
Qed.

End NetworkStatus.

(** * Price tracker *)

Section Prices.

Import PriceTracker.

Lemma update_prices_step (c : float) (stamp : Z) (now : float) (t : Tracker) :
  (length (price_history t) <= 1440)%nat ->
  let t' := (update_prices c stamp now t).2 in
  length (price_history t') = Nat.min (S (length (price_history t))) 1440 /\
  exists p, price t' = Some p /\ (0.01 <=? p)%float = true /\
            last (price_history t') = Some (stamp, p) /\ last_update_time t' = now.
Proof.
  intros Hlen. unfold update_prices. cbn [snd price price_history last_update_time].
  set (p := TransactionManager.py_max _ _).
  split.
  - destruct (decide _) as [Hgt|Hle].
    + unfold last_n. rewrite length_drop, length_app in *. simpl in *. lia.
    + rewrite length_app in *. simpl in *. lia.
  - exists p. split; [done|]. split.
    { unfold p, TransactionManager.py_max.
      destruct (0.01 <? _)%float eqn:Hlt; [by apply ltb_leb|reflexivity]. }
    split; [|done].
    destruct (decide _) as [Hgt|Hle]; [|apply last_snoc].
    unfold last_n. rewrite drop_app_le by (rewrite length_app; simpl; lia).
    apply last_snoc.
Qed.

(** After any run of [update_prices] on a new tracker the history holds
    one point per update up to 1440 and never more, and, once there has
    been an update, the price is at least 0.01 and is the price of the
    newest history point, which carries the stamp of the last update. *)
Theorem price_history_bounded (changes : list (float * Z * float)) :
  let t := updates changes init in
  length (price_history t) = Nat.min (length changes) 1440 /\
  (changes <> [] ->
   exists c p stamp now,
     last changes = Some (c, stamp, now) /\
     price t = Some p /\ (0.01 <=? p)%float = true /\
     last (price_history t) = Some (stamp, p) /\ last_update_time t = now).
Proof.
  assert (H : forall cs t0,
            (length (price_history t0) <= 1440)%nat ->
            length (price_history (updates cs t0))
              = Nat.min (length (price_history t0) + length cs) 1440 /\
            (cs <> [] ->
             exists c p stamp now,
               last cs = Some (c, stamp, now) /\
               price (updates cs t0) = Some p /\ (0.01 <=? p)%float = true /\
               last (price_history (updates cs t0)) = Some (stamp, p) /\
               last_update_time (updates cs t0) = now)).
  { induction cs as [|[[c stamp] now] cs IH]; intros t0 Hlen.
    - simpl. split; [lia|done].
    - cbn [updates].
      destruct (update_prices_step c stamp now t0 Hlen)
        as (Hl & p & Hp & Hge & Hlast & Ht).
      destruct (IH (update_prices c stamp now t0).2) as [IH1 IH2]; [lia|].
      split.
      + rewrite IH1, Hl. simpl. lia.
      + intros _. destruct cs as [|c2 cs].
        * simpl. exists c, p, stamp, now. done.
        * destruct IH2 as (c' & p' & stamp' & now' & ?); [done|].
          exists c', p', stamp', now'. by rewrite last_cons_cons. }
  intros t. destruct (H changes init) as [H1 H2]; [simpl; lia|].
  split; [exact H1|exact H2].
Qed.

End Prices.

(** * Padding and data encryption *)

Section Padding.

Lemma to_N_byte_of_N (n : N) : (n < 256)%N -> Byte.to_N (Base64.byte_of_N n) = n.
Proof.
  intros H. unfold Base64.byte_of_N. rewrite N.mod_small by done.
  destruct (Byte.of_N n) as [b|] eqn:Hb.
  - by apply Byte.to_of_N.
  - apply Byte.of_N_None_iff in Hb. lia.
Qed.

Lemma last_repeat {A} (x : A) (n : nat) (l : list A) :
  (0 < n)%nat -> last (l ++ repeat x n) = Some x.
Proof.
  intros H. destruct n as [|n]; [lia|].
  change (repeat x (S n)) with (x :: repeat x n).
  rewrite List.repeat_cons, app_assoc. apply last_snoc.
Qed.

Lemma pad_data_length (data : list byte) :
  length (pad_data data) = (length data + (16 - length data mod 16))%nat.
Proof. unfold pad_data. by rewrite length_app, repeat_length. Qed.

Lemma pad_data_blocks (data : list byte) : (length (pad_data data) mod 16 = 0)%nat.
Proof.
  rewrite pad_data_length.
  pose proof (Nat.div_mod_eq (length data) 16).
  pose proof (Nat.mod_upper_bound (length data) 16).
  replace (length data + (16 - length data mod 16))%nat
    with ((1 + length data / 16) * 16)%nat by lia.
  apply Nat.Div0.mod_mul.
Qed.

Lemma unpad_pad_data (data : list byte) : unpad_data (pad_data data) = Ok data.
Proof.
  set (n := (16 - length data mod 16)%nat).
  assert (Hn : (1 <= n <= 16)%nat).
  { pose proof (Nat.mod_upper_bound (length data) 16). lia. }
  unfold unpad_data, pad_data. fold n.
  rewrite last_repeat by lia.
  rewrite to_N_byte_of_N by lia.
  destruct (decide _) as [|_]; [lia|].
  f_equal. unfold py_slice_to. destruct (decide _) as [_|]; [|lia].
  rewrite length_app, repeat_length.
  replace (Z.to_nat (Z.of_nat (length data + n) + - Z.of_N (N.of_nat n)))
    with (length data) by lia.
  apply take_app_length.
Qed.

(** [unpad_data] undoes [pad_data] on every byte string, the empty one
    included; the padded data is longer than the data by 1 to 16 bytes
    and its length is a multiple of 16.  [unpad_data] itself checks
    nothing: on empty input it raises [IndexError], and on input ending in
    a zero byte it returns the empty string. *)
Theorem pad_unpad_round_trip (data : list byte) :
  unpad_data (pad_data data) = Ok data /\
  (length (pad_data data) mod 16 = 0)%nat /\
  (length data < length (pad_data data) <= length data + 16)%nat /\
  unpad_data [] = Raise IndexError /\
  (forall l, unpad_data (l ++ [x00]) = Ok []).
Proof.
  split; [apply unpad_pad_data|]. split; [apply pad_data_blocks|].
  split; [|split].
  - rewrite pad_data_length.
    pose proof (Nat.mod_upper_bound (length data) 16). lia.
  - reflexivity.
  - intros l. unfold unpad_data. by rewrite last_snoc.
Qed.

End Padding.

Section Base64Plain.

Import Base64.

Lemma a2b_loop_encode_plain (data : list byte) : forall lc p out,
  a2b_loop (b64encode data) 0 lc p out = Ok (rev out ++ data)%list.
Proof.
  induction data as [|x|x y|x y z rest IH] using triple_ind; intros lc p out.
  - simpl. by rewrite app_nil_r.
  - change (b64encode [x]) with
      (String (b2a (idx1 x))
         (String (b2a (N.shiftl (N.land (Byte.to_N x) 3) 4)) "==")).
    rewrite (a2b_loop_valid _ _ _ _ _ _ (valid_idx1 x)).
    rewrite (a2b_loop_valid _ _ _ _ _ _ (valid_tail1 x)).
    rewrite out1_tail_eq. reflexivity.
  - change (b64encode [x; y]) with
      (String (b2a (idx1 x)) (String (b2a (idx2 x y))
         (String (b2a (N.shiftl (N.land (Byte.to_N y) 15) 2)) "="))).
    rewrite (a2b_loop_valid _ _ _ _ _ _ (valid_idx1 x)).
    rewrite (a2b_loop_valid _ _ _ _ _ _ (valid_idx2 x y)).
    rewrite (a2b_loop_valid _ _ _ _ _ _ (valid_tail2 y)).
    rewrite out1_eq, out2_tail_eq. simpl. by rewrite <- app_assoc.
  - change (b64encode (x :: y :: z :: rest)) with
      (encode3 x y z +:+ b64encode rest).
    rewrite a2b_loop_group, IH. simpl. by rewrite <- !app_assoc.
Qed.

Lemma is_ascii_append (a b : string) : is_ascii (a +:+ b) = is_ascii a && is_ascii b.
Proof.
  induction a as [|c a IH]; [done|].
  rewrite append_cons. simpl. rewrite IH. by rewrite andb_assoc.
Qed.

Lemma is_ascii_encode_plain (data : list byte) : is_ascii (b64encode data) = true.
Proof.
  pose proof (is_ascii_encode data) as H.
  rewrite is_ascii_append in H. by apply andb_true_iff in H as [H _].
Qed.

(** [b64decode] undoes [b64encode]. *)
Lemma b64decode_encode (data : list byte) : b64decode (b64encode data) = Ok data.
Proof.
  unfold b64decode, a2b_base64.
  by rewrite is_ascii_encode_plain, a2b_loop_encode_plain.
Qed.

Lemma b64encode_nonempty (data : list byte) : data <> [] -> b64encode data <> "".
Proof. by destruct data as [|x [|y [|z rest]]]. Qed.

End Base64Plain.

Section DataEncryption.

Variable pbkdf2 : Z -> list byte -> string -> list byte.
Variable aes_cbc_encrypt : list byte -> list byte -> list byte -> result (list byte).
Variable aes_cbc_decrypt : list byte -> list byte -> list byte -> result (list byte).
Variable utf8_decode : list byte -> result string.

(** AES-CBC takes whole blocks and decrypts what it encrypted. *)
Hypothesis aes_round_trip : forall key iv m,
  (length m mod 16 = 0)%nat ->
  exists ct, aes_cbc_encrypt key iv m = Ok ct /\ aes_cbc_decrypt key iv ct = Ok m.

Local Abbreviation enc := (encrypt_data pbkdf2 aes_cbc_encrypt).
Local Abbreviation dec := (decrypt_data pbkdf2 aes_cbc_decrypt utf8_decode).

(** With a non-empty password, [decrypt_data] gives back what
    [encrypt_data] was given: the salt and the IV are read back from the
    first 32 bytes of the decoded blob and the padding is taken off. *)
Theorem encrypt_decrypt_data_round_trip (s : Settings) (data password : string)
  (salt iv : list byte) :
  password <> "" -> length salt = 16%nat -> length iv = 16%nat ->
  utf8_decode (utf8_encode data) = Ok data ->
  exists blob,
    enc s data (Some password) salt iv = Ok blob /\
    dec s blob (Some password) = Ok data.
Proof.
  intros Hp Hs Hiv Hutf.
  pose proof (unpad_pad_data (utf8_encode data)) as Hunpad.
  pose proof (pad_data_blocks (utf8_encode data)) as Hmod.
  destruct (aes_round_trip (derive_key_from_password pbkdf2 s password salt) iv
              _ Hmod) as (ct & He & Hd).
  unfold encrypt_data, decrypt_data, data_key.
  assert (Ht : truthy (Some password) = true)
    by (simpl; by rewrite bool_decide_eq_false_2).
  rewrite Ht. change (default "" (Some password)) with password. rewrite He.
  eexists. split; [reflexivity|].
  rewrite b64decode_encode.
  rewrite take_app_length' by done. rewrite drop_app_length' by done.
  rewrite take_app_length' by done.
  replace (drop 32 (salt ++ iv ++ ct))%list with ct.
  - by rewrite Hd, Hunpad.
  - rewrite app_assoc. rewrite drop_app_length'; [done|].
    rewrite length_app. lia.
Qed.

(** Without a password ([None]) neither function ever returns: each
    raises, at the latest when it calls [encode] on [None] to derive the
    key from the stored salt. *)
Theorem data_encryption_needs_password (s : Settings) (data blob : string)
  (salt iv : list byte) :
  is_ok (enc s data None salt iv) = false /\ is_ok (dec s blob None) = false.
Proof.
  assert (Hk : forall salt', is_ok (data_key pbkdf2 s None salt') = false).
  { intros salt'. unfold data_key. simpl.
    destruct (Base64.b64decode _) as [[|b l]|e]; done. }
  split.
  - unfold encrypt_data. specialize (Hk salt).
    by destruct (data_key pbkdf2 s None salt) as [[k sl]|e].
  - unfold decrypt_data. destruct (Base64.b64decode blob) as [d|e]; [|done].
    specialize (Hk (take 16 d)).
    by destruct (data_key pbkdf2 s None (take 16 d)) as [[k sl]|e].
Qed.

End DataEncryption.

Lemma encrypt_decrypt_data_round_trip_witness :
  exists blob,
    encrypt_data toy_pbkdf2 toy_aes_encrypt default_settings "secret note"
      (Some "hunter2") salt16 salt16 = Ok blob /\
    decrypt_data toy_pbkdf2 toy_aes_decrypt toy_utf8_decode default_settings blob
      (Some "hunter2") = Ok "secret note".
Proof.
  apply (encrypt_decrypt_data_round_trip toy_pbkdf2 toy_aes_encrypt
           toy_aes_decrypt toy_utf8_decode).
  - intros key iv m _. exists (rev m). split; [reflexivity|].
    unfold toy_aes_decrypt. by rewrite rev_involutive.
  - discriminate.
  - reflexivity.
  - reflexivity.
  - reflexivity.
Defined.

(** * More on the security gate *)

Section GateFurther.

Variable pbkdf2 : Z -> list byte -> string -> list byte.
Variable sha256 : list byte -> list byte.

Local Abbreviation verify := (verify_master_password pbkdf2 sha256).
Local Abbreviation create := (create_master_password pbkdf2 sha256).

Lemma verify_same_credentials p now_lock now s :
  same_credentials s (verify p now_lock now s).2.
Proof.
  unfold verify_master_password.
  destruct (password_required s); [|done]. cbn [negb].
  destruct (locked s).
  - destruct (decide _); [done|]. cbn.
    destruct (password_salt s) as [salt|]; [|done].
    destruct (password_hash s) as [hash|]; [|done].
    destruct (_ || _); [done|].
    destruct (hashes_match _ _ _ _ _ _) as [[]|e]; try done.
    cbn. by destruct (decide _).
  - destruct (password_salt s) as [salt|]; [|done].
    destruct (password_hash s) as [hash|]; [|done].
    destruct (_ || _); [done|].
    destruct (hashes_match _ _ _ _ _ _) as [[]|e]; try done.
    cbn. by destruct (decide _).
Qed.

Lemma created_checks s p salt now :
  salt <> [] -> sha256 (pbkdf2 (pbkdf2_iterations s) salt p) <> [] ->
  checks_as pbkdf2 sha256 (create p salt now s) p true.
Proof.
  intros Hs Hh. eexists _, _.
  split; [reflexivity|]. split; [reflexivity|].
  split; [by apply b64encode_nonempty|]. split; [by apply b64encode_nonempty|].
  unfold hashes_match. rewrite !b64decode_encode.
  unfold derive_key_from_password. cbn [pbkdf2_iterations create_master_password].
  unfold derive_key_from_password. by rewrite bool_decide_eq_true_2.
Qed.

(** The password just set by [create_master_password] verifies, whatever
    the settings were before: the call turns protection on, clears the
    failed-attempt counter and lifts a lock that was on, without asking
    for the old password. *)
Theorem create_then_verify (s : Settings) (p : string) (salt : list byte)
  (now now_lock now' : Z) :
  salt <> [] -> sha256 (pbkdf2 (pbkdf2_iterations s) salt p) <> [] ->
  let s1 := create p salt now s in
  password_required s1 = true /\ locked s1 = false /\ failed_attempts s1 = 0 /\
  verify p now_lock now' s1 = (true, set_success now' s1).
Proof.
  intros Hs Hh s1. split; [done|]. split; [done|]. split; [done|].
  by rewrite (verify_unlocked pbkdf2 sha256 s1 p now_lock now' true eq_refl eq_refl
                (created_checks s p salt now Hs Hh)).
Qed.

(** Once 3600 seconds have passed since the lock time, the lock is over:
    [is_locked] returns [False] and clears lock and counter, the right
    password verifies and stamps the later clock reading of the call, and
    a wrong one counts as the first failed attempt of a new run. *)
Theorem lock_expires (s : Settings) (t now_lock now : Z) (p : string) :
  password_required s = true -> locked s = true -> lockout_time s = Some t ->
  3600 <= now_lock - t ->
  is_locked now_lock s = (false, set_lock false 0 s) /\
  (checks_as pbkdf2 sha256 s p true ->
   verify p now_lock now s = (true, set_success now (set_lock false 0 s))) /\
  (checks_as pbkdf2 sha256 s p false ->
   exists s', verify p now_lock now s = (false, s') /\ failed_attempts s' = 1 /\
              (locked s' = true <-> failed_attempts_limit s <= 1)).
Proof.
  intros Hr Hl Ht Hnow.
  assert (Hs : same_credentials s (set_lock false 0 s)) by done.
  assert (Hv : forall b, checks_as pbkdf2 sha256 s p b ->
             verify p now_lock now s = verify p now_lock now (set_lock false 0 s)).
  { intros b Hc. unfold verify_master_password at 1.
    rewrite Hr, Hl, Ht. cbn [negb].
    change (default 0 (Some t)) with t.
    destruct (decide _) as [|_]; [lia|].
    unfold verify_master_password.
    cbn [password_required locked set_lock]. by rewrite Hr. }
  split; [|split].
  - unfold is_locked. rewrite Hl, Ht. cbn [negb].
    change (default 0 (Some t)) with t.
    by destruct (decide _) as [|_]; [lia|].
  - intros Hc. rewrite (Hv _ Hc).
    by rewrite (verify_unlocked pbkdf2 sha256 (set_lock false 0 s) p now_lock now true
                  Hr eq_refl (checks_as_same pbkdf2 sha256 _ _ _ _ Hs Hc)).
  - intros Hc. rewrite (Hv _ Hc).
    rewrite (verify_unlocked pbkdf2 sha256 (set_lock false 0 s) p now_lock now false
               Hr eq_refl (checks_as_same pbkdf2 sha256 _ _ _ _ Hs Hc)).
    cbn [failed_attempts set_lock failed_attempts_limit].
    eexists. split; [reflexivity|].
    destruct (decide _); cbn; split; try done; try lia.
Qed.

(** A verification that succeeds with protection on stamps the time of
    the call, and from then on [should_auto_lock] is [True] exactly when
    more than [auto_lock_timeout] seconds have passed since that call. *)
Theorem verify_postpones_auto_lock (s : Settings) (p : string) (t0 t now : Z) :
  password_required s = true -> (verify p t0 t s).1 = true ->
  let s' := (verify p t0 t s).2 in
  last_access s' = t /\ failed_attempts s' = 0 /\
  should_auto_lock now s' = bool_decide (now - t > auto_lock_timeout s).
Proof.
  intros Hr Hok s'.
  assert (H : last_access s' = t /\ failed_attempts s' = 0 /\
              auto_lock_timeout s' = auto_lock_timeout s /\
              password_required s' = true).
  { unfold s'. revert Hok. unfold verify_master_password. rewrite Hr. cbn [negb].
    destruct (locked s).
    - destruct (decide _); [done|]. cbn.
      destruct (password_salt s) as [salt|]; [|done].
      destruct (password_hash s) as [hash|]; [|done].
      destruct (_ || _); [done|].
      destruct (hashes_match _ _ _ _ _ _) as [[]|e]; done.
    - destruct (password_salt s) as [salt|]; [|done].
      destruct (password_hash s) as [hash|]; [|done].
      destruct (_ || _); [done|].
      destruct (hashes_match _ _ _ _ _ _) as [[]|e]; done. }
  destruct H as (H1 & H2 & H3 & H4).
  split; [done|]. split; [done|].
  unfold should_auto_lock. by rewrite H4, H1, H3.
Qed.

(** [change_master_password] on an unlocked gate: with a wrong old
    password it returns [False], keeps the stored salt and hash and counts
    one failed attempt; with the right one it returns [True] and the new
    password verifies from then on. *)
Theorem change_master_password_checks_old (s : Settings)
  (old new : string) (salt : list byte) (now_lock now_verify now_create : Z) :
  password_required s = true -> locked s = false ->
  (checks_as pbkdf2 sha256 s old false ->
   exists s',
     change_master_password pbkdf2 sha256 old new salt
       now_lock now_verify now_create s = (false, s') /\
     password_salt s' = password_salt s /\ password_hash s' = password_hash s /\
     failed_attempts s' = failed_attempts s + 1) /\
  (checks_as pbkdf2 sha256 s old true -> salt <> [] ->
   sha256 (pbkdf2 (pbkdf2_iterations s) salt new) <> [] ->
   exists s',
     change_master_password pbkdf2 sha256 old new salt
       now_lock now_verify now_create s = (true, s') /\
     forall now_lock' now', (verify new now_lock' now' s').1 = true).
Proof.
  intros Hr Hl. split.
  - intros Hc. unfold change_master_password.
    rewrite (verify_unlocked pbkdf2 sha256 s old now_lock now_verify false Hr Hl Hc).
    cbn zeta. eexists. split; [reflexivity|].
    by destruct (decide _).
  - intros Hc Hs Hh. unfold change_master_password.
    rewrite (verify_unlocked pbkdf2 sha256 s old now_lock now_verify true Hr Hl Hc).
    eexists. split; [reflexivity|]. intros now_lock' now'.
    by rewrite (verify_unlocked pbkdf2 sha256
                  (create new salt now_create (set_success now_verify s)) new
                  now_lock' now' true eq_refl eq_refl
                  (created_checks (set_success now_verify s) new salt now_create
                     Hs Hh)).
Qed.

End GateFurther.

(** * Address book search *)

Section Search.

Import AddressBook.

Lemma prefix_refl (s : string) : String.prefix s s = true.
Proof. induction s as [|c s IH]; simpl; [done|]. by destruct (ascii_dec c c). Qed.

Lemma prefix_empty (s : string) : String.prefix "" s = true.
Proof. by destruct s. Qed.

Lemma contains_refl (s : string) : contains s s = true.
Proof.
  destruct s as [|c s]; [done|].
  cbn [contains]. by rewrite (prefix_refl (String c s)).
Qed.

Lemma contains_empty (s : string) : contains "" s = true.
Proof. destruct s; by simpl. Qed.

Lemma search_loop_spec (q : string) (cs : list Contact) :
  Forall (fun c => contact_address c <> None) cs ->
  exists res,
    search_loop q cs = Ok res /\ res `sublist_of` cs /\
    (forall c, c ∈ res <-> c ∈ cs /\ matches q c).
Proof.
  induction cs as [|c cs IH]; intros Hall.
  - exists []. split; [done|]. split; [done|].
    intros c. split; [by intros ?%elem_of_nil|by intros [?%elem_of_nil _]].
  - inversion Hall as [|? ? Hc Hcs]; subst.
    destruct (IH Hcs) as (res & Hres & Hsub & Hin).
    cbn [search_loop]. rewrite Hres.
    destruct (contact_address c) as [adr|] eqn:Ha; [|done].
    destruct (contains q (lower (contact_name c))) eqn:Hn.
    + exists (c :: res). split; [done|]. split; [by constructor|].
      intros c'. rewrite !elem_of_cons, Hin. split.
      * intros [->|[? ?]]; [|by auto]. split; [by left|by left].
      * intros [[->|?] ?]; auto.
    + destruct (contains q (lower adr)) eqn:Had.
      * exists (c :: res). split; [done|]. split; [by constructor|].
        intros c'. rewrite !elem_of_cons, Hin. split.
        -- intros [->|[? ?]]; [|by auto].
           split; [by left|]. right. by exists adr.
        -- intros [[->|?] ?]; auto.
      * exists res. split; [done|]. split; [by constructor|].
        intros c'. rewrite elem_of_cons, Hin. split.
        -- intros [? ?]. auto.
        -- intros [[->|?] Hm]; [|done].
           destruct Hm as [Hm|(adr' & Hadr & Hm)]; [congruence|].
           rewrite Ha in Hadr. injection Hadr as <-. congruence.
Qed.

(** [search_contacts] on an account whose contacts all have an address
    returns, in the order of the address book, exactly the contacts whose
    lower-cased name or address contains the lower-cased query.  So a
    contact is found by its own name in any letter case and by its own
    address, and the empty query returns every contact.  The accounts are
    not changed. *)
Theorem search_contacts_finds (s : Accounts) (i : Z) (a : Account) (query : string) :
  0 <= i -> s !! Z.to_nat i = Some a ->
  Forall (fun c => contact_address c <> None) (contacts a) ->
  exists res,
    search_contacts i query s = (Ok res, s) /\
    res `sublist_of` contacts a /\
    (forall c, c ∈ res <-> c ∈ contacts a /\ matches (lower query) c) /\
    (forall c, c ∈ contacts a -> lower query = lower (contact_name c) -> c ∈ res) /\
    (forall c adr, c ∈ contacts a -> contact_address c = Some adr ->
       lower query = lower adr -> c ∈ res) /\
    (query = "" -> res = contacts a).
Proof.
  intros Hi Ha Hall.
  destruct (search_loop_spec (lower query) (contacts a) Hall)
    as (res & Hres & Hsub & Hin).
  exists res. split.
  { unfold search_contacts, WalletCore.get_contacts, bind, get, ret, lift.
    rewrite (lookup_index_ok _ _ _ Hi Ha), (load_eq _ _ _ Hi Ha). by rewrite Hres. }
  split; [done|]. split; [done|]. split; [|split].
  - intros c Hc Hq. apply Hin. split; [done|]. left.
    rewrite Hq. apply contains_refl.
  - intros c adr Hc Hadr Hq. apply Hin. split; [done|]. right.
    exists adr. split; [done|]. rewrite Hq. apply contains_refl.
  - intros ->. simpl in *.
    assert (Hlen : forall cs r, Forall (fun c => contact_address c <> None) cs ->
              search_loop "" cs = Ok r -> r = cs).
    { induction cs as [|c cs IH]; intros r Hcs Hr; simpl in Hr.
      - by injection Hr as <-.
      - inversion Hcs; subst. rewrite contains_empty in Hr.
        destruct (search_loop "" cs) as [r'|] eqn:Hr'; [|done].
        injection Hr as <-. f_equal. by apply IH. }
    by apply Hlen.
Qed.

End Search.

(** * The further properties on sample data *)

Lemma disable_encryption_writes_plaintext_witness :
  disable_encryption unit toy_encrypt toy_dumps_braced tt plain_wallet
    = (true, plain_wallet) /\
  w_file (disable_encryption unit toy_encrypt toy_dumps_braced tt
            (encrypt_wallet toy_derive_key unit toy_encrypt toy_dumps_braced
               "correct horse" salt16 tt plain_wallet).2).2
    = Some (toy_dumps_braced [fresh_account]).
Proof.
  destruct (disable_encryption_writes_plaintext toy_derive_key unit toy_encrypt
              toy_dumps_braced "correct horse" salt16 tt tt plain_wallet)
    as [H1 (_ & _ & _ & _ & _ & H2)].
  split; [apply H1; reflexivity|exact H2].
Defined.

Lemma send_transaction_success_witness :
  exists a',
    TransactionManager.send_transaction toy_float_str
      TransactionManager.init_settings 0 addr_bob 10 ""
      1700000000 1700000001 1700000002 [funded_account]
      = (Ok "at1700000002", [a']) /\
    transactions a'
      = TransactionManagerMore.sent_transaction TransactionManager.init_settings
          funded_account addr_bob 10 "" 1700000000 1700000001 1700000002
        :: transactions funded_account /\
    balance a' = 0%float.
Proof.
  destruct (send_transaction_success toy_float_str TransactionManager.init_settings
              [funded_account] 0 funded_account addr_bob 10 ""
              1700000000 1700000001 1700000002
              ltac:(lia) eq_refl eq_refl eq_refl eq_refl)
    as (a' & H1 & H2 & H3 & _).
  exists a'. split; [exact H1|]. split; [exact H2|]. rewrite H3. reflexivity.
Defined.

Lemma get_transaction_after_add_witness :
  TransactionManager.get_transaction 0 "at7"
    (WalletCore.add_transaction 0 confirmed_received 5 [fresh_account]).2
  = (Ok (Some (stamp 5 confirmed_received)),
     (WalletCore.add_transaction 0 confirmed_received 5 [fresh_account]).2).
Proof.
  apply (get_transaction_after_add [fresh_account] 0 fresh_account
           confirmed_received 5 "at7"); [lia|reflexivity|reflexivity].
Defined.

Lemma monitor_confirms_witness :
  TransactionManager.monitor 0 "at1" 42
    [set_transactions [pending_sent] fresh_account]
  = (Ok tt,
     [set_transactions
        [TransactionManager.set_block_height 42
           (set_status TransactionManager.STATUS_CONFIRMED pending_sent)]
        fresh_account]).
Proof.
  apply (proj1 (monitor_confirms [set_transactions [pending_sent] fresh_account]
                  0 "at1" 42)
           (set_transactions [pending_sent] fresh_account) 0%nat pending_sent);
    [lia|reflexivity|reflexivity].
Defined.

Lemma receive_transaction_credits_witness :
  exists tx a',
    TransactionManager.receive_transaction 0 addr_bob 5 None 77 78
      [fresh_account]
      = (Ok tx, <[Z.to_nat 0 := a']> [fresh_account]) /\
    transactions a' = tx :: transactions fresh_account /\
    balance a' = (balance fresh_account + 5)%float /\
    tx_status tx = "Confirmed" /\ tx_type tx = "Received" /\
    tx_amount tx = 5%float /\
    tx_timestamp tx = Some 78 /\
    tx_transaction_id tx = Some (str_or None ("at" +:+ pretty 77)).
Proof.
  apply (proj1 (receive_transaction_credits [fresh_account] 0 addr_bob 5
                  None 77 78) fresh_account); [lia|reflexivity].
Defined.

Lemma estimate_transaction_time_antitone_witness :
  TransactionManagerMore.estimate_transaction_time TransactionManager.init_settings
    0.002
  <= TransactionManagerMore.estimate_transaction_time
       TransactionManager.init_settings 0.0005.
Proof.
  apply (estimate_transaction_time_antitone TransactionManager.init_settings
           0.0005 0.002).
  reflexivity.
Defined.



Lemma notifications_alternate_witness :
  let s := BlockchainIntegrationMore.probes
             [Ok (JInt 5); Raise (ValueError "offline")]
             BlockchainIntegrationMore.init_net in
  BlockchainIntegration.notified
    (BlockchainIntegration.check_network_status (Raise (ValueError "offline")) s).2
  = BlockchainIntegration.notified s.
Proof.
  intros s.
  apply (proj2 (proj2 (proj2 (notifications_alternate
                  [Ok (JInt 5); Raise (ValueError "offline")])))).
  reflexivity.
Defined.

Lemma transaction_status_confirmed_witness :
  BlockchainIntegrationMore.ts_confirmations
    (BlockchainIntegrationMore.get_transaction_status 20 (Ok (Some payment_details)))
  = Some (20 - 12 + 1).
Proof.
  destruct (transaction_status_confirmed 20 (Ok (Some payment_details)))
    as (_ & H & _).
  apply (H eq_refl payment_details eq_refl).
Defined.

Lemma price_history_bounded_witness :
  let t := PriceTracker.updates [((-1)%float, 100, 100.1%float)]
             PriceTracker.init in
  exists c p stamp now,
    last [((-1)%float, 100, 100.1%float)] = Some (c, stamp, now) /\
    PriceTracker.price t = Some p /\ (0.01 <=? p)%float = true /\
    last (PriceTracker.price_history t) = Some (stamp, p) /\
    PriceTracker.last_update_time t = now.
Proof.
  apply (proj2 (price_history_bounded [((-1)%float, 100, 100.1%float)])).
  discriminate.
Defined.

Lemma create_then_verify_witness :
  verify_master_password toy_pbkdf2 toy_sha256 "hunter3" 4000 4001
    (create_master_password toy_pbkdf2 toy_sha256 "hunter3" salt16 3000 locked_gate)
  = (true,
     set_success 4001
       (create_master_password toy_pbkdf2 toy_sha256 "hunter3" salt16 3000
          locked_gate)).
Proof.
  apply (create_then_verify toy_pbkdf2 toy_sha256 locked_gate "hunter3" salt16
           3000 4000 4001); discriminate.
Defined.

Lemma lock_expires_witness :
  is_locked 3650 locked_gate = (false, set_lock false 0 locked_gate).
Proof.
  apply (lock_expires toy_pbkdf2 toy_sha256 locked_gate 50 3650 3651 "hunter2");
    [reflexivity|reflexivity|reflexivity|lia].
Defined.

Lemma verify_postpones_auto_lock_witness :
  should_auto_lock 400
    (verify_master_password toy_pbkdf2 toy_sha256 "hunter2" 6 7 gate0).2
  = bool_decide (400 - 7 > auto_lock_timeout gate0).
Proof.
  apply (verify_postpones_auto_lock toy_pbkdf2 toy_sha256 gate0 "hunter2" 6 7 400);
    [reflexivity|by vm_compute].
Defined.

Lemma change_master_password_checks_old_witness :
  exists s',
    change_master_password toy_pbkdf2 toy_sha256 "guess" "hunter3" salt16
      8 9 10 gate0 = (false, s') /\
    password_salt s' = password_salt gate0 /\
    password_hash s' = password_hash gate0 /\
    failed_attempts s' = failed_attempts gate0 + 1.
Proof.
  apply (proj1 (change_master_password_checks_old toy_pbkdf2 toy_sha256 gate0
                  "guess" "hunter3" salt16 8 9 10 eq_refl eq_refl)).
  eexists _, _.
  split; [reflexivity|]. split; [reflexivity|].
  split; [discriminate|]. split; [discriminate|].
  by vm_compute.
Defined.

Lemma search_contacts_finds_witness :
  exists res,
    AddressBook.search_contacts 0 "BOB" [account_with_bob]
      = (Ok res, [account_with_bob]) /\
    mkContact "Bob" (Some addr_bob) "Colleague" ∈ res.
Proof.
  destruct (search_contacts_finds [account_with_bob] 0 account_with_bob "BOB")
    as (res & H1 & _ & _ & H4 & _).
  - lia.
  - reflexivity.
  - repeat constructor; discriminate.
  - exists res. split; [exact H1|]. apply H4.
    + by left.
    + reflexivity.
Defined.
